(** * HTN-backend: the session-lifecycle and buffering core of the HRM logger

    A shallow embedding of
      - [src/HRM/localDB/data_processor.py]  (class [DataProcessor]),
      - [src/HRM/localDB/database.py]        (class [HRMDatabase]),
      - [src/HRM/localDB/session_manager.py] (class [SessionManager]),
      - [src/HRM/data_logger.py]             ([HRMDataLogger]),
    and the properties the specification states about them.

    Number model.  Clock readings are integers ([Z], whole clock ticks): the
    code only compares them and subtracts them.  Python [int]s are [Z].
    Timestamps of samples are binary64 values in the program.  Where a
    statement depends on nothing but their comparisons and holds for the
    floats as it does for integers, they are integers too ([DataProcessor],
    [Database]); where NaN or the rounding of a float addition changes what
    the code does, the code is modelled on binary64 floats ([PrimFloat]):
    the buffers in [FloatBuffer], the bucket bounds in
    [Database.float_buckets]; and a run of the buffers that meets no NaN is
    shown to be the run on integers, through the place of each float in
    their order ([FloatOrder.rank]).  The RMSSD computation is on binary64
    floats as well.  The values that the validator and the decoder compare
    are taken by their exact value: a rational, an infinity or NaN.  The
    other real-valued quantities (speed, distance, SQL averages) are
    modelled by their exact rational value ([Q]); SQLite computes an average
    in binary64, so nothing is claimed here about an average beyond its
    being NULL or not. *)

From Stdlib Require Import ZArith List Lia QArith Floats Sorted Ascii.
From stdpp Require Import gmap strings list fin_maps sorting pretty.

Local Close Scope Q_scope.
Local Open Scope Z_scope.

(** ** Python outcomes

    A call either returns a value or raises.  Mutations made before the
    [raise] stay, so a stateful operation is modelled as
    [state -> outcome A * state]. *)

Inductive exn : Type :=
  | ValueError      (* deque(maxlen=n) with n < 0 *)
  | KeyError        (* del d[k] on a missing key *)
  | IntegrityError. (* sqlite3: PRIMARY KEY violated *)

Inductive outcome (A : Type) : Type :=
  | Returned (a : A)
  | Raised (e : exn).
Arguments Returned {A} a.
Arguments Raised {A} e.

(** ** [DataProcessor]: the per-session buffers *)

Module DataProcessor.

Section Buffer.
(** A sample is the dict built by [process_ble_data]; the buffer reads only
    [data['timestamp']] of it. *)
Context {Sample : Type}.
Variable timestamp : Sample → Z.
(** [self.buffer_size], assigned once by [__init__]. *)
Variable buffer_size : Z.

(** [self.buffers] and [self.last_timestamps]. *)
Record processor : Type := Processor {
  buffers : gmap string (list Sample);
  last_timestamps : gmap string Z
}.

(** [DataProcessor.__init__]: both dicts start empty. *)
Definition init : processor := Processor ∅ ∅.

(** [collections.deque(maxlen=n)]: raises [ValueError] for a negative [n]. *)
Definition deque_new (maxlen : Z) : outcome (list Sample) :=
  if maxlen <? 0 then Raised ValueError else Returned [].

(** [deque.append]: the item goes to the right end; when the length then
    exceeds [maxlen] the leftmost item is discarded. *)
Definition deque_append (maxlen : Z) (q : list Sample) (x : Sample) : list Sample :=
  let q' := q ++ [x] in
  if maxlen <? Z.of_nat (length q') then tail q' else q'.

(** The last [n] items of a list: what a deque of capacity [n] retains. *)
Definition keep_last (n : nat) (l : list Sample) : list Sample :=
  drop (length l - n) l.

(** [self.last_timestamps.get(session_id, 0)]. *)
Definition last_ts (p : processor) (session_id : string) : Z :=
  default 0 (last_timestamps p !! session_id).

(** [self.buffers[session_id]] as a list; a session without deque has
    nothing pending. *)
Definition pending (p : processor) (session_id : string) : list Sample :=
  default [] (buffers p !! session_id).

(** [DataProcessor.add_to_buffer]. *)
Definition add_to_buffer (session_id : string) (data : Sample) (p : processor)
  : outcome bool * processor :=
  let ts := timestamp data in
  if ts <=? last_ts p session_id then (Returned false, p)
  else
    let p1 := Processor (buffers p) (<[session_id := ts]> (last_timestamps p)) in
    match buffers p1 !! session_id with
    | Some q =>
        let q' := deque_append buffer_size q data in
        (Returned (buffer_size <=? Z.of_nat (length q')),
         Processor (<[session_id := q']> (buffers p1)) (last_timestamps p1))
    | None =>
        match deque_new buffer_size with
        | Raised e => (Raised e, p1)
        | Returned q =>
            let q' := deque_append buffer_size q data in
            (Returned (buffer_size <=? Z.of_nat (length q')),
             Processor (<[session_id := q']> (buffers p1)) (last_timestamps p1))
        end
    end.

(** [DataProcessor.get_buffer]: the pending records, and the deque cleared
    (the key stays). *)
Definition get_buffer (session_id : string) (p : processor)
  : list Sample * processor :=
  match buffers p !! session_id with
  | None => ([], p)
  | Some q => (q, Processor (<[session_id := []]> (buffers p)) (last_timestamps p))
  end.

(** One round of the loop of [get_all_buffers]. *)
Definition get_all_step (acc : gmap string (list Sample) * processor)
    (session_id : string) : gmap string (list Sample) * processor :=
  let '(records, p') := get_buffer session_id (acc.2) in
  (match records with [] => acc.1 | _ => <[session_id := records]> (acc.1) end, p').

(** [DataProcessor.get_all_buffers]: [for session_id in self.buffers]. *)
Definition get_all_buffers (p : processor)
  : gmap string (list Sample) * processor :=
  foldl get_all_step (∅, p) ((map_to_list (buffers p)).*1).

(** Offering a sequence of samples to one session, with no drain in
    between: the outcome of each offer and the state it leaves, in order. *)
Fixpoint offers (session_id : string) (xs : list Sample) (p : processor)
  : list (outcome bool * processor) :=
  match xs with
  | [] => []
  | x :: xs' =>
      let r := add_to_buffer session_id x p in
      r :: offers session_id xs' (r.2)
  end.

(** What the ingestion path and the maintenance loop do to a processor. *)
Inductive op : Type :=
  | Offer (session_id : string) (data : Sample)
  | Drain (session_id : string)
  | DrainAll.

(** One operation; the second component lists the batches handed to the
    storage writer ([_flush_buffer] passes what [get_buffer] and
    [get_all_buffers] return to [batch_insert_raw_metrics]). *)
Definition step (o : op) (p : processor)
  : list (string * list Sample) * processor :=
  match o with
  | Offer sid x => ([], (add_to_buffer sid x p).2)
  | Drain sid => let '(records, p') := get_buffer sid p in ([(sid, records)], p')
  | DrainAll => let '(result, p') := get_all_buffers p in (map_to_list result, p')
  end.

Fixpoint run (os : list op) (p : processor)
  : list (string * list Sample) * processor :=
  match os with
  | [] => ([], p)
  | o :: os' =>
      let '(b1, p1) := step o p in
      let '(b2, p2) := run os' p1 in
      (b1 ++ b2, p2)
  end.

(** What holds of every queue of a processor built by [run] from [init]:
    it respects the capacity, its timestamps increase strictly, and none is
    above the session's watermark. *)
Definition wf (p : processor) : Prop :=
  ∀ sid q, buffers p !! sid = Some q →
    Z.of_nat (length q) ≤ buffer_size
    ∧ StronglySorted Z.lt (timestamp <$> q)
    ∧ Forall (λ y, timestamp y ≤ last_ts p sid) q.

(** A sample that has left the queue of [sid] for good: it is not pending
    and the watermark has passed it. *)
Definition gone (e : Sample) (sid : string) (p : processor) : Prop :=
  timestamp e ≤ last_ts p sid ∧ e ∉ pending p sid.

End Buffer.

(** *** The validator *)

(** The values a record holds: any JSON value.  A [float] is taken by its
    exact value, which is all that a comparison looks at: a rational for a
    finite float ([PyFloat]), an infinity ([PyInf]) or NaN ([PyNaN]);
    [json.loads] reads the tokens [Infinity], [-Infinity] and [NaN]. *)
#[warnings="-register-all"]
Inductive pyval : Type :=
  | PyNone
  | PyBool (b : bool)
  | PyInt (z : Z)
  | PyFloat (q : Q)
  | PyInf (negative : bool)
  | PyNaN
  | PyStr (s : string)
  | PyList (l : list pyval).

(** A number as Python compares it: by its exact value, an [int] with a
    [float] too. *)
Inductive num : Type :=
  | Finite (q : Q)
  | Infinite (negative : bool)
  | NotANumber.

(** The value of an instance of [(int, float)]; [bool] is a subclass of
    [int].  [None] for the values that fail [isinstance(v, (int, float))]. *)
Definition py_num (v : pyval) : option num :=
  match v with
  | PyBool b => Some (Finite (if b then 1%Q else 0%Q))
  | PyInt z => Some (Finite (inject_Z z))
  | PyFloat q => Some (Finite q)
  | PyInf negative => Some (Infinite negative)
  | PyNaN => Some NotANumber
  | PyNone | PyStr _ | PyList _ => None
  end.

(** [x < y] on rationals. *)
Definition Qltb (x y : Q) : bool := negb (Qle_bool y x).

(** [x < y] on numbers: false as soon as one of them is NaN. *)
Definition num_lt (x y : num) : bool :=
  match x, y with
  | NotANumber, _ | _, NotANumber => false
  | Finite a, Finite b => Qltb a b
  | Finite _, Infinite negative => negb negative
  | Infinite negative, Finite _ => negative
  | Infinite a, Infinite b => a && negb b
  end.

(** [not isinstance(v, (int, float)) or v < lo or v > hi]. *)
Definition out_of_range (lo hi : Q) (v : pyval) : bool :=
  match py_num v with
  | None => true
  | Some x => num_lt x (Finite lo) || num_lt (Finite hi) x
  end.

(** [v is not None]. *)
Definition is_not_none (v : pyval) : bool :=
  match v with PyNone => false | _ => true end.

(** [data.get(key)]: the value, [None] for a missing key; the dict is handed
    back as it was. *)
Definition dict_get (key : string) (data : gmap string pyval)
  : pyval * gmap string pyval :=
  (default PyNone (data !! key), data).

(** The error strings of [validate_data], by their kind and the offending
    value. *)
Inductive verror : Type :=
  | EmptyData
  | InvalidHeartRate (v : pyval)
  | InvalidBattery (v : pyval)
  | InvalidSpeed (v : pyval)
  | InvalidCadence (v : pyval).

(** [DataProcessor.validate_data]: the error, or [None] when valid, and the
    record after the call. *)
Definition validate_data (data : gmap string pyval)
  : option verror * gmap string pyval :=
  if decide (data = ∅) then (Some EmptyData, data)
  else
    let '(hr, data) := dict_get "hr_bpm" data in
    if is_not_none hr && out_of_range 30 250 hr then (Some (InvalidHeartRate hr), data)
    else
      let '(battery, data) := dict_get "battery_pct" data in
      if is_not_none battery && out_of_range 0 100 battery
      then (Some (InvalidBattery battery), data)
      else
        let '(speed, data) := dict_get "speed_mps" data in
        if is_not_none speed && out_of_range 0 20 speed
        then (Some (InvalidSpeed speed), data)
        else
          let '(cadence, data) := dict_get "cadence_spm" data in
          if is_not_none cadence && out_of_range 0 300 cadence
          then (Some (InvalidCadence cadence), data)
          else (None, data).

(** A number within the inclusive range from [lo] to [hi]. *)
Definition in_range (lo hi : Q) (v : pyval) : Prop :=
  match v with
  | PyBool b => (lo <= (if b then 1 else 0))%Q ∧ ((if b then 1 else 0) <= hi)%Q
  | PyInt z => (lo <= inject_Z z)%Q ∧ (inject_Z z <= hi)%Q
  | PyFloat q => (lo <= q)%Q ∧ (q <= hi)%Q
  | PyNone | PyInf _ | PyNaN | PyStr _ | PyList _ => False
  end.

(** The specification's rule for one optional field: an absent field (no
    key, or the value [None]) is always valid; a present one must be a number
    within the inclusive range. *)
Definition field_ok (lo hi : Q) (field : option pyval) : Prop :=
  match field with
  | None | Some PyNone => True
  | Some v => in_range lo hi v
  end.

(** The rule that the code applies: as [field_ok], but NaN passes, since
    [nan < lo] and [nan > hi] are both false. *)
Definition field_passes (lo hi : Q) (field : option pyval) : Prop :=
  match field with
  | None | Some PyNone | Some PyNaN => True
  | Some v => in_range lo hi v
  end.

(** *** Heart-rate variability *)

(** [len(l)] as a [float] operand. *)
Definition float_of_nat (n : nat) : float :=
  PrimFloat.of_uint63 (Uint63.of_Z (Z.of_nat n)).

(** [sum(l)] on floats: the items are added from left to right, starting
    from 0. *)
Definition py_sum (l : list float) : float := foldl PrimFloat.add 0%float l.

(** The body of the loop of [_calculate_rmssd]:
    [diff = (rr[i] - rr[i-1]) * 1000; diffs.append(diff * diff)]. *)
Definition rmssd_step (rr : list float) (diffs : list float) (i : nat) : list float :=
  let diff := ((nth i rr 0 - nth (i - 1) rr 0) * 1000)%float in
  diffs ++ [(diff * diff)%float].

(** [DataProcessor._calculate_rmssd]. *)
Definition calculate_rmssd (rr_intervals : list float) : float :=
  if (length rr_intervals <? 2)%nat then 0%float
  else
    let diffs := foldl (rmssd_step rr_intervals) [] (seq 1 (length rr_intervals - 1)) in
    match diffs with
    | [] => 0%float
    | _ =>
        let mean_squared := (py_sum diffs / float_of_nat (length diffs))%float in
        PrimFloat.sqrt mean_squared
    end.

(** The keys that the RR block of [process_ble_data] may add to
    [processed]; [None] is a key that is not set. *)
Record rr_fields : Type := RRFields {
  rr_intervals : option (list float);
  hrv_rmssd : option float
}.

(** The RR block of [DataProcessor.process_ble_data]:
    [rr_intervals = data.get('rr_s', [])] and the two assignments under
    [if rr_intervals:].  The argument is [data.get('rr_s')]. *)
Definition process_rr (rr_s : option (list float)) : rr_fields :=
  let rr := default [] rr_s in
  match rr with
  | [] => RRFields None None
  | _ =>
      RRFields (Some rr)
        (if (1 <? length rr)%nat then Some (calculate_rmssd rr) else None)
  end.

(** The root mean square of successive differences as the code computes it,
    written without the loop: the differences are taken in seconds, scaled
    to milliseconds, squared, averaged, and the root is taken. *)
Definition rmssd_ms (rr : list float) : float :=
  let sq := zip_with (λ a b, let d := ((b - a) * 1000)%float in (d * d)%float) rr (tail rr) in
  PrimFloat.sqrt (py_sum sq / float_of_nat (length rr - 1))%float.

(** The specification's wording: each interval is converted to milliseconds
    first, then the successive differences are taken. *)
Definition rmssd_spec (rr : list float) : float :=
  let ms := (λ x, (x * 1000)%float) <$> rr in
  let sq := zip_with (λ a b, let d := (b - a)%float in (d * d)%float) ms (tail ms) in
  PrimFloat.sqrt (py_sum sq / float_of_nat (length rr - 1))%float.

End DataProcessor.

(** ** [HRMDatabase]: the tables and the aggregation *)

Module Database.

(** A row of [sessions].  [s_updated_at] is [None] as long as the column
    holds the default SQLite gave it at the insert. *)
Record session_row : Type := SessionRow {
  s_session_id : string;
  s_start_time : Z;
  s_end_time : option Z;
  s_device_id : string;
  s_device_name : option string;
  s_updated_at : option Z
}.

(** A row of [raw_metrics], by the columns that the queries below read. *)
Record raw_metric : Type := RawMetric {
  m_session_id : string;
  m_timestamp : Z;
  m_hr_bpm : option Z;
  m_speed_mps : option Q;
  m_cadence_spm : option Z;
  m_total_distance_m : option Q
}.

(** A row of [aggregated_metrics], by the columns that [compute_aggregates]
    writes.  The columns that SQLite fills in by itself ([id], [created_at])
    and [hrv_rmssd], which the insert leaves NULL, are not modelled. *)
Record agg_row : Type := AggRow {
  a_session_id : string;
  a_interval_start : Z;
  a_interval_seconds : Z;
  a_avg_hr : option Q;
  a_min_hr : option Z;
  a_max_hr : option Z;
  a_avg_speed : option Q;
  a_max_speed : option Q;
  a_avg_cadence : option Q;
  a_total_distance : option Q;
  a_sample_count : Z
}.

(** The tables, each in rowid order. *)
Record database : Type := DB {
  sessions : list session_row;
  raw_metrics : list raw_metric;
  aggregated_metrics : list agg_row
}.

Definition set_sessions (t : list session_row) (db : database) : database :=
  DB t (raw_metrics db) (aggregated_metrics db).

Definition set_aggregated_metrics (t : list agg_row) (db : database) : database :=
  DB (sessions db) (raw_metrics db) t.

(** *** SQL aggregate functions; NULLs are skipped, and the result is NULL
    when nothing is left. *)

Definition non_null {A} (l : list (option A)) : list A := omap id l.

Definition sql_min (l : list (option Z)) : option Z :=
  match non_null l with [] => None | x :: l' => Some (foldl Z.min x l') end.

Definition sql_max (l : list (option Z)) : option Z :=
  match non_null l with [] => None | x :: l' => Some (foldl Z.max x l') end.

Definition Qmax (x y : Q) : Q := if Qle_bool x y then y else x.

Definition sql_max_real (l : list (option Q)) : option Q :=
  match non_null l with [] => None | x :: l' => Some (foldl Qmax x l') end.

(** [AVG(col)]: NULL for no value; otherwise the exact mean, where SQLite
    returns its binary64 approximation. *)
Definition sql_avg (l : list (option Z)) : option Q :=
  match non_null l with
  | [] => None
  | xs => Some (Qdiv (inject_Z (foldl Z.add 0 xs)) (inject_Z (Z.of_nat (length xs))))
  end.

Definition sql_avg_real (l : list (option Q)) : option Q :=
  match non_null l with
  | [] => None
  | xs => Some (Qdiv (foldl Qplus 0%Q xs) (inject_Z (Z.of_nat (length xs))))
  end.

(** *** [compute_aggregates] *)

(** [SELECT MIN(timestamp) as start, MAX(timestamp) as end FROM raw_metrics
    WHERE session_id = ?]. *)
Definition time_range (db : database) (session_id : string) : option Z * option Z :=
  let ts := (λ m, Some (m_timestamp m)) <$>
            filter (λ m, m_session_id m = session_id) (raw_metrics db) in
  (sql_min ts, sql_max ts).

(** The rows selected for one interval:
    [WHERE session_id = ? AND timestamp >= ? AND timestamp < ? AND hr_bpm IS
    NOT NULL]. *)
Definition bucket_samples (db : database) (session_id : string)
    (current interval_end : Z) : list raw_metric :=
  filter (λ m, m_session_id m = session_id
               ∧ current ≤ m_timestamp m
               ∧ m_timestamp m < interval_end
               ∧ m_hr_bpm m ≠ None) (raw_metrics db).

(** The aggregate row of one interval, from the selected rows. *)
Definition aggregate_row (session_id : string) (current interval_seconds : Z)
    (sel : list raw_metric) : agg_row :=
  {| a_session_id := session_id;
     a_interval_start := current;
     a_interval_seconds := interval_seconds;
     a_avg_hr := sql_avg (m_hr_bpm <$> sel);
     a_min_hr := sql_min (m_hr_bpm <$> sel);
     a_max_hr := sql_max (m_hr_bpm <$> sel);
     a_avg_speed := sql_avg_real (m_speed_mps <$> sel);
     a_max_speed := sql_max_real (m_speed_mps <$> sel);
     a_avg_cadence := sql_avg (m_cadence_spm <$> sel);
     a_total_distance := sql_max_real (m_total_distance_m <$> sel);
     a_sample_count := Z.of_nat (length sel) |}.

(** The columns of [UNIQUE(session_id, interval_start, interval_seconds)]. *)
Definition agg_key (r : agg_row) : string * Z * Z :=
  (a_session_id r, a_interval_start r, a_interval_seconds r).

(** [INSERT OR REPLACE INTO aggregated_metrics]: the row that holds the key
    is deleted and the new row gets the next rowid. *)
Definition insert_or_replace (t : list agg_row) (r : agg_row) : list agg_row :=
  filter (λ r', agg_key r' ≠ agg_key r) t ++ [r].

(** The body of the [while] loop, on the pair of [count] and the database. *)
Definition process_bucket (session_id : string) (interval_seconds : Z)
    (acc : Z * database) (current : Z) : Z * database :=
  let interval_end := current + interval_seconds in
  let sel := bucket_samples (acc.2) session_id current interval_end in
  if 0 <? Z.of_nat (length sel)
  then (acc.1 + 1,
        set_aggregated_metrics
          (insert_or_replace (aggregated_metrics (acc.2))
             (aggregate_row session_id current interval_seconds sel)) (acc.2))
  else acc.

(** The row that the loop body writes for the bucket starting at
    [current], if any. *)
Definition row_of (db : database) (sid : string) (w current : Z) : option agg_row :=
  let sel := bucket_samples db sid current (current + w) in
  if 0 <? Z.of_nat (length sel) then Some (aggregate_row sid current w sel) else None.

(** [while current < end_time: ...; current = interval_end], with fuel:
    [None] when the loop has not ended after [fuel] tests of its condition. *)
Fixpoint aggregate_loop (fuel : nat) (session_id : string) (interval_seconds : Z)
    (end_time current : Z) (acc : Z * database) : option (Z * database) :=
  match fuel with
  | O => None
  | S fuel' =>
      if current <? end_time
      then aggregate_loop fuel' session_id interval_seconds end_time
             (current + interval_seconds)
             (process_bucket session_id interval_seconds acc current)
      else Some acc
  end.

(** [HRMDatabase.compute_aggregates]: the count returned and the database
    after the call.  [not row['start']] holds for NULL (no rows) and for 0. *)
Definition compute_aggregates (fuel : nat) (db : database) (session_id : string)
    (interval_seconds : Z) : option (Z * database) :=
  match time_range db session_id with
  | (Some start_time, Some end_time) =>
      if start_time =? 0 then Some (0, db)
      else aggregate_loop fuel session_id interval_seconds end_time start_time (0, db)
  | _ => Some (0, db)
  end.

(** The values that [current] takes in the loop, in order, on integer
    timestamps, where [current + interval_seconds] is exact;
    [float_buckets] below has the loop on binary64 values. *)
Fixpoint bucket_starts (fuel : nat) (interval_seconds end_time current : Z)
  : option (list Z) :=
  match fuel with
  | O => None
  | S fuel' =>
      if current <? end_time
      then cons current <$>
           bucket_starts fuel' interval_seconds end_time (current + interval_seconds)
      else Some []
  end.

(** The buckets that a call of [compute_aggregates] goes through. *)
Definition call_buckets (fuel : nat) (db : database) (session_id : string)
    (interval_seconds : Z) : option (list Z) :=
  match time_range db session_id with
  | (Some start_time, Some end_time) =>
      if start_time =? 0 then Some []
      else bucket_starts fuel interval_seconds end_time start_time
  | _ => Some []
  end.

(** The value of [current] after [k] rounds of the loop: [interval_seconds]
    added [k] times to [start_time]. *)
Definition boundary (interval_seconds start_time : Z) (k : nat) : Z :=
  Nat.iter k (λ current, current + interval_seconds) start_time.

(** The pairs of [current] and [interval_end] that the loop goes through
    when the timestamps are binary64 values, as REAL columns hold them:
    [current + interval_seconds] is then a float addition, which rounds. *)
Fixpoint float_buckets (fuel : nat) (interval_seconds end_time current : float)
  : option (list (float * float)) :=
  match fuel with
  | O => None
  | S fuel' =>
      if (current <? end_time)%float
      then
        let interval_end := (current + interval_seconds)%float in
        cons (current, interval_end) <$>
        float_buckets fuel' interval_seconds end_time interval_end
      else Some []
  end.

(** [timestamp >= ? AND timestamp < ?] for the bounds of a bucket. *)
Definition float_in_bucket (timestamp : float) (bucket : float * float) : bool :=
  (bucket.1 <=? timestamp)%float && (timestamp <? bucket.2)%float.

(** The table obeys its UNIQUE constraint. *)
Definition unique_keys (t : list agg_row) : Prop := NoDup (agg_key <$> t).

(** A small database for the examples: one session with samples at
    t = 100, 130 and 160 and heart rates 70, 72 and 71. *)
Definition example_db : database :=
  DB []
     [RawMetric "s1" 100 (Some 70) None None None;
      RawMetric "s1" 130 (Some 72) None None None;
      RawMetric "s1" 160 (Some 71) None None None]
     [].

End Database.

(** ** [SessionManager] *)

Module SessionManager.
Import Database.

(** *** Python dicts that are iterated: association lists in insertion
    order, with at most one entry per key. *)

Section PyDict.
Context {K V : Type} `{EqDecision K}.

(** [d.get(k)]; [k in d] is [is_Some]. *)
Fixpoint odict_lookup (k : K) (d : list (K * V)) : option V :=
  match d with
  | [] => None
  | (k', v) :: d' => if decide (k' = k) then Some v else odict_lookup k d'
  end.

(** [d[k] = v]: an existing key keeps its place, a new one goes last. *)
Fixpoint odict_set (k : K) (v : V) (d : list (K * V)) : list (K * V) :=
  match d with
  | [] => [(k, v)]
  | (k', v') :: d' =>
      if decide (k' = k) then (k, v) :: d' else (k', v') :: odict_set k v d'
  end.

(** [del d[k]]; [None] stands for the [KeyError] of a missing key. *)
Fixpoint odict_del (k : K) (d : list (K * V)) : option (list (K * V)) :=
  match d with
  | [] => None
  | (k', v') :: d' =>
      if decide (k' = k) then Some d' else cons (k', v') <$> odict_del k d'
  end.

End PyDict.

(** The database, the two dicts of the manager, and how many times the
    clock and the uuid generator have been read. *)
Record state : Type := State {
  db : database;
  active_sessions : list (string * string);  (* device_id -> session_id *)
  last_activity : list (string * Z);         (* device_id -> timestamp *)
  ticks : nat;
  uuids : nat
}.

Definition set_db (x : database) (s : state) : state :=
  State x (active_sessions s) (last_activity s) (ticks s) (uuids s).
Definition set_active_sessions (x : list (string * string)) (s : state) : state :=
  State (db s) x (last_activity s) (ticks s) (uuids s).
Definition set_last_activity (x : list (string * Z)) (s : state) : state :=
  State (db s) (active_sessions s) x (ticks s) (uuids s).
Definition set_ticks (x : nat) (s : state) : state :=
  State (db s) (active_sessions s) (last_activity s) x (uuids s).
Definition set_uuids (x : nat) (s : state) : state :=
  State (db s) (active_sessions s) (last_activity s) (ticks s) x.

(** Stateful calls that may raise. *)
Definition M (A : Type) : Type := state → outcome A * state.

Definition ret {A} (a : A) : M A := λ s, (Returned a, s).
Definition raise {A} (e : exn) : M A := λ s, (Raised e, s).
Definition bind {A B} (m : M A) (k : A → M B) : M B :=
  λ s, match m s with
       | (Returned a, s') => k a s'
       | (Raised e, s') => (Raised e, s')
       end.
Definition get {A} (f : state → A) : M A := λ s, (Returned (f s), s).
Definition modify (f : state → state) : M unit := λ s, (Returned tt, f s).

Notation "'let!' x ':=' m 'in' k" := (bind m (λ x, k))
  (at level 10, x name, m at level 100, k at level 200).
Notation "m '>>' k" := (bind m (λ _, k))
  (at level 100, k at level 200, right associativity).

(** The end time stored for a session id, when the table has a row for it. *)
Definition end_time_of (session_id : string) (d : database) : option (option Z) :=
  s_end_time <$> List.find (λ r, bool_decide (s_session_id r = session_id)) (sessions d).

Section Manager.
(** [clock n] is what the [n]-th call of [time.time()] returns, and
    [uuid_hex8 n] is [uuid.uuid4().hex[:8]] at the [n]-th call. *)
Variable clock : nat → Z.
Variable uuid_hex8 : nat → string.
(** [self.gap_seconds]. *)
Variable gap_seconds : Z.

(** [time.time()]. *)
Definition time_time : M Z :=
  λ s, (Returned (clock (ticks s)), set_ticks (S (ticks s)) s).

(** [uuid.uuid4().hex[:8]]. *)
Definition uuid4_hex8 : M string :=
  λ s, (Returned (uuid_hex8 (uuids s)), set_uuids (S (uuids s)) s).

(** *** The methods of [HRMDatabase] that read the clock *)

(** [HRMDatabase.create_session]; the insert fails when the session id is
    already a primary key. *)
Definition create_session (device_id : string) (device_name : option string) : M string :=
  let! u := uuid4_hex8 in
  let! t := time_time in
  let session_id := "session_" +:+ u +:+ "_" +:+ pretty t in
  let! start_time := time_time in
  let! d := get db in
  if decide (session_id ∈ s_session_id <$> sessions d)
  then raise IntegrityError
  else
    modify (set_db (set_sessions
      (sessions d ++ [SessionRow session_id start_time None device_id device_name None]) d)) >>
    ret session_id.

(** [UPDATE sessions SET end_time = ?, updated_at = ? WHERE session_id = ?]. *)
Definition update_end_time_row (session_id : string) (end_time updated_at : Z)
    (r : session_row) : session_row :=
  if decide (s_session_id r = session_id)
  then SessionRow (s_session_id r) (s_start_time r) (Some end_time)
         (s_device_id r) (s_device_name r) (Some updated_at)
  else r.

(** [HRMDatabase.update_session_end_time]: without [end_time] the clock is
    read. *)
Definition update_session_end_time (session_id : string) (end_time : option Z) : M unit :=
  let! end_time := match end_time with None => time_time | Some t => ret t end in
  let! updated_at := time_time in
  let! d := get db in
  modify (set_db (set_sessions
    (update_end_time_row session_id end_time updated_at <$> sessions d) d)).

(** [ORDER BY s.start_time DESC LIMIT 1]; among equal start times the row
    met first is kept. *)
Definition latest (rows : list session_row) : option session_row :=
  foldl (λ best r,
           match best with
           | None => Some r
           | Some b => if s_start_time b <? s_start_time r then Some r else Some b
           end) None rows.

(** [HRMDatabase.get_active_session]. *)
Definition get_active_session (device_id : string) (gap : Z) : M (option string) :=
  let! now := time_time in
  let cutoff_time := now - gap in
  let! d := get db in
  let candidates :=
    filter (λ r, s_device_id r = device_id
                 ∧ s_end_time r = None
                 ∧ Exists (λ m, m_session_id m = s_session_id r
                                ∧ cutoff_time < m_timestamp m) (raw_metrics d))
           (sessions d) in
  ret (s_session_id <$> latest candidates).

(** *** The methods of [SessionManager] *)

(** [SessionManager._close_session].  The statistics it prints are read
    from the database without changing it. *)
Definition close_session (device_id : string) : M unit :=
  let! active := get active_sessions in
  match odict_lookup device_id active with
  | None => ret tt
  | Some session_id =>
      update_session_end_time session_id None >>
      let! active := get active_sessions in
      match odict_del device_id active with
      | None => raise KeyError
      | Some active' =>
          modify (set_active_sessions active') >>
          let! last := get last_activity in
          match odict_del device_id last with
          | None => raise KeyError
          | Some last' => modify (set_last_activity last')
          end
      end
  end.

(** The first block of [get_or_create_session], under
    [if device_id in self.active_sessions:].  [Some session_id] is the
    [return] of its [else] branch; [None] falls through. *)
Definition in_memory_session (device_id : string) (current_time : Z)
  : M (option string) :=
  let! active := get active_sessions in
  match odict_lookup device_id active with
  | Some session_id =>
      let! last := get last_activity in
      let last_time := default 0 (odict_lookup device_id last) in
      if gap_seconds <? current_time - last_time
      then close_session device_id >> ret None
      else modify (set_last_activity (odict_set device_id current_time last)) >>
           ret (Some session_id)
  | None => ret None
  end.

(** [self.active_sessions[device_id] = session_id;
    self.last_activity[device_id] = current_time; return session_id]. *)
Definition register_session (device_id : string) (current_time : Z)
    (session_id : string) : M string :=
  let! active := get active_sessions in
  modify (set_active_sessions (odict_set device_id session_id active)) >>
  let! last := get last_activity in
  modify (set_last_activity (odict_set device_id current_time last)) >>
  ret session_id.

(** The rest of [get_or_create_session]: a recent session of the database is
    adopted, or a new one is created.  [if session_id:] fails for [None]
    and for the empty string. *)
Definition stored_or_new_session (device_id : string) (device_name : option string)
    (current_time : Z) : M string :=
  let! found := get_active_session device_id gap_seconds in
  match found with
  | Some session_id =>
      if decide (session_id = "")
      then let! session_id := create_session device_id device_name in
           register_session device_id current_time session_id
      else register_session device_id current_time session_id
  | None =>
      let! session_id := create_session device_id device_name in
      register_session device_id current_time session_id
  end.

(** [SessionManager.get_or_create_session]. *)
Definition get_or_create_session (device_id : string) (device_name : option string)
  : M string :=
  let! current_time := time_time in
  let! early := in_memory_session device_id current_time in
  match early with
  | Some session_id => ret session_id
  | None => stored_or_new_session device_id device_name current_time
  end.

(** [SessionManager.update_activity]. *)
Definition update_activity (device_id : string) : M unit :=
  let! now := time_time in
  let! last := get last_activity in
  modify (set_last_activity (odict_set device_id now last)).

(** The loop of [check_inactive_sessions] over the snapshot
    [list(self.last_activity.items())]. *)
Fixpoint sweep (current_time : Z) (items : list (string * Z)) : M unit :=
  match items with
  | [] => ret tt
  | (device_id, last_time) :: items' =>
      (if gap_seconds <? current_time - last_time
       then close_session device_id else ret tt) >>
      sweep current_time items'
  end.

(** [SessionManager.check_inactive_sessions]. *)
Definition check_inactive_sessions : M unit :=
  let! current_time := time_time in
  let! last := get last_activity in
  sweep current_time last.

(** [SessionManager.close_all_sessions]. *)
Definition close_all_sessions : M unit :=
  let! active := get active_sessions in
  (fix go (keys : list string) : M unit :=
     match keys with
     | [] => ret tt
     | device_id :: keys' => close_session device_id >> go keys'
     end) (active.*1).

(** The database that [update_session_end_time(session_id)] leaves when it
    starts in [s]: both clock readings are fresh. *)
Definition closed_db (sid : string) (s : state) : database :=
  set_sessions
    (update_end_time_row sid (clock (ticks s)) (clock (S (ticks s))) <$> sessions (db s))
    (db s).

(** What the sweep maintains once the session has been closed: its end time
    is a clock reading made after the sweep began. *)
Definition closed_after (t0 : nat) (sid : string) (s : state) : Prop :=
  ∃ k, (t0 < k < ticks s)%nat ∧ end_time_of sid (db s) = Some (Some (clock k)).

(** The keys still to be visited are distinct and are keys of
    [last_activity]. *)
Definition pending_keys (items : list (string * Z)) (s : state) : Prop :=
  NoDup (items.*1) ∧ ∀ k, k ∈ items.*1 → is_Some (odict_lookup k (last_activity s)).

End Manager.

(** An example: device "D1" has the open session "session_ab_0", last active
    at t = 0. *)
Definition example_state : state :=
  State (DB [SessionRow "session_ab_0" 0 None "D1" None None] [] [])
        [("D1", "session_ab_0")] [("D1", 0)] 0 0.

End SessionManager.

(** ** [HRMDataLogger.connect_and_consume]: the reconnection loop *)

Module DataLogger.

(** How one pass through the [try] block ends. *)
Inductive attempt : Type :=
  | ConnectFailed  (* an exception other than InvalidURI before [retry_count = 0] *)
  | InvalidURI     (* [websockets.InvalidURI] *)
  | Dropped        (* connected; [_consume_data] raised, e.g. ConnectionClosedError *)
  | Ended.         (* connected; [_consume_data] returned *)

(** What the environment decides in one round of the loop: [self.running]
    at the [while] test, the fate of the attempt, and [self.running] at
    [if not self.running] after it. *)
Record round : Type := Round {
  running_before : bool;
  result : attempt;
  running_after : bool
}.

(** What the loop does that can be observed. *)
Inductive action : Type :=
  | Connect
  | Sleep (wait_time : Z).

Inductive exit_reason : Type :=
  | NotRunning
  | BadURI
  | MaxRetries.

(** The loop has ended, or it is alive and about to test [self.running]
    again with the given [retry_count]. *)
Inductive status : Type :=
  | Exited (why : exit_reason)
  | Alive (retry_count : Z).

Definition max_retries : Z := 10.

(** [HRMDataLogger.connect_and_consume], from the top of the [while] loop
    with the given [retry_count], against the rounds the environment
    supplies. *)
Fixpoint connect_loop (retry_count : Z) (rounds : list round) : list action * status :=
  match rounds with
  | [] => ([], Alive retry_count)
  | r :: rounds' =>
      if negb (running_before r) then ([], Exited NotRunning)
      else
        match result r with
        | InvalidURI => ([Connect], Exited BadURI)
        | res =>
            let retry_count :=
              match res with ConnectFailed => retry_count | _ => 0 end in
            if negb (running_after r) then ([Connect], Exited NotRunning)
            else
              let retry_count := retry_count + 1 in
              if max_retries <? retry_count then ([Connect], Exited MaxRetries)
              else
                let wait_time := Z.min (2 ^ retry_count) 30 in
                let rest := connect_loop retry_count rounds' in
                (Connect :: Sleep wait_time :: rest.1, rest.2)
        end
  end.

(** [connect_and_consume] starts with [retry_count = 0]. *)
Definition connect_and_consume (rounds : list round) : list action * status :=
  connect_loop 0 rounds.

(** A failed connection attempt while the service is running. *)
Definition failure : round := Round true ConnectFailed true.

(** The attempts and waits of [n] failures in a row that follow [count]
    earlier ones. *)
Definition backoff (count : Z) (n : nat) : list action :=
  flat_map (λ i, [Connect; Sleep (Z.min (2 ^ i) 30)]) (seqZ (count + 1) (Z.of_nat n)).

(** The number of connection attempts among the actions. *)
Definition attempts (acts : list action) : nat :=
  length (List.filter (λ a, match a with Connect => true | Sleep _ => false end) acts).

End DataLogger.

(** ** [DataProcessor.process_ble_data] and the tuple of the INSERT *)

Module Decoder.
Import DataProcessor.

(** *** The decoder *)

(** Python's truth value of a JSON value. *)
Definition py_truthy (v : pyval) : bool :=
  match v with
  | PyNone => false
  | PyBool b => b
  | PyInt z => negb (z =? 0)
  | PyFloat q => negb (Qeq_bool q 0)
  | PyInf _ | PyNaN => true
  | PyStr s => match s with EmptyString => false | String _ _ => true end
  | PyList l => match l with [] => false | _ :: _ => true end
  end.

(** [len(v)]; [None] stands for the [TypeError] of a value that has no
    length.  A [PyStr] holds one character per item. *)
Definition py_len (v : pyval) : option nat :=
  match v with
  | PyStr s => Some (String.length s)
  | PyList l => Some (length l)
  | PyNone | PyBool _ | PyInt _ | PyFloat _ | PyInf _ | PyNaN => None
  end.

(** [v > bound] for a number [bound]; [None] stands for the [TypeError] of
    a [v] that is no number. *)
Definition py_gt (v : pyval) (bound : Q) : option bool :=
  match py_num v with
  | Some x => Some (num_lt (Finite bound) x)
  | None => None
  end.

(** [status_map.get(s, 0)]. *)
Definition contact_code (s : string) : Z :=
  if decide (s = "N/A") then 0
  else if decide (s = "No Contact") then 1
  else if decide (s = "Good Contact") then 2
  else 0.

(** [if key in data: processed[target] = data[key]]. *)
Definition copy_field (key target : string) (data processed : gmap string pyval)
  : gmap string pyval :=
  match data !! key with
  | Some v => <[target := v]> processed
  | None => processed
  end.

Section Decode.
(** The two places where the decoder computes with floats are left open:
    [div_3_6 v] is the value of [v / 3.6] and [rmssd v] that of
    [self._calculate_rmssd(v)], [None] when the expression raises. *)
Variable div_3_6 : pyval → option pyval.
Variable rmssd : pyval → option pyval.

(** The RR block: [rr_intervals = data.get('rr_s', [])] and what follows. *)
Definition decode_rr (data processed : gmap string pyval) : option (gmap string pyval) :=
  let rr_intervals := default (PyList []) (data !! "rr_s") in
  if py_truthy rr_intervals then
    let processed := <["rr_intervals" := rr_intervals]> processed in
    match py_len rr_intervals with
    | None => None
    | Some n =>
        if (1 <? n)%nat then
          match rmssd rr_intervals with
          | None => None
          | Some h => Some (<["hrv_rmssd" := h]> processed)
          end
        else Some processed
    end
  else Some processed.

(** The speed block:
    [if 'speed_kph' in data: ... elif 'speed_mps' in data: ...]. *)
Definition decode_speed (data processed : gmap string pyval) : option (gmap string pyval) :=
  match data !! "speed_kph" with
  | Some kph =>
      match div_3_6 kph with
      | None => None
      | Some v => Some (<["speed_mps" := v]> processed)
      end
  | None => Some (copy_field "speed_mps" "speed_mps" data processed)
  end.

(** The distance block. *)
Definition decode_distance (data processed : gmap string pyval) : gmap string pyval :=
  match data !! "total_distance_m" with
  | Some v => <["total_distance_m" := v]> processed
  | None => copy_field "distance_m" "total_distance_m" data processed
  end.

(** The contact block. *)
Definition decode_contact (data processed : gmap string pyval) : gmap string pyval :=
  match data !! "contact_status" with
  | Some (PyStr s) => <["contact_status" := PyInt (contact_code s)]> processed
  | Some v => <["contact_status" := v]> processed
  | None => processed
  end.

(** [1 if speed > 2.0 or cadence > 120 else 0], with the operands read by
    [processed.get(..., 0)]; [or] looks at the cadence only when the first
    test fails. *)
Definition is_running (processed : gmap string pyval) : option Z :=
  let speed := default (PyInt 0) (processed !! "speed_mps") in
  let cadence := default (PyInt 0) (processed !! "cadence_spm") in
  match py_gt speed 2 with
  | None => None
  | Some true => Some 1
  | Some false =>
      match py_gt cadence 120 with
      | None => None
      | Some b => Some (if b then 1 else 0)
      end
  end.

(** [DataProcessor.process_ble_data]; [now] is the value of [time.time()],
    and [None] stands for an exception. *)
Definition process_ble_data (now : pyval) (data : gmap string pyval)
  : option (gmap string pyval) :=
  let processed : gmap string pyval :=
    <["raw_payload" := default PyNone (data !! "raw_payload")]>
      (<["battery_pct" := default PyNone (data !! "battery_pct")]>
         (<["hr_bpm" := default PyNone (data !! "hr_bpm")]>
            (<["timestamp" := default now (data !! "ts_unix_s")]> ∅))) in
  match decode_rr data processed with
  | None => None
  | Some processed =>
      match decode_speed data processed with
      | None => None
      | Some processed =>
          let processed := copy_field "cadence_spm" "cadence_spm" data processed in
          let processed := copy_field "stride_length_cm" "stride_length_cm" data processed in
          let processed := decode_distance data processed in
          let processed := decode_contact data processed in
          match is_running processed with
          | None => None
          | Some r => Some (<["is_running" := PyInt r]> processed)
          end
      end
  end.

End Decode.

(** *** The parameters of the INSERT *)

(** The tuple that [insert_raw_metric] and [batch_insert_raw_metrics] bind to
    the INSERT; [rr_json] is [None] for NULL. *)
Record insert_params : Type := InsertParams {
  i_session_id : string;
  i_timestamp : pyval;
  i_hr_bpm : pyval;
  i_rr_json : option string;
  i_speed_mps : pyval;
  i_cadence_spm : pyval;
  i_stride_length_cm : pyval;
  i_total_distance_m : pyval;
  i_battery_pct : pyval;
  i_contact_status : pyval;
  i_is_running : pyval;
  i_raw_payload : pyval
}.

Section Insert.
(** [json.dumps]. *)
Variable json_dumps : pyval → string.

(** The tuple that [insert_raw_metric] builds for its record, and
    [batch_insert_raw_metrics] for each record of its list; [now] is the
    value of [time.time()]. *)
Definition prepare (session_id : string) (now : pyval) (data : gmap string pyval)
  : insert_params :=
  {| i_session_id := session_id;
     i_timestamp := default now (data !! "timestamp");
     i_hr_bpm := default PyNone (data !! "hr_bpm");
     i_rr_json :=
       match data !! "rr_intervals" with
       | Some rr => if py_truthy rr then Some (json_dumps rr) else None
       | None => None
       end;
     i_speed_mps := default PyNone (data !! "speed_mps");
     i_cadence_spm := default PyNone (data !! "cadence_spm");
     i_stride_length_cm := default PyNone (data !! "stride_length_cm");
     i_total_distance_m := default PyNone (data !! "total_distance_m");
     i_battery_pct := default PyNone (data !! "battery_pct");
     i_contact_status := default PyNone (data !! "contact_status");
     i_is_running := default (PyInt 0) (data !! "is_running");
     i_raw_payload := default PyNone (data !! "raw_payload") |}.

End Insert.

(** The keys that a decoded record may hold. *)
Definition record_keys : list string :=
  ["timestamp"; "hr_bpm"; "battery_pct"; "raw_payload"; "rr_intervals"; "hrv_rmssd";
   "speed_mps"; "cadence_spm"; "stride_length_cm"; "total_distance_m"; "contact_status";
   "is_running"].

(** A record that holds no key outside [record_keys]. *)
Definition only_record_keys (p : gmap string pyval) : Prop :=
  ∀ k, is_Some (p !! k) → k ∈ record_keys.

(** [processed['contact_status']] for the value of the message. *)
Definition contact_value (v : pyval) : pyval :=
  match v with
  | PyStr s => PyInt (contact_code s)
  | _ => v
  end.

(** *** Examples *)

(** A message of the bridge, for the examples: it has both speeds, a
    distance under the older key and a contact status given as text. *)
Definition example_message : gmap string pyval :=
  <["hr_bpm" := PyInt 72]>
    (<["speed_kph" := PyInt 9]>
       (<["speed_mps" := PyInt 1]>
          (<["rr_s" := PyList [PyFloat (8 # 10); PyFloat (9 # 10)]]>
             (<["distance_m" := PyInt 5]>
                (<["contact_status" := PyStr "Good Contact"]> ∅))))).

(** A message whose speed is [null]. *)
Definition example_null_speed : gmap string pyval :=
  <["hr_bpm" := PyInt 72]> (<["speed_mps" := PyNone]> ∅).

(** Stand-ins for the two float computations, for the examples: the exact
    quotient, and a constant. *)
Definition example_div_3_6 (v : pyval) : option pyval :=
  match py_num v with
  | Some (Finite x) => Some (PyFloat (x / (36 # 10)))
  | Some _ => Some v
  | None => None
  end.

Definition example_rmssd (v : pyval) : option pyval := Some (PyFloat 100).

(** The record decoded from [example_message] at the clock reading 100. *)
Definition example_processed : gmap string pyval :=
  default ∅ (process_ble_data example_div_3_6 example_rmssd (PyInt 100) example_message).

End Decoder.

(** ** [HRMDataLogger]: from the decoded sample to the batches drained

    What [_consume_data] and [_flush_buffer] do to the buffers.  A batch
    taken out of a buffer is passed to [batch_insert_raw_metrics]; that call
    can raise (the queue is cleared before it), and when it raises in the
    flush of all buffers the batches after it are not passed on at all.
    What becomes of a batch once it is drained is not modelled here. *)

Module Ingest.
Import DataProcessor.

Section Buffering.
Context {Sample : Type}.
Variable timestamp : Sample → Z.
Variable buffer_size : Z.

(** The records of the batches drained for one session, in the order of
    draining. *)
Definition batches_of (session_id : string) (batches : list (string * list Sample))
  : list Sample :=
  concat (snd <$> filter (λ b, b.1 = session_id) batches).

(** The [else] branch of [_flush_buffer]: every non-empty buffer is
    drained, by [get_all_buffers], before the first insert. *)
Definition flush_all (p : processor) : list (string * list Sample) * processor :=
  let '(buffers, p') := get_all_buffers p in
  (filter (λ b, b.2 ≠ []) (map_to_list buffers), p').

(** [HRMDataLogger._flush_buffer], by what it does to the processor: the
    batches it drains, and the processor it leaves.  [if session_id:] fails
    for [None] and for the empty string. *)
Definition flush_buffer (session_id : option string) (p : processor)
  : list (string * list Sample) * processor :=
  match session_id with
  | Some sid =>
      if decide (sid = "") then flush_all p
      else
        let '(records, p') := get_buffer sid p in
        (match records with [] => [] | _ => [(sid, records)] end, p')
  | None => flush_all p
  end.

(** The buffering step of [_consume_data]:
    [buffer_full = self.processor.add_to_buffer(session_id, processed);
     if buffer_full: await self._flush_buffer(session_id)]. *)
Definition buffer_sample (session_id : string) (data : Sample) (p : processor)
  : list (string * list Sample) * processor :=
  match add_to_buffer timestamp buffer_size session_id data p with
  | (Returned true, p1) => flush_buffer (Some session_id) p1
  | (_, p1) => ([], p1)
  end.

(** What reaches the buffers while the logger runs: a validated sample of
    a session, from [_consume_data], or the flush of all buffers that
    [periodic_tasks] makes every 30 seconds and [cleanup] at the end.
    [_flush_buffer] does not await anything, so each of them runs to its
    end before the next one starts. *)
Inductive event : Type :=
  | Message (session_id : string) (data : Sample)
  | Periodic.

(** The batches drained for one event, and the processor after it. *)
Definition handle (e : event) (p : processor) : list (string * list Sample) * processor :=
  match e with
  | Message sid x => buffer_sample sid x p
  | Periodic => flush_buffer None p
  end.

(** The batches drained for a sequence of events, in the order of
    draining. *)
Fixpoint handle_all (es : list event) (p : processor)
  : list (string * list Sample) * processor :=
  match es with
  | [] => ([], p)
  | e :: es' =>
      let '(b1, p1) := handle e p in
      let '(b2, p2) := handle_all es' p1 in
      (b1 ++ b2, p2)
  end.

(** The samples of one session among the events, in arrival order. *)
Definition offered (session_id : string) (es : list event) : list Sample :=
  omap (λ e, match e with
             | Message sid x => if decide (sid = session_id) then Some x else None
             | Periodic => None
             end) es.

(** The samples that pass the timestamp test of [add_to_buffer] when the
    last accepted timestamp is [watermark]: a sample is skipped when
    [timestamp <= last_ts] holds for the last accepted timestamp, and
    becomes the last accepted one otherwise. *)
Fixpoint accepted (watermark : Z) (xs : list Sample) : list Sample :=
  match xs with
  | [] => []
  | x :: xs' =>
      if timestamp x <=? watermark then accepted watermark xs'
      else x :: accepted (timestamp x) xs'
  end.

(** The records written so far for a session, followed by its pending ones,
    carry positive, strictly increasing timestamps, none above the
    watermark. *)
Definition in_order (sid : string) (written : list Sample) (p : processor) : Prop :=
  StronglySorted Z.lt (timestamp <$> (written ++ pending p sid))
  ∧ Forall (λ y, 0 < timestamp y ≤ last_ts p sid) (written ++ pending p sid)
  ∧ 0 ≤ last_ts p sid.

End Buffering.
End Ingest.

(** ** The order of the floats *)

Module FloatOrder.

(** The place of a binary64 value in the order of the floats: an integer
    that grows with the value.  Both zeros are at 0 ([-0.0 == 0.0]); NaN has
    no place in the order and is given 0 only to make the function total. *)
Definition rank_sf (x : spec_float) : Z :=
  match x with
  | S754_zero _ => 0
  | S754_nan => 0
  | S754_infinity s => if s then - 2 ^ 70 else 2 ^ 70
  | S754_finite s m e =>
      let v := (e + 1075) * 2 ^ 53 + Z.pos m in
      if s then - v else v
  end.

Definition rank (f : float) : Z := rank_sf (Prim2SF f).

End FloatOrder.

(** ** [DataProcessor]: the buffers on binary64 timestamps *)

Module FloatBuffer.
Import FloatOrder.

Section Buffer.
(** The buffer with the timestamps as the logger has them: binary64 values,
    NaN and the infinities included ([json.loads] reads the tokens [NaN],
    [Infinity] and [-Infinity]).  The code is that of [DataProcessor]; only
    [timestamp <= last_ts] is now the comparison of floats, which is false
    whenever one side is NaN. *)
Context {Sample : Type}.
Variable timestamp : Sample → float.
Variable buffer_size : Z.

(** [self.buffers] and [self.last_timestamps]. *)
Record processor : Type := Processor {
  buffers : gmap string (list Sample);
  last_timestamps : gmap string float
}.

(** [DataProcessor.__init__]. *)
Definition init : processor := Processor ∅ ∅.

(** [self.last_timestamps.get(session_id, 0)]. *)
Definition last_ts (p : processor) (session_id : string) : float :=
  default 0%float (last_timestamps p !! session_id).

(** [self.buffers[session_id]] as a list. *)
Definition pending (p : processor) (session_id : string) : list Sample :=
  default [] (buffers p !! session_id).

(** [DataProcessor.add_to_buffer]. *)
Definition add_to_buffer (session_id : string) (data : Sample) (p : processor)
  : outcome bool * processor :=
  let ts := timestamp data in
  if (ts <=? last_ts p session_id)%float then (Returned false, p)
  else
    let p1 := Processor (buffers p) (<[session_id := ts]> (last_timestamps p)) in
    match buffers p1 !! session_id with
    | Some q =>
        let q' := DataProcessor.deque_append buffer_size q data in
        (Returned (buffer_size <=? Z.of_nat (length q')),
         Processor (<[session_id := q']> (buffers p1)) (last_timestamps p1))
    | None =>
        match DataProcessor.deque_new buffer_size with
        | Raised e => (Raised e, p1)
        | Returned q =>
            let q' := DataProcessor.deque_append buffer_size q data in
            (Returned (buffer_size <=? Z.of_nat (length q')),
             Processor (<[session_id := q']> (buffers p1)) (last_timestamps p1))
        end
    end.

(** [DataProcessor.get_buffer]. *)
Definition get_buffer (session_id : string) (p : processor)
  : list Sample * processor :=
  match buffers p !! session_id with
  | None => ([], p)
  | Some q => (q, Processor (<[session_id := []]> (buffers p)) (last_timestamps p))
  end.

(** One round of the loop of [get_all_buffers]. *)
Definition get_all_step (acc : gmap string (list Sample) * processor)
    (session_id : string) : gmap string (list Sample) * processor :=
  let '(records, p') := get_buffer session_id (acc.2) in
  (match records with [] => acc.1 | _ => <[session_id := records]> (acc.1) end, p').

(** [DataProcessor.get_all_buffers]. *)
Definition get_all_buffers (p : processor)
  : gmap string (list Sample) * processor :=
  foldl get_all_step (∅, p) ((map_to_list (buffers p)).*1).

(** One operation of the ingestion path or the maintenance loop, with the
    batches drained. *)
Definition step (o : DataProcessor.op) (p : processor)
  : list (string * list Sample) * processor :=
  match o with
  | DataProcessor.Offer sid x => ([], (add_to_buffer sid x p).2)
  | DataProcessor.Drain sid =>
      let '(records, p') := get_buffer sid p in ([(sid, records)], p')
  | DataProcessor.DrainAll =>
      let '(result, p') := get_all_buffers p in (map_to_list result, p')
  end.

Fixpoint run (os : list DataProcessor.op) (p : processor)
  : list (string * list Sample) * processor :=
  match os with
  | [] => ([], p)
  | o :: os' =>
      let '(b1, p1) := step o p in
      let '(b2, p2) := run os' p1 in
      (b1 ++ b2, p2)
  end.

(** An operation that offers no sample whose timestamp is NaN. *)
Definition no_nan (o : DataProcessor.op) : Prop :=
  match o with
  | DataProcessor.Offer _ x => is_nan (timestamp x) = false
  | _ => True
  end.

(** The same processor with each last accepted timestamp replaced by its
    place in the order of the floats. *)
Definition ranked (p : processor) : @DataProcessor.processor Sample :=
  DataProcessor.Processor (buffers p) (rank <$> last_timestamps p).

(** No last accepted timestamp is NaN. *)
Definition sound (p : processor) : Prop :=
  ∀ sid t, last_timestamps p !! sid = Some t → is_nan t = false.

(** Every queue respects the capacity; a queue exists only when the capacity
    is not negative. *)
Definition within_capacity (p : processor) : Prop :=
  ∀ sid q, buffers p !! sid = Some q →
    0 ≤ buffer_size ∧ Z.of_nat (length q) ≤ buffer_size.

End Buffer.
End FloatBuffer.

(** ** [HRMDatabase.get_session_stats] *)

Module Statistics.
Import Database.

(** The smaller of two reals. *)
Definition Qmin (x y : Q) : Q := if Qle_bool x y then x else y.

(** [MIN(col)] on a REAL column. *)
Definition sql_min_real (l : list (option Q)) : option Q :=
  match non_null l with [] => None | x :: l' => Some (foldl Qmin x l') end.

(** The dict that [get_session_stats] returns; [st_duration_seconds] is
    [None] when the key is not set. *)
Record session_stats : Type := SessionStats {
  st_sample_count : Z;
  st_start_time : option Z;
  st_end_time : option Z;
  st_min_hr : option Z;
  st_max_hr : option Z;
  st_avg_hr : option Q;
  st_min_speed : option Q;
  st_max_speed : option Q;
  st_avg_speed : option Q;
  st_avg_cadence : option Q;
  st_total_distance : option Q;
  st_duration_seconds : option Z
}.

(** Python's [if v:] on a numeric column: false for NULL and for 0. *)
Definition truthy (v : option Z) : bool :=
  match v with None => false | Some z => negb (z =? 0) end.

(** [HRMDatabase.get_session_stats]. *)
Definition get_session_stats (db : database) (session_id : string) : session_stats :=
  let sel := filter (λ m, m_session_id m = session_id ∧ m_hr_bpm m ≠ None) (raw_metrics db) in
  let start_time := sql_min ((λ m, Some (m_timestamp m)) <$> sel) in
  let end_time := sql_max ((λ m, Some (m_timestamp m)) <$> sel) in
  {| st_sample_count := Z.of_nat (length sel);
     st_start_time := start_time;
     st_end_time := end_time;
     st_min_hr := sql_min (m_hr_bpm <$> sel);
     st_max_hr := sql_max (m_hr_bpm <$> sel);
     st_avg_hr := sql_avg (m_hr_bpm <$> sel);
     st_min_speed := sql_min_real (m_speed_mps <$> sel);
     st_max_speed := sql_max_real (m_speed_mps <$> sel);
     st_avg_speed := sql_avg_real (m_speed_mps <$> sel);
     st_avg_cadence := sql_avg (m_cadence_spm <$> sel);
     st_total_distance := sql_max_real (m_total_distance_m <$> sel);
     st_duration_seconds :=
       if truthy start_time && truthy end_time
       then match start_time, end_time with
            | Some s, Some e => Some (e - s)
            | _, _ => None
            end
       else None |}.

End Statistics.

(** ** [SessionManager]: the calls of the logger *)

Module Lifecycle.
Import Database SessionManager.

(** The rows that [get_active_session] may return for a device. *)
Definition eligible (device_id : string) (cutoff_time : Z) (d : database)
    (r : session_row) : Prop :=
  s_device_id r = device_id
  ∧ s_end_time r = None
  ∧ Exists (λ m, m_session_id m = s_session_id r ∧ cutoff_time < m_timestamp m) (raw_metrics d).

Section Manager.
Variable clock : nat → Z.
Variable uuid_hex8 : nat → string.
Variable gap_seconds : Z.

(** The calls that the logger makes on its session manager. *)
Inductive call : Type :=
  | Resolve (device_id : string) (device_name : option string)
  | Touch (device_id : string)
  | Sweep
  | CloseAll.

(** The method behind each call: [get_or_create_session] (its result
    dropped), [update_activity], [check_inactive_sessions],
    [close_all_sessions]. *)
Definition do_call (c : call) : M unit :=
  match c with
  | Resolve device_id device_name =>
      get_or_create_session clock uuid_hex8 gap_seconds device_id device_name >> ret tt
  | Touch device_id => update_activity clock device_id
  | Sweep => check_inactive_sessions clock gap_seconds
  | CloseAll => close_all_sessions clock
  end.

(** The state after a sequence of calls; a call that raises leaves the
    state it had reached. *)
Fixpoint do_calls (cs : list call) (s : state) : state :=
  match cs with
  | [] => s
  | c :: cs' => do_calls cs' (do_call c s).2
  end.

(** Both dicts hold each key once, and every device with a session has an
    activity time. *)
Definition well_formed (s : state) : Prop :=
  NoDup ((active_sessions s).*1)
  ∧ NoDup ((last_activity s).*1)
  ∧ ∀ d, is_Some (odict_lookup d (active_sessions s)) →
         is_Some (odict_lookup d (last_activity s)).

(** A device whose activity time, at the clock reading [now], is more than
    [gap_seconds] old. *)
Definition stale (now : Z) (s : state) (device_id : string) : bool :=
  match odict_lookup device_id (last_activity s) with
  | Some last_time => gap_seconds <? now - last_time
  | None => false
  end.

(** A session whose stored end time is a clock reading made at or after the
    [lo]-th one. *)
Definition closed_since (lo : nat) (sid : string) (s : state) : Prop :=
  ∃ k, (lo ≤ k < ticks s)%nat ∧ end_time_of sid (db s) = Some (Some (clock k)).

End Manager.
End Lifecycle.

(** ** [HRMDataLogger._flush_buffer]: the key of its [update_activity] call *)

Module Flush.
Import Database SessionManager.

(** [s.split(sep)] for a separator of one character: the pieces between the
    occurrences of [sep], in order; a string without [sep] is its only
    piece. *)
Fixpoint py_split (sep : Ascii.ascii) (s : string) : list string :=
  match s with
  | EmptyString => [EmptyString]
  | String c s' =>
      if decide (c = sep) then EmptyString :: py_split sep s'
      else match py_split sep s' with
           | [] => [String c EmptyString]
           | w :: ws => String c w :: ws
           end
  end.

(** [session_id.split('_')[1]], which [_flush_buffer] takes for the device
    id; [None] stands for the [IndexError] of a session id without
    underscore. *)
Definition device_key (session_id : string) : option string :=
  py_split "_"%char session_id !! 1%nat.

Section Activity.
Variable clock : nat → Z.

(** The call [self.session_manager.update_activity(session_id.split('_')[1])]
    that [_flush_buffer(session_id)] makes after it has drained a non-empty
    queue and the insert has returned.  Only this call is modelled, not the
    drain and the insert before it.  [None] stands for the [IndexError],
    raised before the manager is touched. *)
Definition flush_activity (session_id : string) (s : state) : option (outcome unit * state) :=
  match device_key session_id with
  | Some key => Some (update_activity clock key s)
  | None => None
  end.

End Activity.

End Flush.

(** ** [HRMDataLogger.connect_and_consume]: giving up *)

Module Backoff.
Import DataLogger.

(** A round after which the loop goes on to its reconnection code: the
    service is running before and after the attempt, and the URL is
    accepted. *)
Definition lost (r : round) : Prop :=
  running_before r = true ∧ running_after r = true ∧ result r ≠ InvalidURI.

(** The actions alternate, from an attempt: every wait follows an attempt
    and is followed by one. *)
Fixpoint alternates (acts : list action) : Prop :=
  match acts with
  | [] => True
  | [Connect] => True
  | Connect :: Sleep _ :: acts' => alternates acts'
  | _ => False
  end.

End Backoff.

(** * Part II: properties *)

(** ** Laws of the buffer *)

Module BufferLaws.
Import DataProcessor.

Section Laws.
Context {Sample : Type}.
Variable timestamp : Sample → Z.
Variable buffer_size : Z.

Local Abbreviation add_to_buffer := (add_to_buffer timestamp buffer_size).
Local Abbreviation offers := (offers timestamp buffer_size).
Local Abbreviation step := (step timestamp buffer_size).
Local Abbreviation run := (run timestamp buffer_size).

Lemma keep_last_short n (l : list Sample) : (length l ≤ n)%nat → keep_last n l = l.
Proof.
  intros H. unfold keep_last. replace (length l - n)%nat with 0%nat by lia. done.
Qed.

Lemma keep_last_length n (l : list Sample) :
  length (keep_last n l) = (length l `min` n)%nat.
Proof. unfold keep_last. rewrite length_drop. lia. Qed.

Lemma keep_last_app n (l l' : list Sample) :
  keep_last n (keep_last n l ++ l') = keep_last n (l ++ l').
Proof.
  destruct (decide (length l ≤ n)%nat) as [Hle|Hgt].
  - by rewrite (keep_last_short n l).
  - unfold keep_last at 2. rewrite <- drop_app_le by lia.
    unfold keep_last. rewrite drop_drop, length_drop, !length_app.
    f_equal. lia.
Qed.

Lemma deque_append_keep_last (q : list Sample) x :
  0 ≤ buffer_size → Z.of_nat (length q) ≤ buffer_size →
  deque_append buffer_size q x = keep_last (Z.to_nat buffer_size) (q ++ [x]).
Proof.
  intros H0 Hq. unfold deque_append, keep_last. rewrite length_app. simpl.
  destruct (Z.ltb_spec buffer_size (Z.of_nat (length q + 1))) as [Hlt|Hge].
  - replace (length q + 1 - Z.to_nat buffer_size)%nat with 1%nat by lia.
    by destruct q.
  - replace (length q + 1 - Z.to_nat buffer_size)%nat with 0%nat by lia. done.
Qed.


Lemma add_to_buffer_reject sid x p :
  timestamp x ≤ last_ts p sid → add_to_buffer sid x p = (Returned false, p).
Proof.
  intros H. unfold DataProcessor.add_to_buffer.
  by destruct (Z.leb_spec (timestamp x) (last_ts p sid)); [|lia].
Qed.

(** An accepted offer, when the deque exists or can be created. *)
Lemma add_to_buffer_accept sid x p :
  0 ≤ buffer_size → last_ts p sid < timestamp x →
  Z.of_nat (length (pending p sid)) ≤ buffer_size →
  let q' := keep_last (Z.to_nat buffer_size) (pending p sid ++ [x]) in
  add_to_buffer sid x p =
    (Returned (buffer_size <=? Z.of_nat (length q')),
     Processor (<[sid := q']> (buffers p)) (<[sid := timestamp x]> (last_timestamps p))).
Proof.
  intros H0 Hts Hlen q'. unfold DataProcessor.add_to_buffer.
  destruct (Z.leb_spec (timestamp x) (last_ts p sid)); [lia|].
  unfold pending in *. simpl. unfold deque_new.
  destruct (Z.ltb_spec buffer_size 0); [lia|].
  destruct (buffers p !! sid) as [q|] eqn:Hq; simpl in *;
    by rewrite deque_append_keep_last.
Qed.

Lemma pending_insert sid sid' (q : list Sample) b (l : gmap string Z) :
  pending (Processor (<[sid := q]> b) l) sid' =
  if decide (sid = sid') then q else pending (Processor b l) sid'.
Proof. unfold pending. simpl. rewrite lookup_insert. by case_decide. Qed.

Lemma last_ts_insert sid sid' t (b : gmap string (list Sample)) l :
  last_ts (Processor b (<[sid := t]> l)) sid' =
  if decide (sid = sid') then t else last_ts (Processor b l) sid'.
Proof. unfold last_ts. simpl. rewrite lookup_insert. by case_decide. Qed.

(** Offers with increasing timestamps above the watermark, from any state
    whose queue respects the capacity. *)
Lemma offers_above sid xs : ∀ p,
  1 ≤ buffer_size →
  Z.of_nat (length (pending p sid)) ≤ buffer_size →
  StronglySorted Z.lt (last_ts p sid :: (timestamp <$> xs)) →
  ∀ k x, xs !! k = Some x →
  ∃ p', offers sid xs p !! k =
          Some (Returned (bool_decide (buffer_size ≤ Z.of_nat (length (pending p sid) + S k))), p')
      ∧ pending p' sid = keep_last (Z.to_nat buffer_size) (pending p sid ++ take (S k) xs)
      ∧ last_ts p' sid = timestamp x.
Proof.
  induction xs as [|y xs IH]; intros p Hbs Hlen Hsort k x Hk; [done|].
  apply StronglySorted_inv in Hsort as [Hsort Hall]. simpl in Hsort, Hall.
  apply Forall_cons in Hall as [Hy Hall].
  simpl. rewrite add_to_buffer_accept by lia.
  set (q' := keep_last (Z.to_nat buffer_size) (pending p sid ++ [y])).
  set (p1 := Processor _ _).
  assert (Hq' : pending p1 sid = q').
  { unfold p1. rewrite pending_insert. by case_decide. }
  assert (Hl' : last_ts p1 sid = timestamp y).
  { unfold p1. rewrite last_ts_insert. by case_decide. }
  assert (Hlen' : (length q' = (length (pending p sid) + 1) `min` Z.to_nat buffer_size)%nat).
  { unfold q'. rewrite keep_last_length, length_app. simpl. lia. }
  destruct k as [|k]; simpl in Hk.
  - injection Hk as ->. exists p1. simpl. split_and!; [|done..].
    do 3 f_equal. rewrite Hlen'.
    case_bool_decide; [apply Z.leb_le|apply Z.leb_gt]; lia.
  - destruct (IH p1) with (k := k) (x := x) as (p' & Hp' & Hpend & Hlast); try done.
    + rewrite Hq', Hlen'. lia.
    + by rewrite Hl'.
    + exists p'. simpl. split_and!; [|by rewrite Hpend, Hq'; unfold q'; rewrite keep_last_app, <- app_assoc|done].
      rewrite Hp', Hq', Hlen'. do 3 f_equal.
      apply bool_decide_ext. lia.
Qed.


Local Abbreviation wf := (wf timestamp buffer_size).
Local Abbreviation gone := (gone timestamp).

Lemma wf_init : wf init.
Proof. intros sid q. simpl. by rewrite lookup_empty. Qed.

Lemma keep_last_sorted n (l : list Sample) :
  StronglySorted Z.lt (timestamp <$> l) →
  StronglySorted Z.lt (timestamp <$> keep_last n l).
Proof.
  unfold keep_last. intros H.
  rewrite <- (take_drop (length l - n) l), fmap_app in H.
  by apply StronglySorted_app_1_r in H.
Qed.

Lemma wf_add sid x p : wf p → wf (add_to_buffer sid x p).2.
Proof.
  intros Hwf.
  destruct (Z.le_gt_cases (timestamp x) (last_ts p sid)) as [Hle|Hgt].
  { by rewrite add_to_buffer_reject. }
  destruct (Z.le_gt_cases 0 buffer_size) as [H0|Hneg].
  - assert (Hq : Z.of_nat (length (pending p sid)) ≤ buffer_size
                 ∧ StronglySorted Z.lt (timestamp <$> pending p sid)
                 ∧ Forall (λ y, timestamp y ≤ last_ts p sid) (pending p sid)).
    { unfold pending. destruct (buffers p !! sid) as [q|] eqn:E; simpl.
      - by apply Hwf.
      - split_and!; [lia|constructor..]. }
    destruct Hq as (Hlen & Hsort & Hall).
    rewrite add_to_buffer_accept by lia. simpl.
    intros sid' q. simpl. rewrite lookup_insert. case_decide as Hs.
    + subst sid'. intros [= <-]. rewrite last_ts_insert. case_decide; [|done].
      split_and!.
      * rewrite keep_last_length. lia.
      * apply keep_last_sorted. rewrite fmap_app. apply StronglySorted_app.
        split_and!; [|done|repeat constructor].
        intros a b Ha Hb. apply list_elem_of_singleton in Hb as ->.
        apply list_elem_of_fmap in Ha as (y & -> & Hy).
        rewrite Forall_forall in Hall. specialize (Hall y Hy). simpl. lia.
      * unfold keep_last. apply Forall_drop, Forall_app. split.
        -- eapply Forall_impl; [exact Hall|]. simpl. lia.
        -- repeat constructor. simpl. lia.
    + intros Hq. rewrite last_ts_insert. case_decide; [done|].
      by apply Hwf.
  - assert (Hnone : buffers p !! sid = None).
    { destruct (buffers p !! sid) as [q|] eqn:E; [|done].
      apply Hwf in E as (? & _). lia. }
    unfold DataProcessor.add_to_buffer.
    destruct (Z.leb_spec (timestamp x) (last_ts p sid)); [lia|].
    simpl. rewrite Hnone. unfold deque_new.
    destruct (Z.ltb_spec buffer_size 0); [|lia]. simpl.
    intros sid' q Hq. simpl in Hq. rewrite last_ts_insert.
    case_decide; [congruence|]. by apply Hwf.
Qed.

Lemma get_buffer_spec sid (p : @processor Sample) :
  (get_buffer sid p).1 = pending p sid
  ∧ last_timestamps (get_buffer sid p).2 = last_timestamps p
  ∧ ∀ sid' q, buffers (get_buffer sid p).2 !! sid' = Some q →
      ∃ q0, buffers p !! sid' = Some q0 ∧ (q = [] ∨ q = q0).
Proof.
  unfold get_buffer, pending.
  destruct (buffers p !! sid) as [q0|] eqn:E; simpl; (split_and!; [done..|]).
  - intros sid' q. rewrite lookup_insert. case_decide.
    + subst. intros [= <-]. eauto.
    + eauto.
  - eauto.
Qed.

(** The loop of [get_all_buffers], over any list of keys. *)
Lemma get_all_fold ks : ∀ (res : gmap string (list Sample)) p,
  let r := foldl get_all_step (res, p) ks in
  last_timestamps (r.2) = last_timestamps p
  ∧ (∀ sid q, buffers (r.2) !! sid = Some q →
       ∃ q0, buffers p !! sid = Some q0 ∧ (q = [] ∨ q = q0))
  ∧ (∀ sid rs, r.1 !! sid = Some rs →
       res !! sid = Some rs ∨ rs = [] ∨ buffers p !! sid = Some rs).
Proof.
  induction ks as [|k ks IH]; intros res p; simpl.
  { split_and!; eauto. }
  change (get_all_step (res, p) k) with
    (let '(records, p') := get_buffer k p in
     (match records with [] => res | _ => <[k:=records]> res end, p')).
  destruct (get_buffer_spec k p) as (Hrec & Hlts & Hbuf).
  destruct (get_buffer k p) as [records p1] eqn:Hg. simpl in *.
  specialize (IH (match records with [] => res | _ :: _ => <[k:=records]> res end) p1).
  simpl in IH. destruct IH as (IH1 & IH2 & IH3).
  split_and!.
  - congruence.
  - intros sid q Hq. apply IH2 in Hq as (q1 & Hq1 & Hor).
    apply Hbuf in Hq1 as (q0 & Hq0 & Hor'). exists q0. split; [done|].
    destruct Hor as [-> | ->]; [by left|done].
  - intros sid rs Hrs. apply IH3 in Hrs as [Hrs|[->|Hrs]].
    + destruct records as [|r0 records'] eqn:Hr; [by left|].
      rewrite lookup_insert in Hrs. case_decide; [|by left].
      subst k. injection Hrs as <-. right. right.
      unfold pending in Hrec. destruct (buffers p !! sid); simpl in Hrec; congruence.
    + right. by left.
    + apply Hbuf in Hrs as (q0 & Hq0 & [-> | ->]); [right; by left|by right; right].
Qed.

Lemma wf_weaken (p p' : @processor Sample) :
  wf p → last_timestamps p' = last_timestamps p →
  (∀ sid q, buffers p' !! sid = Some q →
     ∃ q0, buffers p !! sid = Some q0 ∧ (q = [] ∨ q = q0)) →
  wf p'.
Proof.
  intros Hwf Hlts Hbuf sid q Hq.
  apply Hbuf in Hq as (q0 & Hq0 & Hor). apply Hwf in Hq0 as (Hlen & Hsort & Hall).
  unfold last_ts in *. rewrite Hlts.
  destruct Hor as [-> | ->]; [|done].
  simpl. split_and!; [lia|constructor..].
Qed.

Lemma wf_step o p : wf p → wf (step o p).2.
Proof.
  intros Hwf. destruct o as [sid x|sid|]; simpl.
  - by apply wf_add.
  - destruct (get_buffer_spec sid p) as (_ & Hlts & Hbuf).
    destruct (get_buffer sid p) as [records p1]. simpl in *.
    by eapply wf_weaken.
  - unfold get_all_buffers.
    destruct (get_all_fold ((map_to_list (buffers p)).*1) ∅ p) as (Hlts & Hbuf & _).
    destruct (foldl _ _ _) as [result p1]. simpl in *.
    by eapply wf_weaken.
Qed.

Lemma wf_run os : ∀ p, wf p → wf (run os p).2.
Proof.
  induction os as [|o os IH]; intros p Hwf; [done|]. simpl.
  pose proof (wf_step o p Hwf) as H1.
  destruct (step o p) as [b1 p1]. simpl in H1.
  specialize (IH p1 H1). by destruct (run os p1).
Qed.

Lemma deque_append_elem m (q : list Sample) x y :
  y ∈ deque_append m q x → y ∈ q ∨ y = x.
Proof.
  unfold deque_append. intros H.
  assert (Hin : y ∈ q ++ [x]).
  { destruct (m <? _); [|done]. destruct q; simpl in *; [|by right].
    by apply elem_of_nil in H. }
  apply elem_of_app in Hin as [?|Hin]; [by left|].
  apply list_elem_of_singleton in Hin. by right.
Qed.

(** What an offer to [sid'] does to the queue and watermark of [sid]. *)
Lemma add_to_buffer_effect sid sid' x p :
  let p' := (add_to_buffer sid' x p).2 in
  last_ts p sid ≤ last_ts p' sid
  ∧ ∀ y, y ∈ pending p' sid →
      y ∈ pending p sid ∨ (y = x ∧ last_ts p sid < timestamp x ∧ timestamp x ≤ last_ts p' sid).
Proof.
  unfold DataProcessor.add_to_buffer.
  destruct (Z.leb_spec (timestamp x) (last_ts p sid')) as [Hle|Hgt]; simpl.
  { split; [lia|by left]. }
  assert (Hw : ∀ b : gmap string (list Sample), last_ts p sid ≤ last_ts (Processor b (<[sid' := timestamp x]> (last_timestamps p))) sid
             ∧ (sid' = sid → last_ts (Processor b (<[sid' := timestamp x]> (last_timestamps p))) sid = timestamp x)).
  { intros b. rewrite last_ts_insert. case_decide; [subst; split; [lia|done]|].
    split; [done|]. intros ->. done. }
  assert (Hq : ∀ q, default [] (buffers p !! sid') = q →
    ∀ y, y ∈ pending (Processor (<[sid' := deque_append buffer_size q x]> (buffers p))
                        (<[sid' := timestamp x]> (last_timestamps p))) sid →
      y ∈ pending p sid ∨ (y = x ∧ last_ts p sid < timestamp x
        ∧ timestamp x ≤ last_ts (Processor (<[sid' := deque_append buffer_size q x]> (buffers p))
                        (<[sid' := timestamp x]> (last_timestamps p))) sid)).
  { intros q Hq y. rewrite pending_insert. case_decide as Hs; [|by left].
    subst sid'. intros Hy. apply deque_append_elem in Hy as [Hy| ->].
    - left. unfold pending. by rewrite Hq.
    - right. destruct (Hw (<[sid := deque_append buffer_size q x]> (buffers p))) as [_ Heq].
      rewrite Heq by done. split_and!; [done|lia|lia]. }
  destruct (buffers p !! sid') as [q|] eqn:E; simpl.
  - split; [apply Hw|]. by apply Hq.
  - unfold deque_new. destruct (buffer_size <? 0); simpl.
    + split; [apply Hw|]. intros y Hy. by left.
    + split; [apply Hw|]. by apply Hq.
Qed.

Lemma gone_step e sid o p :
  gone e sid p →
  gone e sid (step o p).2
  ∧ ∀ batch, batch ∈ (step o p).1 → batch.1 = sid → e ∉ batch.2.
Proof.
  intros [Hts Hnot]. destruct o as [sid' x|sid'|]; simpl.
  - split; [|by intros ? ?%elem_of_nil].
    destruct (add_to_buffer_effect sid sid' x p) as [Hw Hin]. simpl in Hw, Hin.
    split; [lia|]. intros He. apply Hin in He as [He|(-> & Hlt & _)]; [done|lia].
  - destruct (get_buffer_spec sid' p) as (Hrec & Hlts & Hbuf).
    destruct (get_buffer sid' p) as [records p1]. simpl in *. split.
    + split; [unfold last_ts in *; by rewrite Hlts|].
      unfold pending in *. destruct (buffers p1 !! sid) as [q|] eqn:E; simpl; [|apply not_elem_of_nil].
      apply Hbuf in E as (q0 & Hq0 & [-> | ->]); [apply not_elem_of_nil|].
      by rewrite Hq0 in Hnot.
    + intros batch Hb Hs. apply list_elem_of_singleton in Hb as ->. simpl in *.
      by subst.
  - unfold get_all_buffers.
    destruct (get_all_fold ((map_to_list (buffers p)).*1) ∅ p) as (Hlts & Hbuf & Hres).
    destruct (foldl _ _ _) as [result p1]. simpl in *. split.
    + split; [unfold last_ts in *; by rewrite Hlts|].
      unfold pending in *. destruct (buffers p1 !! sid) as [q|] eqn:E; simpl; [|apply not_elem_of_nil].
      apply Hbuf in E as (q0 & Hq0 & [-> | ->]); [apply not_elem_of_nil|].
      by rewrite Hq0 in Hnot.
    + intros [s rs] Hb Hs. simpl in *. subst s.
      apply elem_of_map_to_list in Hb. apply Hres in Hb as [Hb|[-> |Hb]].
      * by rewrite lookup_empty in Hb.
      * apply not_elem_of_nil.
      * unfold pending in Hnot. by rewrite Hb in Hnot.
Qed.

Lemma gone_run e sid os : ∀ p,
  gone e sid p → ∀ batch, batch ∈ (run os p).1 → batch.1 = sid → e ∉ batch.2.
Proof.
  induction os as [|o os IH]; intros p Hg batch Hb Hs; simpl in Hb.
  { by apply elem_of_nil in Hb. }
  destruct (gone_step e sid o p Hg) as [Hg1 Hout].
  destruct (step o p) as [b1 p1]. simpl in *.
  specialize (IH p1 Hg1 batch).
  destruct (run os p1) as [b2 p2]. simpl in *.
  apply elem_of_app in Hb as [Hb|Hb]; [by apply Hout|by apply IH].
Qed.

(** C1 (as amended).  From a fresh processor, offering samples with strictly
    increasing timestamps, the first one above 0, to a buffer of capacity at
    least 1: every offer is accepted (the sample becomes the newest pending
    one and the watermark becomes its timestamp), the queue holds the last
    [buffer_size] samples offered so far, and the offer returns [True]
    exactly when the queue length has reached [buffer_size], that is from
    the [buffer_size]-th offer on. *)
Theorem offers_strictly_increasing sid (xs : list Sample) :
  1 ≤ buffer_size →
  StronglySorted Z.lt (timestamp <$> xs) →
  (∀ x, head xs = Some x → 0 < timestamp x) →
  ∀ k x, xs !! k = Some x →
  ∃ ready p',
    offers sid xs init !! k = Some (Returned ready, p')
    ∧ pending p' sid = keep_last (Z.to_nat buffer_size) (take (S k) xs)
    ∧ last (pending p' sid) = Some x
    ∧ last_ts p' sid = timestamp x
    ∧ (ready = true ↔ Z.of_nat (length (pending p' sid)) = buffer_size)
    ∧ (ready = true ↔ buffer_size ≤ Z.of_nat (S k)).
Proof.
  intros Hbs Hsort Hhead k x Hk.
  destruct (offers_above sid xs init) with (k := k) (x := x)
    as (p' & Hp' & Hpend & Hlast); try done.
  - unfold pending. simpl. rewrite lookup_empty. simpl. lia.
  - apply StronglySorted_cons. split; [|done].
    unfold last_ts. simpl. rewrite lookup_empty. simpl.
    destruct xs as [|y ys]; [done|].
    apply StronglySorted_inv in Hsort as [_ Hall].
    specialize (Hhead y eq_refl). simpl. constructor; [done|].
    eapply Forall_impl; [exact Hall|]. simpl. lia.
  - unfold pending at 1 2 in Hp'. unfold pending at 2 in Hpend.
    simpl in Hp', Hpend. rewrite lookup_empty in Hp', Hpend. simpl in Hp', Hpend.
    eexists _, p'. split; [exact Hp'|]. split; [exact Hpend|].
    assert (Hx : take (S k) xs = take k xs ++ [x]) by by apply take_S_r.
    split_and!.
    + rewrite Hpend, Hx. unfold keep_last.
      rewrite drop_app_le; [apply last_snoc|].
      rewrite length_app. simpl. lia.
    + done.
    + rewrite Hpend, keep_last_length, length_take.
      apply lookup_lt_Some in Hk.
      rewrite bool_decide_eq_true. lia.
    + by rewrite bool_decide_eq_true.
Qed.

(** C3.  A sample whose timestamp is at most the session's last accepted
    timestamp ([last_timestamps.get(session_id, 0)]) is rejected: the call
    returns [False] without raising, and neither the pending queues nor the
    watermarks change. *)
Theorem add_to_buffer_rejects_stale sid (x : Sample) p :
  timestamp x ≤ last_ts p sid →
  let r := add_to_buffer sid x p in
  r.1 = Returned false
  ∧ buffers (r.2) = buffers p
  ∧ last_timestamps (r.2) = last_timestamps p
  ∧ pending (r.2) sid = pending p sid
  ∧ last_ts (r.2) sid = last_ts p sid.
Proof. intros H. simpl. by rewrite add_to_buffer_reject. Qed.


(** The eviction on integer timestamps: in every state reached from a fresh
    processor no queue holds more than [buffer_size] samples; and when an
    offer is accepted while the queue of its session holds exactly
    [buffer_size] samples, the call returns [True] without raising, the
    oldest pending sample is dropped from the queue, and whatever offers and
    drains follow, that sample is in no batch drained for the session. *)
Lemma evicted_rank_is_gone (os0 : list (@op Sample)) :
  let p := (run os0 init).2 in
  (∀ sid q, buffers p !! sid = Some q → Z.of_nat (length q) ≤ buffer_size)
  ∧ (∀ sid e rest x,
       buffers p !! sid = Some (e :: rest) →
       Z.of_nat (length (e :: rest)) = buffer_size →
       last_ts p sid < timestamp x →
       ∃ p', add_to_buffer sid x p = (Returned true, p')
         ∧ buffers p' !! sid = Some (rest ++ [x])
         ∧ ∀ os batch, batch ∈ (run os p').1 → batch.1 = sid → e ∉ batch.2).
Proof.
  intros p. assert (Hwf : wf p) by apply wf_run, wf_init. split.
  { intros sid q Hq. by apply Hwf in Hq as (? & _). }
  intros sid e rest x Hq Hlen Hts.
  destruct (Hwf _ _ Hq) as (_ & Hsort & Hall).
  assert (Hpend : pending p sid = e :: rest) by (unfold pending; by rewrite Hq).
  simpl in Hlen.
  assert (Hkeep : keep_last (Z.to_nat buffer_size) (pending p sid ++ [x]) = rest ++ [x]).
  { rewrite Hpend. unfold keep_last. simpl. rewrite length_app. simpl.
    replace (S (length rest + 1) - Z.to_nat buffer_size)%nat with 1%nat by lia. done. }
  eexists. split; [|split].
  - rewrite add_to_buffer_accept; [|lia|done|rewrite Hpend; simpl; lia].
    rewrite Hkeep. f_equal. f_equal. apply Z.leb_le. rewrite length_app. simpl. lia.
  - simpl. by rewrite lookup_insert_eq.
  - intros os batch. apply gone_run. split.
    + rewrite last_ts_insert. case_decide; [|done].
      apply Forall_cons in Hall as [He _]. lia.
    + rewrite pending_insert. case_decide; [|done].
      simpl in Hsort. apply StronglySorted_inv in Hsort as [_ Hlt].
      apply Forall_cons in Hall as [He _].
      intros Hin. apply elem_of_app in Hin as [Hin|Hin].
      * rewrite Forall_forall in Hlt.
        specialize (Hlt (timestamp e) (list_elem_of_fmap_2 _ _ _ Hin)). lia.
      * apply list_elem_of_singleton in Hin as ->. lia.
Qed.

End Laws.

(** Witness of C1: three samples at t = 1, 2, 3 into a buffer of capacity 2;
    the third offer. *)
Lemma offers_strictly_increasing_witness :
  ∃ ready p',
    offers (λ t : Z, t) 2 "s1" [1; 2; 3] init !! 2%nat = Some (Returned ready, p')
    ∧ pending p' "s1" = keep_last (Z.to_nat 2) (take 3 [1; 2; 3])
    ∧ last (pending p' "s1") = Some 3
    ∧ last_ts p' "s1" = 3
    ∧ (ready = true ↔ Z.of_nat (length (pending p' "s1")) = 2)
    ∧ (ready = true ↔ 2 ≤ Z.of_nat 3).
Proof.
  apply (offers_strictly_increasing (λ t : Z, t) 2 "s1" [1; 2; 3]).
  - lia.
  - repeat constructor; lia.
  - intros x [= <-]. lia.
  - reflexivity.
Defined.

(** Counterexample to C1 as stated: the timestamps 0, 1 are strictly
    increasing and the processor is fresh, yet the sample at t = 0 is
    rejected: the offer returns [False], nothing is enqueued and the
    watermark stays at its default. *)
Lemma offer_first_timestamp_zero_rejected :
  StronglySorted Z.lt ((λ t : Z, t) <$> [0; 1])
  ∧ offers (λ t : Z, t) 2 "s1" [0; 1] init !! 0%nat = Some (Returned false, init)
  ∧ pending (@init Z) "s1" = []
  ∧ last_ts (@init Z) "s1" = 0.
Proof.
  split; [repeat constructor; lia|]. by split_and!.
Qed.

(** Witness of C3: a replay of timestamp 5 after 5 was accepted. *)
Lemma add_to_buffer_rejects_stale_witness :
  let p := Processor {["s1" := [5]]} {["s1" := 5]} in
  let r := add_to_buffer (λ t : Z, t) 2 "s1" 5 p in
  r.1 = Returned false
  ∧ buffers (r.2) = buffers p
  ∧ last_timestamps (r.2) = last_timestamps p
  ∧ pending (r.2) "s1" = pending p "s1"
  ∧ last_ts (r.2) "s1" = last_ts p "s1".
Proof.
  apply (add_to_buffer_rejects_stale (λ t : Z, t) 2 "s1" 5).
  unfold last_ts. simpl. rewrite lookup_singleton_eq. simpl. lia.
Defined.

End BufferLaws.

(** ** Laws of the validator *)

Module ValidatorLaws.
Import DataProcessor.

Lemma Qltb_false x y : Qltb x y = false ↔ (y <= x)%Q.
Proof.
  unfold Qltb. rewrite negb_false_iff. apply Qle_bool_iff.
Qed.

(** One [if v is not None: if not isinstance(...) or v < lo or v > hi] test
    passes exactly when the field is absent, NaN, or a number within the
    range. *)
Lemma check_field lo hi (field : option pyval) :
  is_not_none (default PyNone field) && out_of_range lo hi (default PyNone field) = false
  ↔ field_passes lo hi field.
Proof.
  destruct field as [v|]; simpl; [|done].
  assert (Hnum : ∀ x, Qltb x lo || Qltb hi x = false ↔ (lo <= x)%Q ∧ (x <= hi)%Q).
  { intros x. by rewrite orb_false_iff, !Qltb_false. }
  destruct v as [|b|z|q|negative| |s|l]; simpl; unfold out_of_range; simpl;
    try apply Hnum; try done.
  by destruct negative.
Qed.

(** Where no NaN is involved the code's rule is the specification's. *)
Lemma field_passes_ok lo hi (field : option pyval) :
  field ≠ Some PyNaN → (field_passes lo hi field ↔ field_ok lo hi field).
Proof. by destruct field as [[]|]. Qed.

(** The boundary cases of the heart-rate rule: 29 and 251 are rejected, 30
    and 250 are accepted. *)
Example validate_heart_rate_boundaries :
  let sample hr : gmap string pyval := {["timestamp" := PyInt 1700000000; "hr_bpm" := PyInt hr]} in
  (validate_data (sample 29)).1 = Some (InvalidHeartRate (PyInt 29))
  ∧ (validate_data (sample 30)).1 = None
  ∧ (validate_data (sample 250)).1 = None
  ∧ (validate_data (sample 251)).1 = Some (InvalidHeartRate (PyInt 251)).
Proof. by vm_compute. Qed.

(** C8 (as amended).  For a record that has a timestamp, [validate_data]
    returns no error exactly when each of heart rate, battery percentage,
    speed and cadence is absent, or NaN, or a number within [30, 250],
    [0, 100], [0, 20] and [0, 300] respectively (bounds included); so for a
    record none of whose four fields is NaN, exactly when each present field
    lies within its range.  The record is left as it was.  Heart rates of 29
    and 251 are rejected, 30 and 250 accepted. *)
Theorem validate_data_ranges :
  (∀ data : gmap string pyval,
     is_Some (data !! "timestamp") →
     ((validate_data data).1 = None
      ↔ field_passes 30 250 (data !! "hr_bpm")
        ∧ field_passes 0 100 (data !! "battery_pct")
        ∧ field_passes 0 20 (data !! "speed_mps")
        ∧ field_passes 0 300 (data !! "cadence_spm"))
     ∧ (data !! "hr_bpm" ≠ Some PyNaN → data !! "battery_pct" ≠ Some PyNaN →
        data !! "speed_mps" ≠ Some PyNaN → data !! "cadence_spm" ≠ Some PyNaN →
        ((validate_data data).1 = None
         ↔ field_ok 30 250 (data !! "hr_bpm")
           ∧ field_ok 0 100 (data !! "battery_pct")
           ∧ field_ok 0 20 (data !! "speed_mps")
           ∧ field_ok 0 300 (data !! "cadence_spm")))
     ∧ (validate_data data).2 = data)
  ∧ (let sample hr : gmap string pyval :=
       {["timestamp" := PyInt 1700000000; "hr_bpm" := PyInt hr]} in
     (validate_data (sample 29)).1 = Some (InvalidHeartRate (PyInt 29))
     ∧ (validate_data (sample 30)).1 = None
     ∧ (validate_data (sample 250)).1 = None
     ∧ (validate_data (sample 251)).1 = Some (InvalidHeartRate (PyInt 251))).
Proof.
  split; [|apply validate_heart_rate_boundaries].
  intros data [ts Hts].
  assert (Hcode : (validate_data data).1 = None
                  ↔ field_passes 30 250 (data !! "hr_bpm")
                    ∧ field_passes 0 100 (data !! "battery_pct")
                    ∧ field_passes 0 20 (data !! "speed_mps")
                    ∧ field_passes 0 300 (data !! "cadence_spm")).
  { unfold validate_data, dict_get.
    destruct (decide (data = ∅)) as [->|_]; [by rewrite lookup_empty in Hts|].
    rewrite <- (check_field 30 250), <- (check_field 0 100),
      <- (check_field 0 20), <- (check_field 0 300).
    destruct (is_not_none (default PyNone (data !! "hr_bpm")) && _) eqn:E1; simpl.
    { split; [done|]. by intros (? & _). }
    destruct (is_not_none (default PyNone (data !! "battery_pct")) && _) eqn:E2; simpl.
    { split; [done|]. by intros (_ & ? & _). }
    destruct (is_not_none (default PyNone (data !! "speed_mps")) && _) eqn:E3; simpl.
    { split; [done|]. by intros (_ & _ & ? & _). }
    destruct (is_not_none (default PyNone (data !! "cadence_spm")) && _) eqn:E4; simpl.
    { split; [done|]. by intros (_ & _ & _ & ?). }
    done. }
  split_and!; [exact Hcode| |].
  - intros H1 H2 H3 H4. rewrite Hcode.
    by rewrite !field_passes_ok by done.
  - unfold validate_data, dict_get.
    destruct (decide (data = ∅)); [done|].
    repeat (destruct (_ && _); [done|]). done.
Qed.

(** Witness of C8: a record with a timestamp and a heart rate of 30 is
    valid, by the rule. *)
Lemma validate_data_ranges_witness :
  (validate_data {["timestamp" := PyInt 1700000000; "hr_bpm" := PyInt 30]}).1 = None.
Proof.
  destruct (proj1 validate_data_ranges
              {["timestamp" := PyInt 1700000000; "hr_bpm" := PyInt 30]}) as [[_ H] _].
  - by eexists.
  - apply H. split_and!; [|done..]. split; by vm_compute.
Defined.

(** Counterexample to C8 as stated: a record whose heart rate is NaN is
    valid, though NaN lies in no range. *)
Lemma validate_data_accepts_nan :
  let data : gmap string pyval :=
    {["timestamp" := PyInt 1700000000; "hr_bpm" := PyNaN]} in
  is_Some (data !! "timestamp")
  ∧ (validate_data data).1 = None
  ∧ ¬ field_ok 30 250 (data !! "hr_bpm").
Proof.
  intros data. split_and!; [by eexists|by vm_compute|]. by vm_compute.
Qed.

End ValidatorLaws.

(** ** Laws of the heart-rate variability *)

Module RmssdLaws.
Import DataProcessor.

Lemma rmssd_loop_map (rr : list float) (idx : list nat) : ∀ diffs,
  foldl (rmssd_step rr) diffs idx =
  diffs ++ ((λ i, let d := ((nth i rr 0 - nth (i - 1) rr 0) * 1000)%float in (d * d)%float) <$> idx).
Proof.
  induction idx as [|i idx IH]; intros diffs; simpl.
  - by rewrite app_nil_r.
  - rewrite IH. unfold rmssd_step. by rewrite <- app_assoc.
Qed.

(** The index loop visits the pairs of neighbours. *)
Lemma rmssd_loop_zip (rr : list float) :
  foldl (rmssd_step rr) [] (seq 1 (length rr - 1)) =
  zip_with (λ a b, let d := ((b - a) * 1000)%float in (d * d)%float) rr (tail rr).
Proof.
  rewrite rmssd_loop_map. simpl. apply list_eq. intros k.
  rewrite list_lookup_fmap, lookup_zip_with, lookup_tail.
  destruct (decide (k < length rr - 1)%nat) as [Hlt|Hge].
  - rewrite lookup_seq_lt by done. simpl.
    rewrite !nth_lookup, Nat.sub_0_r.
    destruct (lookup_lt_is_Some_2 rr k) as [a ->]; [lia|].
    destruct (lookup_lt_is_Some_2 rr (S k)) as [b ->]; [lia|]. done.
  - rewrite lookup_seq_ge by lia. simpl.
    destruct (rr !! k) as [a|] eqn:Ea; [|done]. simpl.
    rewrite (lookup_ge_None_2 rr (S k)); [done|].
    apply lookup_lt_Some in Ea. lia.
Qed.

Lemma calculate_rmssd_ms (rr : list float) :
  (2 ≤ length rr)%nat → calculate_rmssd rr = rmssd_ms rr.
Proof.
  intros Hlen. unfold calculate_rmssd, rmssd_ms.
  destruct (Nat.ltb_spec (length rr) 2) as [Hlt|_]; [lia|].
  rewrite rmssd_loop_zip.
  set (sq := zip_with _ rr (tail rr)).
  assert (Hsq : length sq = (length rr - 1)%nat).
  { unfold sq. rewrite length_zip_with.
    destruct rr as [|a rr']; [done|].
    change (tail (a :: rr')) with rr'. rewrite length_cons. lia. }
  destruct sq as [|d sq'] eqn:E; [simpl in Hsq; lia|].
  by rewrite Hsq.
Qed.

(** C7 (as amended).  The RR block attaches [hrv_rmssd] exactly when the
    list has at least 2 entries; its value is the square root of the mean of
    the squared successive differences, each difference taken in seconds and
    then scaled to milliseconds, in binary64 arithmetic.  With fewer than 2
    entries the key is not set.  [1.0, 1.0, 1.0] gives 0.0 and [0.8, 1.0]
    gives 199.99999999999994 ([0x1.8fffffffffffep+7], two units in the last
    place below 200.0). *)
Theorem hrv_rmssd_attached :
  (∀ rr_s : option (list float),
     let rr := default [] rr_s in
     ((2 ≤ length rr)%nat → hrv_rmssd (process_rr rr_s) = Some (rmssd_ms rr))
     ∧ ((length rr < 2)%nat → hrv_rmssd (process_rr rr_s) = None))
  ∧ hrv_rmssd (process_rr (Some [1; 1; 1]%float)) = Some 0%float
  ∧ hrv_rmssd (process_rr (Some [0x1.999999999999ap-1; 1]%float))
      = Some 0x1.8fffffffffffep+7%float
  ∧ PrimFloat.ltb (PrimFloat.abs (0x1.8fffffffffffep+7 - 200)) 0x1p-43 = true.
Proof.
  split; [|by vm_compute].
  intros rr_s. cbv zeta. unfold process_rr.
  generalize (default [] rr_s). intros rr. split.
  - intros Hlen. destruct rr as [|a rr']; [simpl in Hlen; lia|].
    cbn [hrv_rmssd]. destruct (Nat.ltb_spec 1 (length (a :: rr'))); [|lia].
    by rewrite calculate_rmssd_ms.
  - intros Hlen. destruct rr as [|a rr']; [done|].
    cbn [hrv_rmssd]. destruct (Nat.ltb_spec 1 (length (a :: rr'))); [lia|done].
Qed.

(** Counterexample to C7 as stated: for the RR intervals [0.8, 1.0] (0.8 is
    the float [0x1.999999999999ap-1]) the attached value is not 200.0,
    although converting to milliseconds first, as the specification words
    it, gives exactly 200.0. *)
Lemma hrv_rmssd_not_200 :
  hrv_rmssd (process_rr (Some [0x1.999999999999ap-1; 1]%float)) ≠ Some 200%float
  ∧ rmssd_spec [0x1.999999999999ap-1; 1]%float = 200%float.
Proof.
  split; [|by vm_compute].
  intros H.
  apply (f_equal (λ o, match o with Some f => PrimFloat.eqb f 200 | None => false end)) in H.
  vm_compute in H. discriminate.
Qed.

End RmssdLaws.

(** ** Laws of the aggregation *)

Module AggregateLaws.
Import Database.

Lemma row_of_set_agg t db sid w c :
  row_of (set_aggregated_metrics t db) sid w c = row_of db sid w c.
Proof. done. Qed.

Lemma row_of_key db sid w c r : row_of db sid w c = Some r → agg_key r = (sid, c, w).
Proof. unfold row_of. destruct (0 <? _); [|done]. by intros [= <-]. Qed.

Lemma process_bucket_row sid w acc c :
  process_bucket sid w acc c =
  match row_of (acc.2) sid w c with
  | Some r => (acc.1 + 1,
               set_aggregated_metrics (insert_or_replace (aggregated_metrics (acc.2)) r) (acc.2))
  | None => acc
  end.
Proof. unfold process_bucket, row_of. by destruct (0 <? _). Qed.

(** Folding the loop body over the bucket starts: the rows written are those
    of the non-empty buckets, upserted in order. *)
Lemma foldl_process_bucket sid w starts : ∀ n db,
  foldl (process_bucket sid w) (n, db) starts =
  let rows := omap (row_of db sid w) starts in
  (n + Z.of_nat (length rows),
   set_aggregated_metrics (foldl insert_or_replace (aggregated_metrics db) rows) db).
Proof.
  induction starts as [|c starts IH]; intros n db; simpl.
  { destruct db. unfold set_aggregated_metrics. simpl. f_equal. lia. }
  rewrite process_bucket_row. simpl.
  destruct (row_of db sid w c) as [r|] eqn:Er.
  - assert (Hext : ∀ t, omap (row_of (set_aggregated_metrics t db) sid w) starts
                        = omap (row_of db sid w) starts) by done.
    rewrite IH. cbn [fst snd]. rewrite Hext. cbn [length foldl].
    f_equal. unfold omap. lia.
  - apply IH.
Qed.

Lemma aggregate_loop_starts fuel sid w e : ∀ c acc,
  aggregate_loop fuel sid w e c acc =
  foldl (process_bucket sid w) acc <$> bucket_starts fuel w e c.
Proof.
  induction fuel as [|fuel IH]; intros c acc; simpl; [done|].
  destruct (c <? e); [|done].
  rewrite IH. by destruct (bucket_starts fuel w e (c + w)).
Qed.


(** *** The bucket starts *)

Lemma bucket_starts_diverges fuel w e : ∀ c,
  w ≤ 0 → c < e → bucket_starts fuel w e c = None.
Proof.
  induction fuel as [|fuel IH]; intros c Hw Hc; simpl; [done|].
  destruct (Z.ltb_spec c e); [|lia]. rewrite IH by lia. done.
Qed.

Lemma bucket_starts_sorted fuel w e : ∀ c starts,
  0 < w → bucket_starts fuel w e c = Some starts →
  StronglySorted Z.lt starts ∧ Forall (λ x, c ≤ x ∧ x < e) starts.
Proof.
  induction fuel as [|fuel IH]; intros c starts Hw; simpl; [done|].
  destruct (Z.ltb_spec c e) as [Hc|Hc].
  - destruct (bucket_starts fuel w e (c + w)) as [l|] eqn:El; [|done].
    intros [= <-]. destruct (IH _ _ Hw El) as [Hs Hf]. split.
    + constructor; [done|]. eapply Forall_impl; [exact Hf|]. simpl. lia.
    + constructor; [lia|]. eapply Forall_impl; [exact Hf|]. simpl. lia.
  - intros [= <-]. split; constructor.
Qed.

Lemma bucket_starts_NoDup fuel w e c starts :
  bucket_starts fuel w e c = Some starts → NoDup starts.
Proof.
  intros H. destruct (Z.le_gt_cases w 0) as [Hw|Hw].
  - destruct (Z.le_gt_cases e c) as [Hc|Hc].
    + destruct fuel; simpl in H; [done|].
      destruct (Z.ltb_spec c e); [lia|]. injection H as <-. constructor.
    + by rewrite bucket_starts_diverges in H.
  - apply bucket_starts_sorted in H as [Hs _]; [|lia].
    clear -Hs. induction Hs as [|x l Hs IH Hx]; constructor; [|done].
    intros Hin. rewrite Forall_forall in Hx. specialize (Hx x Hin). lia.
Qed.

(** With a positive width the loop ends. *)
Lemma bucket_starts_terminates w e : ∀ fuel c,
  0 < w → (Z.to_nat (e - c) < fuel)%nat → is_Some (bucket_starts fuel w e c).
Proof.
  induction fuel as [|fuel IH]; intros c Hw Hf; [lia|]. simpl.
  destruct (Z.ltb_spec c e) as [Hc|Hc]; [|by eexists].
  destruct (IH (c + w) Hw) as [l ->]; [lia|]. by eexists.
Qed.

(** More fuel does not change a result. *)
Lemma bucket_starts_fuel w e : ∀ fuel fuel' c starts,
  bucket_starts fuel w e c = Some starts → (fuel ≤ fuel')%nat →
  bucket_starts fuel' w e c = Some starts.
Proof.
  induction fuel as [|fuel IH]; intros fuel' c starts H Hle; [done|].
  destruct fuel' as [|fuel']; [lia|]. simpl in *.
  destruct (c <? e); [|done].
  destruct (bucket_starts fuel w e (c + w)) as [l|] eqn:El; [|done].
  by rewrite (IH fuel' _ l El) by lia.
Qed.

(** When the end lies a whole number of widths after the first start, every
    bucket ends at or before it. *)
Lemma boundary_sum w c (k : nat) : boundary w c k = c + Z.of_nat k * w.
Proof.
  unfold boundary. induction k as [|k IH]; [simpl; lia|].
  rewrite Nat.iter_succ, IH. lia.
Qed.

Lemma bucket_starts_aligned fuel w e : ∀ c k starts,
  0 < w → 0 ≤ k → e = c + k * w →
  bucket_starts fuel w e c = Some starts →
  Forall (λ x, x + w ≤ e) starts.
Proof.
  induction fuel as [|fuel IH]; intros c k starts Hw Hk He; simpl; [done|].
  destruct (Z.ltb_spec c e) as [Hc|Hc]; [|intros [= <-]; constructor].
  destruct (bucket_starts fuel w e (c + w)) as [l|] eqn:El; [|done].
  intros [= <-]. assert (1 ≤ k) by nia. constructor; [nia|].
  apply (IH (c + w) (k - 1) l); [done|lia|nia|done].
Qed.

(** *** Upserts *)

Lemma filter_all {A} (P : A → Prop) `{∀ x, Decision (P x)} (l : list A) :
  Forall P l → filter P l = l.
Proof.
  induction 1 as [|x l Hx Hl IH]; [done|].
  rewrite filter_cons. destruct (decide (P x)); [|done]. by rewrite IH.
Qed.

Lemma filter_none {A} (P : A → Prop) `{∀ x, Decision (P x)} (l : list A) :
  Forall (λ x, ¬ P x) l → filter P l = [].
Proof.
  induction 1 as [|x l Hx Hl IH]; [done|].
  rewrite filter_cons. by destruct (decide (P x)).
Qed.

(** Upserting rows with distinct keys: the rows of other keys stay in
    place, and the new rows follow in order. *)
Lemma upserts_normal_form (rows : list agg_row) : ∀ t,
  NoDup (agg_key <$> rows) →
  foldl insert_or_replace t rows =
  filter (λ r, agg_key r ∉ agg_key <$> rows) t ++ rows.
Proof.
  induction rows as [|r rows IH]; intros t Hnd; simpl.
  { rewrite filter_all, app_nil_r; [done|].
    apply Forall_forall. intros x _. apply not_elem_of_nil. }
  apply NoDup_cons in Hnd as [Hr Hnd]. rewrite IH by done.
  unfold insert_or_replace. rewrite filter_app, list_filter_filter.
  rewrite (filter_all _ [r]) by (by repeat constructor).
  rewrite <- app_assoc. simpl. f_equal.
  apply list_filter_iff. intros x. rewrite not_elem_of_cons. tauto.
Qed.

Lemma upserts_twice (rows : list agg_row) t :
  NoDup (agg_key <$> rows) →
  foldl insert_or_replace (foldl insert_or_replace t rows) rows
  = foldl insert_or_replace t rows.
Proof.
  intros Hnd. rewrite !upserts_normal_form by done.
  rewrite filter_app, list_filter_filter.
  rewrite (filter_none _ rows).
  - rewrite app_nil_r. f_equal. apply list_filter_iff. tauto.
  - apply Forall_forall. intros x Hx Hn. apply Hn. by apply list_elem_of_fmap_2.
Qed.

Lemma upserts_unique (rows : list agg_row) t :
  NoDup (agg_key <$> rows) → unique_keys t →
  unique_keys (foldl insert_or_replace t rows).
Proof.
  intros Hnd Ht. rewrite upserts_normal_form by done.
  unfold unique_keys in *. rewrite fmap_app. apply NoDup_app. split_and!.
  - eapply sublist_NoDup; [exact Ht|]. apply fmap_sublist, sublist_filter.
  - intros k Hk Hk'. apply list_elem_of_fmap in Hk as (r & -> & Hr).
    apply list_elem_of_filter in Hr as [Hr _]. done.
  - done.
Qed.

Lemma rows_NoDup db sid w (starts : list Z) :
  NoDup starts → NoDup (agg_key <$> omap (row_of db sid w) starts).
Proof.
  induction 1 as [|c starts Hc Hnd IH]; simpl; [constructor|].
  destruct (row_of db sid w c) as [r|] eqn:Er; [|done].
  rewrite fmap_cons. constructor; [|done].
  intros Hin. apply list_elem_of_fmap in Hin as (r' & Hk & Hr').
  apply list_elem_of_omap in Hr' as (c' & Hc' & Er').
  apply row_of_key in Er, Er'. rewrite Er, Er' in Hk.
  injection Hk as ->. done.
Qed.


(** *** [compute_aggregates] *)

Lemma set_aggregated_metrics_id db :
  set_aggregated_metrics (aggregated_metrics db) db = db.
Proof. by destruct db. Qed.

Lemma compute_aggregates_buckets fuel db sid w :
  compute_aggregates fuel db sid w =
  foldl (process_bucket sid w) (0, db) <$> call_buckets fuel db sid w.
Proof.
  unfold compute_aggregates, call_buckets.
  destruct (time_range db sid) as [[start|] [e|]]; try done.
  destruct (start =? 0); [done|]. apply aggregate_loop_starts.
Qed.

Lemma call_buckets_raw fuel db db' sid w :
  raw_metrics db' = raw_metrics db →
  call_buckets fuel db' sid w = call_buckets fuel db sid w.
Proof. intros Hraw. unfold call_buckets, time_range. by rewrite Hraw. Qed.

Lemma call_buckets_NoDup fuel db sid w starts :
  call_buckets fuel db sid w = Some starts → NoDup starts.
Proof.
  unfold call_buckets.
  destruct (time_range db sid) as [[start|] [e|]]; try (intros [= <-]; constructor).
  destruct (start =? 0); [intros [= <-]; constructor|]. apply bucket_starts_NoDup.
Qed.

Lemma row_of_raw db db' sid w c :
  raw_metrics db' = raw_metrics db → row_of db' sid w c = row_of db sid w c.
Proof. intros Hraw. unfold row_of, bucket_samples. by rewrite Hraw. Qed.

(** A call that returns has upserted the rows of the non-empty buckets, which
    depend on [raw_metrics] only; from any database with the same
    [raw_metrics] the call upserts the same rows. *)
Lemma compute_aggregates_rows fuel db sid w count db1 :
  compute_aggregates fuel db sid w = Some (count, db1) →
  ∃ rows,
    NoDup (agg_key <$> rows)
    ∧ count = Z.of_nat (length rows)
    ∧ db1 = set_aggregated_metrics (foldl insert_or_replace (aggregated_metrics db) rows) db
    ∧ ∀ db', raw_metrics db' = raw_metrics db →
        compute_aggregates fuel db' sid w =
        Some (Z.of_nat (length rows),
              set_aggregated_metrics
                (foldl insert_or_replace (aggregated_metrics db') rows) db').
Proof.
  rewrite compute_aggregates_buckets.
  destruct (call_buckets fuel db sid w) as [starts|] eqn:Es; [|done].
  simpl. rewrite foldl_process_bucket. simpl. intros [= <- <-].
  exists (omap (row_of db sid w) starts). split_and!; [|done..|].
  - eapply rows_NoDup, call_buckets_NoDup. exact Es.
  - intros db' Hraw.
    rewrite compute_aggregates_buckets, (call_buckets_raw _ db db') by done.
    rewrite Es. simpl. rewrite foldl_process_bucket. simpl.
    by rewrite (list_omap_ext _ (row_of db sid w) starts starts)
      by (apply Forall2_same_length_lookup_2; [done|]; intros; simplify_eq;
          by apply row_of_raw).
Qed.

(** C4.  When a call of [compute_aggregates] returns, a second call on the
    database it left (same stored samples, same interval width) returns
    too, with the same count, and leaves the table of aggregates exactly as
    the first call did; the samples are untouched, and a table that held at
    most one row per key (session_id, interval_start, interval_seconds)
    still does. *)
Theorem compute_aggregates_idempotent db sid w fuel count db1 :
  compute_aggregates fuel db sid w = Some (count, db1) →
  compute_aggregates fuel db1 sid w = Some (count, db1)
  ∧ raw_metrics db1 = raw_metrics db
  ∧ (unique_keys (aggregated_metrics db) → unique_keys (aggregated_metrics db1)).
Proof.
  intros H.
  apply compute_aggregates_rows in H as (rows & Hnd & -> & -> & Hagain).
  split_and!.
  - rewrite Hagain by done. simpl. by rewrite upserts_twice.
  - done.
  - simpl. by apply upserts_unique.
Qed.


Lemma non_null_Some {A B} (f : A → B) (l : list A) :
  non_null ((λ x, Some (f x)) <$> l) = f <$> l.
Proof.
  unfold non_null. induction l as [|x l IH]; [done|].
  rewrite fmap_cons. simpl. by f_equal.
Qed.

Lemma foldl_min_const t (l : list Z) : Forall (λ x, x = t) l → foldl Z.min t l = t.
Proof. induction 1 as [|x l -> _ IH]; simpl; [done|]. by rewrite Z.min_id. Qed.

Lemma foldl_max_const t (l : list Z) : Forall (λ x, x = t) l → foldl Z.max t l = t.
Proof. induction 1 as [|x l -> _ IH]; simpl; [done|]. by rewrite Z.max_id. Qed.

Lemma time_range_single db sid t :
  let rows := filter (λ m, m_session_id m = sid) (raw_metrics db) in
  rows ≠ [] → Forall (λ m, m_timestamp m = t) rows →
  time_range db sid = (Some t, Some t).
Proof.
  intros rows Hne Hall. unfold time_range, sql_min, sql_max. fold rows.
  rewrite non_null_Some.
  destruct rows as [|m rows']; [done|]. simpl.
  apply Forall_cons in Hall as [Hm Hall]. rewrite Hm.
  assert (Hts : Forall (λ x, x = t) (m_timestamp <$> rows')).
  { apply Forall_fmap. eapply Forall_impl; [exact Hall|done]. }
  by rewrite foldl_min_const, foldl_max_const.
Qed.



(** Witness of C4: two calls with width 30 on [example_db]. *)
Lemma compute_aggregates_idempotent_witness :
  ∃ db1,
    compute_aggregates 5 example_db "s1" 30 = Some (2, db1)
    ∧ compute_aggregates 5 db1 "s1" 30 = Some (2, db1)
    ∧ raw_metrics db1 = raw_metrics example_db
    ∧ (unique_keys (aggregated_metrics example_db) → unique_keys (aggregated_metrics db1)).
Proof.
  eexists. split; [reflexivity|].
  apply (compute_aggregates_idempotent example_db "s1" 30 5%nat 2).
  reflexivity.
Defined.



(** On [example_db] the call writes two rows, for the buckets starting at
    100 and 130, and the sample at t = 160 is counted in neither. *)
Example compute_aggregates_example :
  (λ r, (r.1, (λ a, (a_interval_start a, a_sample_count a)) <$> aggregated_metrics (r.2)))
    <$> compute_aggregates 5 example_db "s1" 30
  = Some (2, [(100, 1); (130, 1)]).
Proof. reflexivity. Qed.

End AggregateLaws.

(** ** Laws of the session manager *)

Module SessionLaws.
Import Database SessionManager.

Section DictLaws.
Context {K V : Type} `{EqDecision K}.

Lemma odict_lookup_set_eq (k : K) (v : V) d :
  odict_lookup k (odict_set k v d) = Some v.
Proof.
  induction d as [|[k' v'] d IH]; simpl.
  - by rewrite decide_True.
  - destruct (decide (k' = k)); simpl.
    + by rewrite decide_True.
    + by rewrite decide_False.
Qed.

Lemma odict_lookup_set_ne (k k' : K) (v : V) d :
  k ≠ k' → odict_lookup k' (odict_set k v d) = odict_lookup k' d.
Proof.
  intros Hne. induction d as [|[k0 v0] d IH]; simpl.
  - by rewrite decide_False.
  - destruct (decide (k0 = k)) as [->|]; simpl.
    + by rewrite !decide_False.
    + by rewrite IH.
Qed.

Lemma odict_del_is_Some (k : K) (d : list (K * V)) :
  is_Some (odict_lookup k d) → is_Some (odict_del k d).
Proof.
  induction d as [|[k0 v0] d IH]; simpl; [by intros [? ?]|].
  destruct (decide (k0 = k)); [by eexists|].
  intros Hk. destruct (IH Hk) as [d' ->]. by eexists.
Qed.

Lemma odict_lookup_del_ne (k k' : K) (d d' : list (K * V)) :
  odict_del k d = Some d' → k ≠ k' → odict_lookup k' d' = odict_lookup k' d.
Proof.
  revert d'. induction d as [|[k0 v0] d IH]; intros d'; simpl; [done|].
  destruct (decide (k0 = k)) as [->|Hk0].
  - intros [= <-] Hne. by rewrite decide_False.
  - destruct (odict_del k d) as [d1|] eqn:E; [|done]. simpl.
    intros [= <-] Hne. simpl. destruct (decide (k0 = k')); [done|]. by apply IH.
Qed.

Lemma odict_lookup_del_eq (k : K) (d d' : list (K * V)) :
  NoDup (d.*1) → odict_del k d = Some d' → odict_lookup k d' = None.
Proof.
  revert d'. induction d as [|[k0 v0] d IH]; intros d'; simpl; [done|].
  intros [Hk0 Hnd]%NoDup_cons.
  destruct (decide (k0 = k)) as [->|Hne].
  - intros [= <-]. clear IH. induction d as [|[k1 v1] d IH]; simpl; [done|].
    simpl in Hk0. apply not_elem_of_cons in Hk0 as [? ?].
    apply NoDup_cons in Hnd as [_ ?].
    rewrite decide_False by done. by apply IH.
  - destruct (odict_del k d) as [d1|] eqn:E; [|done]. simpl.
    intros [= <-]. simpl. rewrite decide_False by done. by apply IH.
Qed.

Lemma odict_lookup_elem_of (k : K) (v : V) d :
  odict_lookup k d = Some v → (k, v) ∈ d.
Proof.
  induction d as [|[k0 v0] d IH]; simpl; [done|].
  destruct (decide (k0 = k)) as [->|].
  - intros [= ->]. by left.
  - intros ?. right. by apply IH.
Qed.

End DictLaws.


(** *** The stored end time *)

Lemma update_end_time_row_id sid e u r :
  s_session_id (update_end_time_row sid e u r) = s_session_id r.
Proof. unfold update_end_time_row. by destruct (decide _). Qed.

Lemma find_update_end_time sid sid' e u (rows : list session_row) :
  List.find (λ r, bool_decide (s_session_id r = sid)) (update_end_time_row sid' e u <$> rows)
  = update_end_time_row sid' e u <$> List.find (λ r, bool_decide (s_session_id r = sid)) rows.
Proof.
  induction rows as [|r rows IH]; simpl; [done|].
  destruct (decide (s_session_id r = sid)) as [Hr|Hr].
  - rewrite !bool_decide_eq_true_2; [done|done|by rewrite update_end_time_row_id].
  - rewrite !bool_decide_eq_false_2; [done|done|by rewrite update_end_time_row_id].
Qed.

Lemma find_session_Some sid (rows : list session_row) :
  sid ∈ s_session_id <$> rows →
  ∃ r, List.find (λ r, bool_decide (s_session_id r = sid)) rows = Some r
       ∧ s_session_id r = sid.
Proof.
  induction rows as [|r rows IH]; simpl; [by intros ?%elem_of_nil|].
  intros Hin. destruct (decide (s_session_id r = sid)) as [Hr|Hr].
  - exists r. by rewrite bool_decide_eq_true_2.
  - rewrite bool_decide_eq_false_2 by done.
    apply elem_of_cons in Hin as [?|?]; [congruence|]. by apply IH.
Qed.

Lemma end_time_of_update_eq sid e u (d : database) :
  sid ∈ s_session_id <$> sessions d →
  end_time_of sid (set_sessions (update_end_time_row sid e u <$> sessions d) d)
  = Some (Some e).
Proof.
  intros Hin. unfold end_time_of. simpl. rewrite find_update_end_time.
  destruct (find_session_Some _ _ Hin) as (r & -> & Hr). simpl.
  unfold update_end_time_row. by rewrite decide_True.
Qed.

Lemma end_time_of_update_ne sid sid' e u (d : database) :
  sid' ≠ sid →
  end_time_of sid (set_sessions (update_end_time_row sid' e u <$> sessions d) d)
  = end_time_of sid d.
Proof.
  intros Hne. unfold end_time_of. simpl. rewrite find_update_end_time.
  destruct (List.find _ (sessions d)) as [r|] eqn:E; [|done]. simpl.
  apply find_some in E as [_ Hr%bool_decide_eq_true].
  unfold update_end_time_row. rewrite decide_False; [done|congruence].
Qed.

Lemma end_time_of_append sid r x (d : database) :
  end_time_of sid d = Some x →
  end_time_of sid (set_sessions (sessions d ++ [r]) d) = Some x.
Proof.
  unfold end_time_of. simpl. induction (sessions d) as [|r0 rows IH]; simpl; [done|].
  destruct (bool_decide (s_session_id r0 = sid)); [done|]. apply IH.
Qed.

Lemma session_ids_update sid e u (rows : list session_row) :
  s_session_id <$> (update_end_time_row sid e u <$> rows) = s_session_id <$> rows.
Proof.
  induction rows as [|r rows IH]; [done|].
  rewrite !fmap_cons, IH. f_equal. apply update_end_time_row_id.
Qed.

Section ManagerLaws.
Variable clock : nat → Z.
Variable uuid_hex8 : nat → string.
Variable gap_seconds : Z.

Local Abbreviation close_session := (close_session clock).
Local Abbreviation closed_db := (closed_db clock).
Local Abbreviation closed_after := (closed_after clock).
Local Abbreviation get_active_session := (get_active_session clock).
Local Abbreviation create_session := (create_session clock uuid_hex8).
Local Abbreviation in_memory_session := (in_memory_session clock gap_seconds).
Local Abbreviation stored_or_new_session :=
  (stored_or_new_session clock uuid_hex8 gap_seconds).
Local Abbreviation get_or_create_session :=
  (get_or_create_session clock uuid_hex8 gap_seconds).
Local Abbreviation sweep := (sweep clock gap_seconds).
Local Abbreviation check_inactive_sessions :=
  (check_inactive_sessions clock gap_seconds).

(** [_close_session] does nothing for a device without session; otherwise
    it stores the clock reading as end time, and removes the device from
    both dicts. *)
Lemma close_session_cases device_id s :
  match odict_lookup device_id (active_sessions s) with
  | None => close_session device_id s = (Returned tt, s)
  | Some sid =>
      ∃ active', odict_del device_id (active_sessions s) = Some active' ∧
        close_session device_id s =
        match odict_del device_id (last_activity s) with
        | Some last' =>
            (Returned tt, State (closed_db sid s) active' last' (S (S (ticks s))) (uuids s))
        | None =>
            (Raised KeyError,
             State (closed_db sid s) active' (last_activity s) (S (S (ticks s))) (uuids s))
        end
  end.
Proof.
  unfold SessionManager.close_session, bind, get. simpl.
  destruct (odict_lookup device_id (active_sessions s)) as [sid|] eqn:E; [|done].
  destruct (odict_del_is_Some device_id (active_sessions s)) as [active' Hd]; [by eexists|].
  exists active'. split; [done|]. simpl. rewrite Hd. simpl.
  by destruct (odict_del device_id (last_activity s)).
Qed.


Lemma register_session_spec device_id ct sid s :
  register_session device_id ct sid s =
  (Returned sid,
   set_last_activity (odict_set device_id ct (last_activity s))
     (set_active_sessions (odict_set device_id sid (active_sessions s)) s)).
Proof. done. Qed.

Lemma get_active_session_spec device_id gap s :
  ∃ found, get_active_session device_id gap s = (Returned found, set_ticks (S (ticks s)) s).
Proof.
  eexists. unfold SessionManager.get_active_session, bind, time_time, get, ret.
  simpl. reflexivity.
Qed.

(** [create_session] adds a row or fails; the other rows stay. *)
Lemma create_session_end_time device_id name sid x s :
  end_time_of sid (db s) = Some x →
  end_time_of sid (db (create_session device_id name s).2) = Some x.
Proof.
  intros Hx. unfold SessionManager.create_session, bind, uuid4_hex8, time_time, get.
  simpl. destruct (decide _); simpl; [done|]. by apply end_time_of_append.
Qed.

Lemma stored_or_new_session_end_time device_id name ct sid x s :
  end_time_of sid (db s) = Some x →
  end_time_of sid (db (stored_or_new_session device_id name ct s).2) = Some x.
Proof.
  intros Hx. unfold SessionManager.stored_or_new_session. unfold bind at 1.
  destruct (get_active_session_spec device_id gap_seconds s) as [found ->].
  assert (Hnew : end_time_of sid
    (db (bind (create_session device_id name)
           (λ session_id, register_session device_id ct session_id)
           (set_ticks (S (ticks s)) s)).2) = Some x).
  { unfold bind.
    pose proof (create_session_end_time device_id name sid x (set_ticks (S (ticks s)) s) Hx) as H.
    destruct (create_session device_id name _) as [[sid'|e] s2]; simpl in *; done. }
  destruct found as [sid'|]; [|done].
  destruct (decide (sid' = "")); done.
Qed.

Lemma stored_or_new_session_post device_id name ct s sid s' :
  stored_or_new_session device_id name ct s = (Returned sid, s') →
  odict_lookup device_id (active_sessions s') = Some sid
  ∧ odict_lookup device_id (last_activity s') = Some ct.
Proof.
  unfold SessionManager.stored_or_new_session. unfold bind at 1.
  destruct (get_active_session_spec device_id gap_seconds s) as [found ->].
  assert (Hreg : ∀ sid0 s0, register_session device_id ct sid0 s0 = (Returned sid, s') →
    odict_lookup device_id (active_sessions s') = Some sid
    ∧ odict_lookup device_id (last_activity s') = Some ct).
  { intros sid0 s0. rewrite register_session_spec. intros [= -> <-]. simpl.
    by rewrite !odict_lookup_set_eq. }
  assert (Hnew : bind (create_session device_id name)
           (λ session_id, register_session device_id ct session_id)
           (set_ticks (S (ticks s)) s) = (Returned sid, s') →
    odict_lookup device_id (active_sessions s') = Some sid
    ∧ odict_lookup device_id (last_activity s') = Some ct).
  { unfold bind. destruct (create_session device_id name _) as [[sid'|e] s2]; [|done].
    apply Hreg. }
  destruct found as [sid'|]; [|done].
  destruct (decide (sid' = "")); [done|]. apply Hreg.
Qed.


(** *** Resolution *)

Lemma in_memory_session_post device_id ct s sid s' :
  in_memory_session device_id ct s = (Returned (Some sid), s') →
  odict_lookup device_id (active_sessions s') = Some sid
  ∧ odict_lookup device_id (last_activity s') = Some ct.
Proof.
  unfold SessionManager.in_memory_session, bind, get. simpl.
  destruct (odict_lookup device_id (active_sessions s)) as [sid0|] eqn:E; [|done].
  destruct (gap_seconds <? _).
  - by destruct (close_session device_id s) as [[[]|e] s1].
  - simpl. intros [= -> <-]. simpl. by rewrite odict_lookup_set_eq.
Qed.

Lemma get_or_create_session_post device_id name s sid s' :
  get_or_create_session device_id name s = (Returned sid, s') →
  odict_lookup device_id (active_sessions s') = Some sid
  ∧ odict_lookup device_id (last_activity s') = Some (clock (ticks s)).
Proof.
  unfold SessionManager.get_or_create_session. unfold bind at 1. unfold time_time at 1.
  unfold bind at 1.
  destruct (in_memory_session device_id _ _) as [[[sid0|]|e] s1] eqn:E; [| |done].
  - intros [= -> <-]. by apply in_memory_session_post in E.
  - apply stored_or_new_session_post.
Qed.

(** A resolve for a device that is in memory and within the gap: the
    session is kept, and only the activity time and the clock move. *)
Lemma get_or_create_session_within_gap device_id name s sid t0 :
  odict_lookup device_id (active_sessions s) = Some sid →
  odict_lookup device_id (last_activity s) = Some t0 →
  clock (ticks s) - t0 ≤ gap_seconds →
  get_or_create_session device_id name s =
  (Returned sid,
   set_last_activity (odict_set device_id (clock (ticks s)) (last_activity s))
     (set_ticks (S (ticks s)) s)).
Proof.
  intros Ha Hl Hgap.
  unfold SessionManager.get_or_create_session, SessionManager.in_memory_session,
    bind, time_time, get, modify, ret. simpl.
  rewrite Ha. simpl. rewrite Hl. simpl.
  destruct (Z.ltb_spec gap_seconds (clock (ticks s) - t0)); [lia|done].
Qed.

(** C6.  After a resolve has returned [sid] for a device, its activity time
    is the clock reading of that call; a second resolve for the device whose
    clock reading is at most [gap_seconds] later returns [sid] again, leaves
    the database and the map of active sessions as they were, and refreshes
    the activity time; so a second resolve can return another session id
    only when more than [gap_seconds] have elapsed.  [n] is the number of
    clock readings made before the second call. *)
Theorem resolve_is_stable device_id name1 name2 s sid s1 n :
  get_or_create_session device_id name1 s = (Returned sid, s1) →
  let elapsed := clock n - clock (ticks s) in
  odict_lookup device_id (last_activity s1) = Some (clock (ticks s))
  ∧ (elapsed ≤ gap_seconds →
     ∃ s2, get_or_create_session device_id name2 (set_ticks n s1) = (Returned sid, s2)
       ∧ db s2 = db s1
       ∧ active_sessions s2 = active_sessions s1
       ∧ odict_lookup device_id (last_activity s2) = Some (clock n))
  ∧ (∀ sid' s2,
       get_or_create_session device_id name2 (set_ticks n s1) = (Returned sid', s2) →
       sid' ≠ sid → gap_seconds < elapsed).
Proof.
  intros H1 elapsed. apply get_or_create_session_post in H1 as [Ha Hl].
  assert (Hwithin : elapsed ≤ gap_seconds →
    get_or_create_session device_id name2 (set_ticks n s1) =
    (Returned sid,
     set_last_activity (odict_set device_id (clock n) (last_activity s1))
       (set_ticks (S n) (set_ticks n s1)))).
  { intros He. by rewrite (get_or_create_session_within_gap _ _ _ sid (clock (ticks s))). }
  split_and!; [done| |].
  - intros He. eexists. split; [by apply Hwithin|]. simpl.
    by rewrite odict_lookup_set_eq.
  - intros sid' s2 H2 Hne. destruct (Z.lt_ge_cases gap_seconds elapsed) as [?|He]; [done|].
    rewrite Hwithin in H2 by lia. by injection H2 as <- _.
Qed.


(** *** Closing *)

Lemma end_time_of_elem sid x (d : database) :
  end_time_of sid d = Some x → sid ∈ s_session_id <$> sessions d.
Proof.
  unfold end_time_of. destruct (List.find _ _) as [r|] eqn:E; [|done]. intros _.
  apply find_some in E as [Hin Hr%bool_decide_eq_true]. subst sid.
  apply list_elem_of_fmap_2. by apply list_elem_of_In.
Qed.

(** The lazy closure: in a resolve that finds the gap exceeded, the end time
    stored is the clock reading made by [update_session_end_time]. *)
Lemma lazy_close_end_time device_id name s sid la :
  odict_lookup device_id (active_sessions s) = Some sid →
  odict_lookup device_id (last_activity s) = Some la →
  sid ∈ s_session_id <$> sessions (db s) →
  gap_seconds < clock (ticks s) - la →
  end_time_of sid (db (get_or_create_session device_id name s).2)
  = Some (Some (clock (S (ticks s)))).
Proof.
  intros Ha Hl Hin Hgap.
  unfold SessionManager.get_or_create_session. unfold bind at 1. unfold time_time at 1.
  set (s0 := set_ticks (S (ticks s)) s).
  assert (Hmem : ∃ o s1, in_memory_session device_id (clock (ticks s)) s0 = (o, s1)
                 ∧ o ≠ Returned (Some sid)
                 ∧ (∀ sid', o ≠ Returned (Some sid'))
                 ∧ end_time_of sid (db s1) = Some (Some (clock (S (ticks s))))).
  { unfold SessionManager.in_memory_session, bind, get. simpl. rewrite Ha. simpl.
    rewrite Hl. simpl. destruct (Z.ltb_spec gap_seconds (clock (ticks s) - la)); [|lia].
    pose proof (close_session_cases device_id s0) as Hc. simpl in Hc. rewrite Ha in Hc.
    destruct Hc as (active' & Hd & ->). simpl.
    destruct (odict_del device_id (last_activity s)); simpl; eexists _, _;
      (split_and!; [done|done|done|]); simpl; by apply end_time_of_update_eq. }
  destruct Hmem as (o & s1 & Hm & _ & Hnone & Hend).
  unfold bind. rewrite Hm. destruct o as [[sid'|]|e]; simpl.
  - by destruct (Hnone sid').
  - by apply stored_or_new_session_end_time.
  - done.
Qed.

Lemma close_session_closed_after t0 sid device_id s :
  closed_after t0 sid s → closed_after t0 sid (close_session device_id s).2.
Proof.
  intros (k & Hk & Hend). pose proof (close_session_cases device_id s) as Hc.
  destruct (odict_lookup device_id (active_sessions s)) as [sid'|]; [|by rewrite Hc; exists k].
  destruct Hc as (active' & _ & ->).
  assert (Hdb : closed_after t0 sid
    (State (closed_db sid' s) active' (last_activity s) (S (S (ticks s))) (uuids s))).
  { unfold closed_after, closed_db. simpl. destruct (decide (sid' = sid)) as [->|Hne].
    - exists (ticks s). split; [lia|]. apply end_time_of_update_eq.
      by eapply end_time_of_elem.
    - exists k. split; [lia|]. by rewrite end_time_of_update_ne. }
  by destruct (odict_del device_id (last_activity s)).
Qed.

Lemma close_session_pending device_id la items s :
  pending_keys ((device_id, la) :: items) s →
  ∃ s', close_session device_id s = (Returned tt, s')
        ∧ pending_keys items s'
        ∧ (ticks s ≤ ticks s')%nat
        ∧ (s_session_id <$> sessions (db s')) = (s_session_id <$> sessions (db s))
        ∧ ∀ d, d ≠ device_id →
            odict_lookup d (active_sessions s') = odict_lookup d (active_sessions s).
Proof.
  intros [Hnd Hkeys]. simpl in Hnd. apply NoDup_cons in Hnd as [Hfresh Hnd].
  pose proof (close_session_cases device_id s) as Hc.
  destruct (odict_lookup device_id (active_sessions s)) as [sid'|].
  - destruct Hc as (active' & Hd & ->).
    destruct (odict_del_is_Some device_id (last_activity s)) as [last' Hl].
    { apply Hkeys. simpl. by left. }
    rewrite Hl. eexists. split; [done|]. simpl. split_and!.
    + split; [done|]. intros k Hk. simpl.
      rewrite (odict_lookup_del_ne device_id k _ _ Hl) by (by intros ->).
      apply Hkeys. simpl. by right.
    + lia.
    + apply session_ids_update.
    + intros d Hne. by apply (odict_lookup_del_ne device_id d _ _ Hd).
  - exists s. rewrite Hc. split_and!; try done.
    split; [done|]. intros k Hk. apply Hkeys. simpl. by right.
Qed.

Lemma sweep_closed_after ct t0 sid items : ∀ s,
  closed_after t0 sid s → pending_keys items s →
  ∃ s', sweep ct items s = (Returned tt, s') ∧ closed_after t0 sid s'.
Proof.
  induction items as [|[d la] items IH]; intros s Hq Hp; simpl.
  { by exists s. }
  unfold bind. destruct (gap_seconds <? ct - la).
  - pose proof (close_session_closed_after t0 sid d s Hq) as Hq'.
    destruct (close_session_pending d la items s Hp) as (s1 & Hs1 & Hp1 & _).
    rewrite Hs1 in Hq' |- *. by apply IH.
  - simpl. apply IH; [done|]. destruct Hp as [Hnd Hk]. split.
    + simpl in Hnd. by apply NoDup_cons in Hnd as [_ ?].
    + intros k Hin. apply Hk. simpl. by right.
Qed.

Lemma sweep_closes ct t0 device_id sid la items : ∀ s,
  odict_lookup device_id items = Some la →
  gap_seconds < ct - la →
  odict_lookup device_id (active_sessions s) = Some sid →
  sid ∈ s_session_id <$> sessions (db s) →
  (t0 < ticks s)%nat →
  pending_keys items s →
  ∃ s', sweep ct items s = (Returned tt, s') ∧ closed_after t0 sid s'.
Proof.
  induction items as [|[d l] items IH]; intros s Hit Hgap Ha Hin Ht Hp; simpl in *; [done|].
  unfold bind. destruct (decide (d = device_id)) as [->|Hne].
  - injection Hit as ->. destruct (Z.ltb_spec gap_seconds (ct - la)); [|lia].
    destruct (close_session_pending device_id la items s Hp) as (s1 & Hs1 & Hp1 & _).
    rewrite Hs1. apply sweep_closed_after; [|done].
    pose proof (close_session_cases device_id s) as Hc. rewrite Ha in Hc.
    destruct Hc as (active' & _ & Hc). rewrite Hs1 in Hc.
    exists (ticks s). destruct (odict_del device_id (last_activity s)); [|done].
    injection Hc as ->. simpl. split; [lia|]. by apply end_time_of_update_eq.
  - assert (Hstep : ∃ s1,
      (if gap_seconds <? ct - l then close_session d else ret tt) s = (Returned tt, s1)
      ∧ pending_keys items s1 ∧ (ticks s ≤ ticks s1)%nat
      ∧ (s_session_id <$> sessions (db s1)) = (s_session_id <$> sessions (db s))
      ∧ odict_lookup device_id (active_sessions s1) = Some sid).
    { destruct (gap_seconds <? ct - l).
      - destruct (close_session_pending d l items s Hp) as (s1 & Hs1 & Hp1 & Ht1 & Hids & Hact).
        exists s1. split_and!; try done. by rewrite Hact.
      - exists s. split_and!; try done. destruct Hp as [Hnd Hk]. split.
        + simpl in Hnd. by apply NoDup_cons in Hnd as [_ ?].
        + intros k Hk'. apply Hk. simpl. by right. }
    destruct Hstep as (s1 & -> & Hp1 & Ht1 & Hids & Ha1).
    apply IH; try done; [by rewrite Hids|lia].
Qed.

Lemma odict_lookup_is_Some {V} (k : string) (d : list (string * V)) :
  k ∈ d.*1 → is_Some (odict_lookup k d).
Proof.
  induction d as [|[k0 v0] d IH]; simpl; [by intros ?%elem_of_nil|].
  intros Hin. destruct (decide (k0 = k)); [by eexists|].
  apply elem_of_cons in Hin as [?|?]; [congruence|]. by apply IH.
Qed.

(** The eager closure: the sweep returns, and the end time stored for a
    stale session is a clock reading made during the sweep, after the one
    that the sweep compares the activity times with. *)
Lemma sweep_close_end_time device_id s sid la :
  odict_lookup device_id (active_sessions s) = Some sid →
  odict_lookup device_id (last_activity s) = Some la →
  sid ∈ s_session_id <$> sessions (db s) →
  gap_seconds < clock (ticks s) - la →
  NoDup ((last_activity s).*1) →
  ∃ k s', (ticks s < k < ticks s')%nat
    ∧ check_inactive_sessions s = (Returned tt, s')
    ∧ end_time_of sid (db s') = Some (Some (clock k)).
Proof.
  intros Ha Hl Hin Hgap Hnd.
  unfold SessionManager.check_inactive_sessions, bind, time_time, get. simpl.
  destruct (sweep_closes (clock (ticks s)) (ticks s) device_id sid la (last_activity s)
              (set_ticks (S (ticks s)) s)) as (s' & Hs' & k & Hk & Hend); try done.
  - simpl. lia.
  - split; [done|]. intros k Hk. simpl. by apply odict_lookup_is_Some.
  - exists k, s'. split; [simpl in Hk; lia|done].
Qed.


(** C2 (as amended).  When a session is closed because the inactivity gap
    was exceeded, the end time stored for it is the clock reading that
    [update_session_end_time] makes at the moment of closing: the reading
    that follows the resolve's own one in the lazy case, a reading made
    during the sweep, after the one the sweep began with, in the eager
    case.  With a clock that does not run backwards, every reading made
    after the gap test, these two included, is later than the last activity
    time recorded for the device by more than [gap_seconds]. *)
Theorem closed_session_end_time device_id s sid la :
  odict_lookup device_id (active_sessions s) = Some sid →
  odict_lookup device_id (last_activity s) = Some la →
  sid ∈ s_session_id <$> sessions (db s) →
  gap_seconds < clock (ticks s) - la →
  (∀ name,
     end_time_of sid (db (get_or_create_session device_id name s).2)
     = Some (Some (clock (S (ticks s)))))
  ∧ (NoDup ((last_activity s).*1) →
     ∃ k s', (ticks s < k < ticks s')%nat
       ∧ check_inactive_sessions s = (Returned tt, s')
       ∧ end_time_of sid (db s') = Some (Some (clock k)))
  ∧ ((∀ i j, (i ≤ j)%nat → clock i ≤ clock j) →
     ∀ k, (ticks s < k)%nat → gap_seconds < clock k - la).
Proof.
  intros Ha Hl Hin Hgap. split_and!.
  - intros name. by apply lazy_close_end_time with (la := la).
  - intros Hnd. by apply sweep_close_end_time with (device_id := device_id) (la := la).
  - intros Hmono k Hk. specialize (Hmono (ticks s) k). lia.
Qed.

End ManagerLaws.


(** Witness of C6: "D1" is resolved at t = 0 and again at t = 10, with a gap
    of 300. *)
Lemma resolve_is_stable_witness :
  let clock := λ n : nat, 10 * Z.of_nat n in
  let uuid := λ _ : nat, "cd" in
  let s1 := (get_or_create_session clock uuid 300 "D1" None example_state).2 in
  let elapsed := clock 1%nat - clock (ticks example_state) in
  odict_lookup "D1" (last_activity s1) = Some (clock (ticks example_state))
  ∧ (elapsed ≤ 300 →
     ∃ s2, get_or_create_session clock uuid 300 "D1" None (set_ticks 1 s1)
           = (Returned "session_ab_0", s2)
       ∧ db s2 = db s1
       ∧ active_sessions s2 = active_sessions s1
       ∧ odict_lookup "D1" (last_activity s2) = Some (clock 1%nat))
  ∧ (∀ sid' s2,
       get_or_create_session clock uuid 300 "D1" None (set_ticks 1 s1) = (Returned sid', s2) →
       sid' ≠ "session_ab_0" → 300 < elapsed).
Proof.
  intros clock uuid s1 elapsed.
  apply (resolve_is_stable clock uuid 300 "D1" None None example_state "session_ab_0" s1 1).
  reflexivity.
Defined.

(** Witness of C2: "D1" was last active at t = 0 and the clock reads 301,
    302, ... with a gap of 300. *)
Lemma closed_session_end_time_witness :
  let clock := λ n : nat, 301 + Z.of_nat n in
  let uuid := λ _ : nat, "cd" in
  (∀ name,
     end_time_of "session_ab_0"
       (db (get_or_create_session clock uuid 300 "D1" name example_state).2)
     = Some (Some (clock 1%nat)))
  ∧ (∃ k s', (ticks example_state < k < ticks s')%nat
       ∧ check_inactive_sessions clock 300 example_state = (Returned tt, s')
       ∧ end_time_of "session_ab_0" (db s') = Some (Some (clock k)))
  ∧ (∀ k, (ticks example_state < k)%nat → 300 < clock k - 0).
Proof.
  intros clock uuid.
  destruct (closed_session_end_time clock uuid 300 "D1" example_state "session_ab_0" 0)
    as (Hlazy & Heager & Hlater).
  - reflexivity.
  - reflexivity.
  - simpl. apply list_elem_of_singleton. reflexivity.
  - subst clock. simpl. lia.
  - split_and!; [exact Hlazy| |].
    + apply Heager. simpl. apply NoDup_singleton.
    + apply Hlater. intros i j Hij. subst clock. simpl. lia.
Defined.

(** Counterexample to C2 as stated: "D1" was last active at t = 0; the
    resolve at t = 301 and the sweep at t = 301 both store 302, the clock
    reading at the moment of closing, as the end time of its session, not 0. *)
Lemma closed_session_end_time_is_now :
  let clock := λ n : nat, 301 + Z.of_nat n in
  let uuid := λ _ : nat, "cd" in
  odict_lookup "D1" (last_activity example_state) = Some 0
  ∧ end_time_of "session_ab_0"
      (db (get_or_create_session clock uuid 300 "D1" None example_state).2)
    = Some (Some 302)
  ∧ end_time_of "session_ab_0" (db (check_inactive_sessions clock 300 example_state).2)
    = Some (Some 302)
  ∧ Some (Some 302) ≠ Some (Some 0).
Proof. by vm_compute. Qed.

End SessionLaws.

(** ** Laws of the reconnection loop *)

Module ReconnectLaws.
Import DataLogger.

Lemma backoff_S count n :
  0 ≤ count →
  backoff count (S n) = Connect :: Sleep (Z.min (2 ^ (count + 1)) 30) :: backoff (count + 1) n.
Proof.
  intros Hc. unfold backoff. rewrite Nat2Z.inj_succ, seqZ_cons by lia.
  rewrite Z.pred_succ. by replace (Z.succ (count + 1)) with (count + 1 + 1) by lia.
Qed.

(** Failures in a row while the count stays within [max_retries]: each is
    followed by a wait and another attempt. *)
Lemma connect_loop_failures n : ∀ count rest,
  0 ≤ count → count + Z.of_nat n ≤ max_retries →
  connect_loop count (replicate n failure ++ rest) =
  (backoff count n ++ (connect_loop (count + Z.of_nat n) rest).1,
   (connect_loop (count + Z.of_nat n) rest).2).
Proof.
  induction n as [|n IH]; intros count rest Hc Hn.
  { simpl. rewrite Z.add_0_r. by destruct (connect_loop count rest). }
  rewrite backoff_S by done. simpl.
  destruct (Z.ltb_spec max_retries (count + 1)); [lia|].
  rewrite IH by lia. simpl.
  by replace (count + 1 + Z.of_nat n) with (count + Z.pos (Pos.of_succ_nat n)) by lia.
Qed.

(** C5 (as amended).  While the service is running, each failed connection
    attempt is followed by a wait of min(2^k, 30) seconds and another
    attempt as long as no more than 10 attempts have failed in a row; the
    11th failure in a row ends the loop ("Max retries exceeded") without
    another attempt.  Every connection that was established, whether it was
    then dropped or its stream ended, resets the count: whatever the count
    was, the loop waits 2 seconds and goes on with a count of 1.  An invalid
    URL ends the loop at once, whatever the count. *)
Theorem reconnection_is_bounded (n : nat) (rest : list round) :
  ((n ≤ 10)%nat →
   connect_and_consume (replicate n failure ++ rest) =
   (backoff 0 n ++ (connect_loop (Z.of_nat n) rest).1, (connect_loop (Z.of_nat n) rest).2))
  ∧ ((11 ≤ n)%nat →
     connect_and_consume (replicate n failure ++ rest) =
     (backoff 0 10 ++ [Connect], Exited MaxRetries))
  ∧ (∀ count res, res = Dropped ∨ res = Ended →
     connect_loop count (Round true res true :: rest) =
     (Connect :: Sleep 2 :: (connect_loop 1 rest).1, (connect_loop 1 rest).2))
  ∧ (∀ count running_after,
     connect_loop count (Round true InvalidURI running_after :: rest) =
     ([Connect], Exited BadURI))
  ∧ (∀ count, count ≤ 9 →
     ∃ acts st, connect_loop count (failure :: rest) = (Connect :: Sleep (Z.min (2 ^ (count + 1)) 30) :: acts, st)).
Proof.
  unfold connect_and_consume. split_and!.
  - intros Hn. rewrite connect_loop_failures; [done|lia|unfold max_retries; lia].
  - intros Hn. replace n with (10 + S (n - 11))%nat by lia.
    rewrite replicate_add, <- app_assoc.
    rewrite connect_loop_failures; [|lia|unfold max_retries; lia].
    reflexivity.
  - intros count res [-> | ->]; reflexivity.
  - intros count running_after. reflexivity.
  - intros count Hc. simpl.
    destruct (Z.ltb_spec max_retries (count + 1)); [unfold max_retries in *; lia|].
    by eexists _, _.
Qed.

(** Counterexample to C5 as stated: after 11 connection failures in a row,
    with the service running throughout, the loop has exited and the 12th
    round is never attempted: there are 11 attempts, not 12. *)
Lemma eleventh_failure_exits :
  (connect_and_consume (replicate 12 failure)).2 = Exited MaxRetries
  ∧ attempts (connect_and_consume (replicate 12 failure)).1 = 11%nat.
Proof. by vm_compute. Qed.

End ReconnectLaws.

(** ** Laws of the decoder *)

Module DecoderLaws.
Import DataProcessor Decoder.

Local Arguments num_lt : simpl never.

Lemma lookup_copy_field k key target (data p : gmap string pyval) :
  copy_field key target data p !! k
  = if decide (target = k)
    then match data !! key with Some v => Some v | None => p !! k end
    else p !! k.
Proof.
  unfold copy_field. destruct (data !! key) as [v|].
  - rewrite lookup_insert. by destruct (decide (target = k)).
  - by destruct (decide (target = k)).
Qed.

Lemma only_record_keys_insert k v p :
  k ∈ record_keys → only_record_keys p → only_record_keys (<[k := v]> p).
Proof.
  intros Hk Hp k'. rewrite lookup_insert. destruct (decide (k = k')) as [<-|]; [done|].
  apply Hp.
Qed.

Lemma only_record_keys_copy key target data p :
  target ∈ record_keys → only_record_keys p → only_record_keys (copy_field key target data p).
Proof.
  intros Hk Hp. unfold copy_field. destruct (data !! key); [|done].
  by apply only_record_keys_insert.
Qed.

Local Ltac in_keys := unfold record_keys; rewrite !elem_of_cons; tauto.
Local Ltac not_in_keys :=
  rewrite !not_elem_of_cons; split_and!; try done; apply not_elem_of_nil.

Section Laws.
Variable div_3_6 : pyval → option pyval.
Variable rmssd : pyval → option pyval.

Local Abbreviation decode_rr := (decode_rr rmssd).
Local Abbreviation decode_speed := (decode_speed div_3_6).
Local Abbreviation process_ble_data := (process_ble_data div_3_6 rmssd).

Lemma decode_rr_spec data p p' :
  decode_rr data p = Some p' →
  (∀ k, k ≠ "rr_intervals" → k ≠ "hrv_rmssd" → p' !! k = p !! k)
  ∧ p' !! "rr_intervals"
    = (if py_truthy (default (PyList []) (data !! "rr_s"))
       then Some (default (PyList []) (data !! "rr_s")) else p !! "rr_intervals")
  ∧ (only_record_keys p → only_record_keys p').
Proof.
  unfold Decoder.decode_rr.
  destruct (py_truthy _); [|by intros [= <-]].
  destruct (py_len _) as [n|]; [|done].
  destruct (1 <? n)%nat.
  - destruct (rmssd _) as [h|]; [|done]. intros [= <-]. split_and!.
    + intros k H1 H2. by rewrite !lookup_insert_ne.
    + rewrite lookup_insert_ne by done. by rewrite lookup_insert_eq.
    + intros Hp. apply only_record_keys_insert; [in_keys|].
      apply only_record_keys_insert; [in_keys|done].
  - intros [= <-]. split_and!.
    + intros k H1 H2. by rewrite lookup_insert_ne.
    + by rewrite lookup_insert_eq.
    + intros Hp. apply only_record_keys_insert; [in_keys|done].
Qed.

Lemma decode_speed_spec data p p' :
  decode_speed data p = Some p' →
  (∀ k, k ≠ "speed_mps" → p' !! k = p !! k)
  ∧ p' !! "speed_mps"
    = match data !! "speed_kph" with
      | Some kph => div_3_6 kph
      | None => match data !! "speed_mps" with Some v => Some v | None => p !! "speed_mps" end
      end
  ∧ (only_record_keys p → only_record_keys p').
Proof.
  unfold Decoder.decode_speed. destruct (data !! "speed_kph") as [kph|].
  - destruct (div_3_6 kph) as [v|]; [|done]. intros [= <-]. split_and!.
    + intros k Hk. by rewrite lookup_insert_ne.
    + by rewrite lookup_insert_eq.
    + intros Hp. apply only_record_keys_insert; [in_keys|done].
  - intros [= <-]. split_and!.
    + intros k Hk. rewrite lookup_copy_field. by rewrite decide_False.
    + rewrite lookup_copy_field. by rewrite decide_True.
    + intros Hp. apply only_record_keys_copy; [in_keys|done].
Qed.

Lemma decode_distance_spec data p :
  (∀ k, k ≠ "total_distance_m" → decode_distance data p !! k = p !! k)
  ∧ decode_distance data p !! "total_distance_m"
    = match data !! "total_distance_m" with
      | Some v => Some v
      | None => match data !! "distance_m" with
                | Some v => Some v
                | None => p !! "total_distance_m"
                end
      end
  ∧ (only_record_keys p → only_record_keys (decode_distance data p)).
Proof.
  unfold decode_distance. destruct (data !! "total_distance_m") as [v|]; split_and!.
  - intros k Hk. by rewrite lookup_insert_ne.
  - by rewrite lookup_insert_eq.
  - intros Hp. apply only_record_keys_insert; [in_keys|done].
  - intros k Hk. rewrite lookup_copy_field. by rewrite decide_False.
  - rewrite lookup_copy_field. by rewrite decide_True.
  - intros Hp. apply only_record_keys_copy; [in_keys|done].
Qed.

Lemma decode_contact_spec data p :
  (∀ k, k ≠ "contact_status" → decode_contact data p !! k = p !! k)
  ∧ decode_contact data p !! "contact_status"
    = match data !! "contact_status" with
      | Some v => Some (contact_value v)
      | None => p !! "contact_status"
      end
  ∧ (only_record_keys p → only_record_keys (decode_contact data p)).
Proof.
  unfold decode_contact.
  destruct (data !! "contact_status") as [v|]; [|by split_and!].
  assert (Hins : ∀ w,
    (∀ k, k ≠ "contact_status" → <["contact_status" := w]> p !! k = p !! k)
    ∧ <["contact_status" := w]> p !! "contact_status" = Some w
    ∧ (only_record_keys p → only_record_keys (<["contact_status" := w]> p))).
  { intros w. split_and!.
    - intros k Hk. by rewrite lookup_insert_ne.
    - by rewrite lookup_insert_eq.
    - intros Hp. apply only_record_keys_insert; [in_keys|done]. }
  destruct v; apply Hins.
Qed.

Lemma is_running_spec (p : gmap string pyval) r :
  is_running p = Some r →
  (r = 0 ∨ r = 1)
  ∧ (∀ v, p !! "speed_mps" = Some v → is_Some (py_num v))
  ∧ (r = 0 → ∀ v, p !! "cadence_spm" = Some v → is_Some (py_num v)).
Proof.
  unfold is_running, py_gt.
  destruct (p !! "speed_mps") as [s|]; simpl.
  - destruct (py_num s) as [x|] eqn:Es; [|done].
    destruct (num_lt (Finite 2) x); simpl.
    + intros [= <-]. split_and!; [by right| |done].
      intros v [= <-]. by eexists.
    + destruct (p !! "cadence_spm") as [c|]; simpl.
      * destruct (py_num c) as [y|] eqn:Ec; [|done]. intros [= <-]. split_and!.
        -- destruct (num_lt (Finite 120) y); [by right|by left].
        -- intros v [= <-]. by eexists.
        -- intros _ v [= <-]. by eexists.
      * intros [= <-]. split_and!; [by left| |done].
        intros v [= <-]. by eexists.
  - destruct (p !! "cadence_spm") as [c|]; simpl.
    + destruct (py_num c) as [y|] eqn:Ec; [|done]. intros [= <-]. split_and!; [|done|].
      * destruct (num_lt (Finite 120) y); [by right|by left].
      * intros _ v [= <-]. by eexists.
    + intros [= <-]. split_and!; [by left|done|done].
Qed.

(** The fields of a record that the decoder returns. *)
Lemma process_ble_data_fields now data processed :
  process_ble_data now data = Some processed →
  processed !! "timestamp" = Some (default now (data !! "ts_unix_s"))
  ∧ processed !! "hr_bpm" = Some (default PyNone (data !! "hr_bpm"))
  ∧ processed !! "battery_pct" = Some (default PyNone (data !! "battery_pct"))
  ∧ processed !! "raw_payload" = Some (default PyNone (data !! "raw_payload"))
  ∧ processed !! "rr_intervals"
    = (if py_truthy (default (PyList []) (data !! "rr_s")) then data !! "rr_s" else None)
  ∧ processed !! "speed_mps"
    = match data !! "speed_kph" with
      | Some kph => div_3_6 kph
      | None => data !! "speed_mps"
      end
  ∧ processed !! "cadence_spm" = data !! "cadence_spm"
  ∧ processed !! "stride_length_cm" = data !! "stride_length_cm"
  ∧ processed !! "total_distance_m"
    = match data !! "total_distance_m" with
      | Some v => Some v
      | None => data !! "distance_m"
      end
  ∧ processed !! "contact_status" = contact_value <$> data !! "contact_status"
  ∧ (∃ r, processed !! "is_running" = Some (PyInt r) ∧ (r = 0 ∨ r = 1)
          ∧ (r = 0 → ∀ v, processed !! "cadence_spm" = Some v → is_Some (py_num v)))
  ∧ (∀ v, processed !! "speed_mps" = Some v → is_Some (py_num v))
  ∧ only_record_keys processed.
Proof.
  unfold Decoder.process_ble_data.
  set (p0 := <["raw_payload" := _]> _).
  assert (H0 : p0 !! "timestamp" = Some (default now (data !! "ts_unix_s"))
               ∧ p0 !! "hr_bpm" = Some (default PyNone (data !! "hr_bpm"))
               ∧ p0 !! "battery_pct" = Some (default PyNone (data !! "battery_pct"))
               ∧ p0 !! "raw_payload" = Some (default PyNone (data !! "raw_payload"))
               ∧ (∀ k, k ∉ ["timestamp"; "hr_bpm"; "battery_pct"; "raw_payload"] → p0 !! k = None)
               ∧ only_record_keys p0).
  { unfold p0. split_and!.
    - rewrite !lookup_insert_ne by done. by rewrite lookup_insert_eq.
    - rewrite !lookup_insert_ne by done. by rewrite lookup_insert_eq.
    - rewrite !lookup_insert_ne by done. by rewrite lookup_insert_eq.
    - by rewrite lookup_insert_eq.
    - intros k Hk. rewrite !not_elem_of_cons in Hk. destruct Hk as (? & ? & ? & ? & _).
      rewrite !lookup_insert_ne by done. apply lookup_empty.
    - do 4 (apply only_record_keys_insert; [in_keys|]).
      intros k. rewrite lookup_empty. by intros [? ?]. }
  destruct H0 as (Ht & Hh & Hb & Hr & Hnone & Hk0).
  destruct (decode_rr data p0) as [p1|] eqn:E1; [|done].
  apply decode_rr_spec in E1 as (E1 & R1 & K1).
  destruct (decode_speed data p1) as [p2|] eqn:E2; [|done].
  apply decode_speed_spec in E2 as (E2 & S2 & K2).
  set (p3 := copy_field "cadence_spm" "cadence_spm" data p2).
  set (p4 := copy_field "stride_length_cm" "stride_length_cm" data p3).
  destruct (decode_distance_spec data p4) as (E5 & D5 & K5).
  set (p5 := decode_distance data p4) in *.
  destruct (decode_contact_spec data p5) as (E6 & C6 & K6).
  set (p6 := decode_contact data p5) in *.
  destruct (is_running p6) as [r|] eqn:E7; [|done].
  apply is_running_spec in E7 as (Hr01 & Hspeed & Hcad).
  intros [= <-].
  assert (Hpath : ∀ k, k ∉ ["rr_intervals"; "hrv_rmssd"; "speed_mps"; "cadence_spm";
                            "stride_length_cm"; "total_distance_m"; "contact_status";
                            "is_running"] →
                       <["is_running" := PyInt r]> p6 !! k = p0 !! k).
  { intros k Hk. rewrite !not_elem_of_cons in Hk.
    destruct Hk as (? & ? & ? & ? & ? & ? & ? & ? & _).
    rewrite lookup_insert_ne, E6, E5 by done. unfold p4, p3.
    rewrite !lookup_copy_field, !decide_False by done. rewrite E2, E1; done. }
  assert (Hsp : p6 !! "speed_mps"
                = match data !! "speed_kph" with
                  | Some kph => div_3_6 kph
                  | None => data !! "speed_mps"
                  end).
  { rewrite E6, E5 by done. unfold p4, p3.
    rewrite !lookup_copy_field, !decide_False by done. rewrite S2.
    destruct (data !! "speed_kph"); [done|].
    destruct (data !! "speed_mps"); [done|].
    rewrite E1 by done. apply Hnone. not_in_keys. }
  assert (Hca : p6 !! "cadence_spm" = data !! "cadence_spm").
  { rewrite E6, E5 by done. unfold p4, p3.
    rewrite lookup_copy_field, decide_False by done.
    rewrite lookup_copy_field, decide_True by done.
    destruct (data !! "cadence_spm"); [done|].
    rewrite E2, E1 by done. apply Hnone. not_in_keys. }
  split_and!.
  - rewrite Hpath; [done|]. not_in_keys.
  - rewrite Hpath; [done|]. not_in_keys.
  - rewrite Hpath; [done|]. not_in_keys.
  - rewrite Hpath; [done|]. not_in_keys.
  - rewrite lookup_insert_ne, E6, E5 by done. unfold p4, p3.
    rewrite !lookup_copy_field, !decide_False by done. rewrite E2, R1 by done.
    destruct (data !! "rr_s") as [rr|]; simpl; [by destruct (py_truthy rr)|].
    apply Hnone. not_in_keys.
  - by rewrite lookup_insert_ne.
  - by rewrite lookup_insert_ne.
  - rewrite lookup_insert_ne, E6, E5 by done. unfold p4, p3.
    rewrite lookup_copy_field, decide_True by done.
    destruct (data !! "stride_length_cm"); [done|].
    rewrite lookup_copy_field, decide_False by done.
    rewrite E2, E1 by done. apply Hnone. not_in_keys.
  - rewrite lookup_insert_ne, E6, D5 by done.
    destruct (data !! "total_distance_m"); [done|].
    destruct (data !! "distance_m"); [done|]. unfold p4, p3.
    rewrite !lookup_copy_field, !decide_False by done.
    rewrite E2, E1 by done. apply Hnone. not_in_keys.
  - rewrite lookup_insert_ne, C6 by done.
    destruct (data !! "contact_status"); [done|]. simpl.
    rewrite E5 by done. unfold p4, p3.
    rewrite !lookup_copy_field, !decide_False by done.
    rewrite E2, E1 by done. apply Hnone. not_in_keys.
  - exists r. rewrite lookup_insert_eq. split_and!; [done..|].
    intros Hz v. rewrite lookup_insert_ne by done. by apply Hcad.
  - intros v. rewrite lookup_insert_ne by done. apply Hspeed.
  - apply only_record_keys_insert; [in_keys|].
    apply K6, K5. unfold p4, p3.
    do 2 (apply only_record_keys_copy; [in_keys|]). by apply K2, K1.
Qed.

(** X1.  A record that the decoder returns holds its four base fields whatever
    the message holds, with [None] for a missing one and the clock only for
    a missing [ts_unix_s]; when the message has [speed_kph] the speed is
    what the conversion makes of that value alone, even if the message has
    [speed_mps] too, and otherwise it is [speed_mps] unchanged (what the
    conversion computes is a parameter here, so nothing is said about the
    quotient); the distance is [total_distance_m] before [distance_m]; a
    contact status given as text is replaced by its code; [is_running] is 0
    or 1; and the record holds no key outside the twelve of [record_keys]. *)
Theorem decoded_record_fields now data processed :
  process_ble_data now data = Some processed →
  processed !! "timestamp" = Some (default now (data !! "ts_unix_s"))
  ∧ processed !! "hr_bpm" = Some (default PyNone (data !! "hr_bpm"))
  ∧ processed !! "battery_pct" = Some (default PyNone (data !! "battery_pct"))
  ∧ processed !! "raw_payload" = Some (default PyNone (data !! "raw_payload"))
  ∧ processed !! "speed_mps"
    = match data !! "speed_kph" with
      | Some kph => div_3_6 kph
      | None => data !! "speed_mps"
      end
  ∧ processed !! "cadence_spm" = data !! "cadence_spm"
  ∧ processed !! "stride_length_cm" = data !! "stride_length_cm"
  ∧ processed !! "total_distance_m"
    = match data !! "total_distance_m" with
      | Some v => Some v
      | None => data !! "distance_m"
      end
  ∧ processed !! "contact_status" = contact_value <$> data !! "contact_status"
  ∧ (processed !! "is_running" = Some (PyInt 0) ∨ processed !! "is_running" = Some (PyInt 1))
  ∧ only_record_keys processed.
Proof.
  intros H. apply process_ble_data_fields in H.
  destruct H as (Ht & Hh & Hb & Hp & _ & Hs & Hc & Hl & Hd & Hcs & (r & Hr & Hr01 & _) & _ & Hk).
  split_and!; try done.
  destruct Hr01 as [-> | ->]; [by left|by right].
Qed.

(** X2.  A message whose speed is no number makes the decoder raise: with no
    [speed_kph], a [speed_mps] that is [None], text or a list is copied and
    then compared with 2.0.  The validator, which would take a [None] speed
    for an absent one, is not reached. *)
Theorem decoder_raises_on_speed_that_is_no_number now data v :
  data !! "speed_kph" = None →
  data !! "speed_mps" = Some v →
  py_num v = None →
  process_ble_data now data = None.
Proof.
  intros Hkph Hmps Hnum.
  destruct (process_ble_data now data) as [processed|] eqn:E; [|done].
  apply process_ble_data_fields in E.
  destruct E as (_ & _ & _ & _ & _ & Hs & _ & _ & _ & _ & _ & Hspeed & _).
  rewrite Hkph, Hmps in Hs. destruct (Hspeed v Hs) as [x Hx]. congruence.
Qed.

(** X3.  The validator never finds a decoded record empty, and when it reports
    its speed the speed is a number (an infinity included) that compares
    below 0 or above 20: the validator's type test on the speed never fires
    after the decoder. *)
Theorem decoded_record_speed_is_a_number now data processed :
  process_ble_data now data = Some processed →
  (validate_data processed).1 ≠ Some EmptyData
  ∧ ∀ v, (validate_data processed).1 = Some (InvalidSpeed v) →
         ∃ x, py_num v = Some x
              ∧ (num_lt x (Finite 0) = true ∨ num_lt (Finite 20) x = true).
Proof.
  intros H. apply process_ble_data_fields in H.
  destruct H as (Ht & _ & _ & _ & _ & _ & _ & _ & _ & _ & _ & Hspeed & _).
  assert (Hne : processed ≠ ∅).
  { intros ->. by rewrite lookup_empty in Ht. }
  unfold validate_data, dict_get. rewrite decide_False by done.
  destruct (is_not_none (default PyNone (processed !! "hr_bpm")) && _);
    [simpl; (split; [done|]); intros v Hv; discriminate Hv|].
  destruct (is_not_none (default PyNone (processed !! "battery_pct")) && _);
    [simpl; (split; [done|]); intros v Hv; discriminate Hv|].
  destruct (is_not_none (default PyNone (processed !! "speed_mps")) && _) eqn:Es.
  2:{ destruct (is_not_none (default PyNone (processed !! "cadence_spm")) && _);
        simpl; (split; [done|]); intros v Hv; discriminate Hv. }
  split; [done|]. intros v [= <-].
  apply andb_prop in Es as [Hnn Hout].
  destruct (processed !! "speed_mps") as [w|] eqn:Ew; [|done]. simpl in *.
  destruct (Hspeed w eq_refl) as [x Hx]. exists x. split; [done|].
  unfold out_of_range in Hout. rewrite Hx in Hout.
  by apply orb_prop in Hout.
Qed.

End Laws.

Section Stored.
Variable div_3_6 : pyval → option pyval.
Variable rmssd : pyval → option pyval.
Variable json_dumps : pyval → string.

(** X4.  What is stored of a decoded record: the timestamp is the one the
    decoder chose, never the clock at the time of the insert; the RR
    intervals are stored as text exactly when the message has a non-empty
    [rr_s]; [is_running] is stored as 0 or 1; and the heart-rate
    variability that the decoder computed is not stored, the tuple being the
    same with and without it. *)
Theorem stored_tuple_of_decoded_record now data processed session_id now' :
  process_ble_data div_3_6 rmssd now data = Some processed →
  let t := prepare json_dumps session_id now' processed in
  i_timestamp t = default now (data !! "ts_unix_s")
  ∧ i_rr_json t
    = (if py_truthy (default (PyList []) (data !! "rr_s"))
       then json_dumps <$> data !! "rr_s" else None)
  ∧ (i_is_running t = PyInt 0 ∨ i_is_running t = PyInt 1)
  ∧ prepare json_dumps session_id now' (delete "hrv_rmssd" processed) = t.
Proof.
  intros H t. apply process_ble_data_fields in H.
  destruct H as (Ht & _ & _ & _ & Hrr & _ & _ & _ & _ & _ & (r & Hr & Hr01 & _) & _).
  unfold t, prepare. simpl. split_and!.
  - by rewrite Ht.
  - rewrite Hrr. destruct (data !! "rr_s") as [rr|]; simpl; [|done].
    by destruct (py_truthy rr) eqn:E; [rewrite E|].
  - rewrite Hr. simpl. destruct Hr01 as [-> | ->]; [by left|by right].
  - by rewrite !lookup_delete_ne.
Qed.

End Stored.

(** X5.  The validator reads four fields of a record and nothing else: two
    non-empty records that agree on the heart rate, the battery level, the
    speed and the cadence, a missing field counting as [None], get the same
    verdict.  The timestamp in particular is never looked at. *)
Theorem validate_data_reads_only_four_fields (d1 d2 : gmap string pyval) :
  d1 ≠ ∅ → d2 ≠ ∅ →
  (∀ k, k ∈ ["hr_bpm"; "battery_pct"; "speed_mps"; "cadence_spm"] →
        default PyNone (d1 !! k) = default PyNone (d2 !! k)) →
  (validate_data d1).1 = (validate_data d2).1.
Proof.
  intros H1 H2 Heq. unfold validate_data, dict_get.
  rewrite !decide_False by done.
  rewrite (Heq "hr_bpm"), (Heq "battery_pct"), (Heq "speed_mps"), (Heq "cadence_spm")
    by (rewrite !elem_of_cons; tauto).
  repeat (destruct (_ && _); [done|]). done.
Qed.

(** *** Witnesses *)

(** Witness of X1: the record decoded from [example_message], which has both
    speeds: the speed is 9 km/h over 3.6, the distance that of [distance_m],
    the contact code 2. *)
Lemma decoded_record_fields_witness :
  example_processed !! "timestamp" = Some (PyInt 100)
  ∧ example_processed !! "hr_bpm" = Some (PyInt 72)
  ∧ example_processed !! "battery_pct" = Some PyNone
  ∧ example_processed !! "raw_payload" = Some PyNone
  ∧ example_processed !! "speed_mps" = Some (PyFloat (inject_Z 9 / (36 # 10)))
  ∧ example_processed !! "cadence_spm" = None
  ∧ example_processed !! "stride_length_cm" = None
  ∧ example_processed !! "total_distance_m" = Some (PyInt 5)
  ∧ example_processed !! "contact_status" = Some (PyInt 2)
  ∧ (example_processed !! "is_running" = Some (PyInt 0)
     ∨ example_processed !! "is_running" = Some (PyInt 1))
  ∧ only_record_keys example_processed.
Proof.
  apply (decoded_record_fields example_div_3_6 example_rmssd (PyInt 100) example_message
           example_processed).
  reflexivity.
Defined.

(** Witness of X2: a message with ["speed_mps": null]. *)
Lemma decoder_raises_on_speed_that_is_no_number_witness :
  process_ble_data example_div_3_6 example_rmssd (PyInt 100) example_null_speed = None.
Proof.
  apply (decoder_raises_on_speed_that_is_no_number example_div_3_6 example_rmssd (PyInt 100)
           example_null_speed PyNone); reflexivity.
Defined.

(** Witness of X3: the record decoded from [example_message]. *)
Lemma decoded_record_speed_is_a_number_witness :
  (validate_data example_processed).1 ≠ Some EmptyData
  ∧ ∀ v, (validate_data example_processed).1 = Some (InvalidSpeed v) →
         ∃ x, py_num v = Some x
              ∧ (num_lt x (Finite 0) = true ∨ num_lt (Finite 20) x = true).
Proof.
  apply (decoded_record_speed_is_a_number example_div_3_6 example_rmssd (PyInt 100)
           example_message example_processed).
  reflexivity.
Defined.

(** Witness of X4: the record decoded at the clock reading 100 and stored at
    500. *)
Lemma stored_tuple_of_decoded_record_witness :
  let json_dumps := λ _ : pyval, "[0.8, 0.9]" in
  let t := prepare json_dumps "session_cd_301" (PyInt 500) example_processed in
  i_timestamp t = PyInt 100
  ∧ i_rr_json t = Some "[0.8, 0.9]"
  ∧ (i_is_running t = PyInt 0 ∨ i_is_running t = PyInt 1)
  ∧ prepare json_dumps "session_cd_301" (PyInt 500) (delete "hrv_rmssd" example_processed) = t.
Proof.
  intros json_dumps.
  apply (stored_tuple_of_decoded_record example_div_3_6 example_rmssd json_dumps (PyInt 100)
           example_message example_processed "session_cd_301" (PyInt 500)).
  reflexivity.
Defined.

(** Witness of X5: a record with a [None] speed and one whose timestamp is
    text get the same verdict. *)
Lemma validate_data_reads_only_four_fields_witness :
  (validate_data example_null_speed).1
  = (validate_data (<["timestamp" := PyStr "soon"]> (<["hr_bpm" := PyInt 72]> ∅))).1.
Proof.
  apply validate_data_reads_only_four_fields.
  - intros H. apply (f_equal (λ m : gmap string pyval, m !! "hr_bpm")) in H. discriminate H.
  - intros H. apply (f_equal (λ m : gmap string pyval, m !! "hr_bpm")) in H. discriminate H.
  - intros k Hk. rewrite !elem_of_cons in Hk.
    destruct Hk as [-> | [-> | [-> | [-> | Hk]]]]; [reflexivity..|].
    by apply elem_of_nil in Hk.
Defined.

End DecoderLaws.

(** ** Laws of the buffering path *)

Module IngestLaws.
Import DataProcessor Ingest BufferLaws.

Section Laws.
Context {Sample : Type}.
Variable timestamp : Sample → Z.
Variable buffer_size : Z.

Local Abbreviation add_to_buffer := (add_to_buffer timestamp buffer_size).
Local Abbreviation step := (step timestamp buffer_size).
Local Abbreviation run := (run timestamp buffer_size).
Local Abbreviation wf := (wf timestamp buffer_size).
Local Abbreviation in_order := (in_order timestamp).

Lemma batches_of_nil sid : batches_of sid ([] : list (string * list Sample)) = [].
Proof. done. Qed.

Lemma batches_of_app sid (b1 b2 : list (string * list Sample)) :
  batches_of sid (b1 ++ b2) = batches_of sid b1 ++ batches_of sid b2.
Proof. unfold batches_of. by rewrite filter_app, fmap_app, concat_app. Qed.

Lemma batches_of_singleton sid sid' (rs : list Sample) :
  batches_of sid [(sid', rs)] = if decide (sid' = sid) then rs else [].
Proof.
  unfold batches_of. rewrite filter_cons. simpl.
  destruct (decide (sid' = sid)); simpl; [by rewrite app_nil_r|done].
Qed.

(** The batches of one key in the list of a map. *)
Lemma batches_of_map_to_list sid (m : gmap string (list Sample)) :
  batches_of sid (map_to_list m) = default [] (m !! sid).
Proof.
  induction m as [|k v m Hk IH] using map_ind.
  { by rewrite map_to_list_empty, lookup_empty. }
  assert (Hp : batches_of sid (map_to_list (<[k:=v]> m))
               ≡ₚ batches_of sid ((k, v) :: map_to_list m)).
  { unfold batches_of. by rewrite map_to_list_insert. }
  destruct (decide (k = sid)) as [->|Hne].
  - rewrite lookup_insert_eq. simpl.
    assert (Hnil : filter (λ b : string * list Sample, b.1 = sid) (map_to_list m) = []).
    { apply AggregateLaws.filter_none. apply Forall_forall. intros [k' v'] Hin Heq.
      simpl in Heq. subst k'. apply elem_of_map_to_list in Hin. congruence. }
    unfold batches_of.
    assert (Hf : filter (λ b : string * list Sample, b.1 = sid) (map_to_list (<[sid:=v]> m)) ≡ₚ [(sid, v)]).
    { rewrite map_to_list_insert by done. rewrite filter_cons. simpl.
      rewrite decide_True by done. by rewrite Hnil. }
    apply Permutation_singleton_r in Hf. rewrite Hf. simpl. by rewrite app_nil_r.
  - rewrite lookup_insert_ne by done. rewrite <- IH. unfold batches_of.
    assert (Hf : filter (λ b : string * list Sample, b.1 = sid) (map_to_list (<[k:=v]> m))
                 ≡ₚ filter (λ b : string * list Sample, b.1 = sid) (map_to_list m)).
    { rewrite map_to_list_insert by done. rewrite filter_cons. simpl.
      by rewrite decide_False by done. }
    (* the filtered list has at most one element, so the permutation is an equality *)
    destruct (m !! sid) as [w|] eqn:Hw.
    + assert (Hs : filter (λ b : string * list Sample, b.1 = sid) (map_to_list m) ≡ₚ [(sid, w)]).
      { rewrite <- (insert_delete_id m sid w) at 1 by done.
        rewrite map_to_list_insert by apply lookup_delete_eq.
        rewrite filter_cons. simpl. rewrite decide_True by done.
        rewrite AggregateLaws.filter_none; [done|].
        apply Forall_forall. intros [k' v'] Hin Heq. simpl in Heq. subst k'.
        apply elem_of_map_to_list in Hin. by rewrite lookup_delete_eq in Hin. }
      pose proof Hs as Hs'. rewrite <- Hf in Hs'.
      apply Permutation_singleton_r in Hs, Hs'. by rewrite Hs, Hs'.
    + assert (Hs : filter (λ b : string * list Sample, b.1 = sid) (map_to_list m) = []).
      { apply AggregateLaws.filter_none. apply Forall_forall. intros [k' v'] Hin Heq.
        simpl in Heq. subst k'. apply elem_of_map_to_list in Hin. congruence. }
      rewrite Hs in Hf |- *. apply Permutation_nil_r in Hf. by rewrite Hf.
Qed.

Lemma StronglySorted_app_drop_middle {A} (R : relation A) (l1 l2 l3 : list A) :
  StronglySorted R (l1 ++ l2 ++ l3) → StronglySorted R (l1 ++ l3).
Proof.
  rewrite !StronglySorted_app. intros (H12 & H1 & _ & H2 & H3).
  split_and!; [|done..]. intros x1 x2 Hx1 Hx2. apply H12; [done|].
  apply elem_of_app. by right.
Qed.

Lemma get_buffer_pending sid sid' (p : @processor Sample) :
  pending (get_buffer sid p).2 sid' = if decide (sid = sid') then [] else pending p sid'.
Proof.
  unfold get_buffer, pending.
  destruct (buffers p !! sid) as [q|] eqn:E; simpl.
  - rewrite lookup_insert. by case_decide.
  - case_decide; [subst; by rewrite E|done].
Qed.

Lemma get_buffer_last_ts sid sid' (p : @processor Sample) :
  last_ts (get_buffer sid p).2 sid' = last_ts p sid'.
Proof. unfold get_buffer, last_ts. by destruct (buffers p !! sid). Qed.

Lemma get_buffer_records sid (p : @processor Sample) :
  (get_buffer sid p).1 = pending p sid.
Proof. unfold get_buffer, pending. by destruct (buffers p !! sid). Qed.

Lemma get_buffer_dom sid (p : @processor Sample) :
  dom (buffers (get_buffer sid p).2) = dom (buffers p).
Proof.
  unfold get_buffer. destruct (buffers p !! sid) as [q|] eqn:E; simpl; [|done].
  apply dom_insert_lookup_L. by eexists.
Qed.

(** The loop of [get_all_buffers] over any list of keys: what it collects
    and what it leaves. *)
Lemma get_all_fold_exact ks : ∀ (res : gmap string (list Sample)) p,
  let r := foldl get_all_step (res, p) ks in
  (∀ sid, r.1 !! sid =
          if decide (sid ∈ ks)
          then match pending p sid with [] => res !! sid | q => Some q end
          else res !! sid)
  ∧ (∀ sid, pending (r.2) sid = if decide (sid ∈ ks) then [] else pending p sid)
  ∧ last_timestamps (r.2) = last_timestamps p
  ∧ dom (buffers (r.2)) = dom (buffers p).
Proof.
  induction ks as [|k ks IH]; intros res p; simpl.
  { split_and!; try done; intros sid; by rewrite decide_False by apply not_elem_of_nil. }
  change (get_all_step (res, p) k) with
    (let '(records, p') := get_buffer k p in
     (match records with [] => res | _ => <[k:=records]> res end, p')).
  pose proof (get_buffer_records k p) as Hrec.
  pose proof (λ sid', get_buffer_pending k sid' p) as Hpend.
  pose proof (λ sid', get_buffer_last_ts k sid' p) as Hlts.
  pose proof (get_buffer_dom k p) as Hdom.
  assert (Hl : last_timestamps (get_buffer k p).2 = last_timestamps p).
  { unfold get_buffer. by destruct (buffers p !! k). }
  destruct (get_buffer k p) as [records p1]. simpl in *. subst records.
  specialize (IH (match pending p k with [] => res | _ :: _ => <[k:=pending p k]> res end) p1).
  simpl in IH. destruct IH as (IH1 & IH2 & IH3 & IH4).
  split_and!; [| |congruence|congruence].
  - intros sid. rewrite IH1, Hpend.
    destruct (decide (k = sid)) as [->|Hne].
    + rewrite (decide_True (P := sid ∈ sid :: ks)) by (by left).
      assert (Hres : (match pending p sid with [] => res | _ :: _ => <[sid:=pending p sid]> res end) !! sid
                     = match pending p sid with [] => res !! sid | q => Some q end).
      { destruct (pending p sid); [done|by rewrite lookup_insert_eq]. }
      by destruct (decide (sid ∈ ks)).
    + assert (Hres : (match pending p k with [] => res | _ :: _ => <[k:=pending p k]> res end) !! sid
                     = res !! sid).
      { destruct (pending p k); [done|by rewrite lookup_insert_ne]. }
      rewrite Hres.
      destruct (decide (sid ∈ ks)) as [Hin|Hnin].
      * by rewrite (decide_True (P := sid ∈ k :: ks)) by (by right).
      * rewrite (decide_False (P := sid ∈ k :: ks)); [done|].
        intros [?|?]%elem_of_cons; [congruence|done].
  - intros sid. rewrite IH2, Hpend.
    destruct (decide (k = sid)) as [->|Hne].
    + rewrite (decide_True (P := sid ∈ sid :: ks)) by (by left).
      by destruct (decide (sid ∈ ks)).
    + destruct (decide (sid ∈ ks)) as [Hin|Hnin].
      * by rewrite (decide_True (P := sid ∈ k :: ks)) by (by right).
      * rewrite (decide_False (P := sid ∈ k :: ks)); [done|].
        intros [?|?]%elem_of_cons; [congruence|done].
Qed.

Lemma get_all_buffers_exact (p : @processor Sample) :
  let r := get_all_buffers p in
  (∀ sid, r.1 !! sid = match pending p sid with [] => None | q => Some q end)
  ∧ (∀ sid, pending (r.2) sid = [])
  ∧ last_timestamps (r.2) = last_timestamps p
  ∧ dom (buffers (r.2)) = dom (buffers p).
Proof.
  unfold get_all_buffers.
  destruct (get_all_fold_exact ((map_to_list (buffers p)).*1) ∅ p) as (H1 & H2 & H3 & H4).
  assert (Hout : ∀ sid, sid ∉ (map_to_list (buffers p)).*1 → pending p sid = []).
  { intros sid Hn. unfold pending. destruct (buffers p !! sid) as [q|] eqn:E; [|done].
    destruct Hn. apply list_elem_of_fmap. exists (sid, q). split; [done|].
    by apply elem_of_map_to_list. }
  split_and!; [| |done..].
  - intros sid. rewrite H1, lookup_empty.
    destruct (decide _) as [?|Hn]; [by destruct (pending p sid)|].
    specialize (Hout _ Hn). by destruct (pending p sid).
  - intros sid. rewrite H2. destruct (decide _) as [?|Hn]; [done|]. by apply Hout.
Qed.

Lemma flush_all_spec (p : @processor Sample) :
  let r := flush_all p in
  (∀ sid, batches_of sid (r.1) = pending p sid)
  ∧ (∀ sid, pending (r.2) sid = [])
  ∧ last_timestamps (r.2) = last_timestamps p.
Proof.
  unfold flush_all.
  destruct (get_all_buffers_exact p) as (H1 & H2 & H3 & _).
  destruct (get_all_buffers p) as [res p1]. simpl in *.
  split_and!; [|done..]. intros sid.
  rewrite (AggregateLaws.filter_all (λ b : string * list Sample, b.2 ≠ [])).
  - rewrite batches_of_map_to_list, H1. by destruct (pending p sid).
  - apply Forall_forall. intros [k v] Hin. apply elem_of_map_to_list in Hin.
    rewrite H1 in Hin. simpl. destruct (pending p k); [done|]. by injection Hin as <-.
Qed.

Lemma last_ts_eq (p p' : @processor Sample) sid :
  last_timestamps p' = last_timestamps p → last_ts p' sid = last_ts p sid.
Proof. unfold last_ts. by intros ->. Qed.

Lemma flush_buffer_spec o (p : @processor Sample) :
  let r := flush_buffer o p in
  let all := match o with Some sid => bool_decide (sid = "") | None => true end in
  (∀ sid, last_ts (r.2) sid = last_ts p sid)
  ∧ ∀ sid,
      if all || bool_decide (o = Some sid)
      then batches_of sid (r.1) = pending p sid ∧ pending (r.2) sid = []
      else batches_of sid (r.1) = [] ∧ pending (r.2) sid = pending p sid.
Proof.
  assert (Hall : let r := flush_all p in
    (∀ sid, last_ts (r.2) sid = last_ts p sid)
    ∧ ∀ sid, batches_of sid (r.1) = pending p sid ∧ pending (r.2) sid = []).
  { destruct (flush_all_spec p) as (H1 & H2 & H3). split.
    - intros sid. by apply last_ts_eq.
    - intros sid. by rewrite H1, H2. }
  destruct o as [s|]; simpl; [|done].
  unfold flush_buffer. destruct (decide (s = "")) as [->|Hne].
  { rewrite bool_decide_eq_true_2 by done. simpl. apply Hall. }
  rewrite (bool_decide_eq_false_2 (s = "")) by done. simpl.
  pose proof (get_buffer_records s p) as Hrec.
  pose proof (λ sid', get_buffer_pending s sid' p) as Hpend.
  pose proof (λ sid', get_buffer_last_ts s sid' p) as Hlts.
  destruct (get_buffer s p) as [records p1]. simpl in *. subst records.
  split; [intros sid; apply Hlts|].
  intros sid. rewrite Hpend. case_bool_decide as Hs.
  - injection Hs as ->. rewrite decide_True by done. split; [|done].
    destruct (pending p sid) eqn:E; [done|].
    rewrite batches_of_singleton. by rewrite decide_True.
  - rewrite decide_False by congruence. split; [|done].
    destruct (pending p s) eqn:E; [done|].
    rewrite batches_of_singleton. rewrite decide_False; [done|congruence].
Qed.

Lemma flush_buffer_keeps o (p : @processor Sample) sid :
  let r := flush_buffer o p in
  batches_of sid (r.1) ++ pending (r.2) sid = pending p sid
  ∧ (pending (r.2) sid = [] ∨ pending (r.2) sid = pending p sid)
  ∧ last_ts (r.2) sid = last_ts p sid.
Proof.
  destruct (flush_buffer_spec o p) as [Hlts Hf]. specialize (Hf sid).
  intros r. fold r in Hlts, Hf. split_and!; [| |done].
  - destruct (_ || _); destruct Hf as [-> ->]; [by rewrite app_nil_r|done].
  - destruct (_ || _); destruct Hf as [_ ->]; [by left|by right].
Qed.

(** *** What an offer does to one session *)

Lemma add_to_buffer_shape sid sid' (x : Sample) p :
  let r := add_to_buffer sid' x p in
  (timestamp x ≤ last_ts p sid' ∧ r = (Returned false, p))
  ∨ (last_ts p sid' < timestamp x
     ∧ last_ts (r.2) sid = (if decide (sid' = sid) then timestamp x else last_ts p sid)
     ∧ ∃ k, pending (r.2) sid
            = if decide (sid' = sid) then drop k (pending p sid ++ [x]) else pending p sid).
Proof.
  simpl. destruct (Z.le_gt_cases (timestamp x) (last_ts p sid')) as [Hle|Hgt].
  { left. split; [done|]. by apply add_to_buffer_reject. }
  right. split; [lia|].
  unfold DataProcessor.add_to_buffer.
  destruct (Z.leb_spec (timestamp x) (last_ts p sid')); [lia|]. simpl.
  assert (Hq : ∀ q, default [] (buffers p !! sid') = q → ∃ k,
    pending (Processor (<[sid' := deque_append buffer_size q x]> (buffers p))
               (<[sid' := timestamp x]> (last_timestamps p))) sid
    = if decide (sid' = sid) then drop k (pending p sid ++ [x]) else pending p sid).
  { intros q Hq. rewrite pending_insert. destruct (decide (sid' = sid)) as [->|]; [|by exists 0%nat].
    unfold pending. rewrite Hq. unfold deque_append.
    destruct (buffer_size <? _); [exists 1%nat|exists 0%nat]; [|done].
    by destruct q. }
  destruct (buffers p !! sid') as [q|] eqn:E; simpl.
  - split; [by rewrite last_ts_insert|]. by apply Hq.
  - unfold deque_new. destruct (buffer_size <? 0); simpl.
    + split; [by rewrite last_ts_insert|].
      exists 1%nat. destruct (decide (sid' = sid)) as [->|]; [|done].
      unfold pending. simpl. by rewrite E.
    + split; [by rewrite last_ts_insert|]. by apply Hq.
Qed.

(** The watermark of a session never decreases. *)
Lemma last_ts_step sid o (p : @processor Sample) :
  last_ts p sid ≤ last_ts (step o p).2 sid.
Proof.
  destruct o as [sid' x|sid'|]; simpl.
  - apply (add_to_buffer_effect timestamp buffer_size sid sid' x p).
  - destruct (get_buffer_spec sid' p) as (_ & Hlts & _).
    destruct (get_buffer sid' p) as [records p1]. simpl in *.
    by rewrite (last_ts_eq p p1).
  - destruct (get_all_buffers_exact p) as (_ & _ & Hlts & _).
    destruct (get_all_buffers p) as [res p1]. simpl in *.
    by rewrite (last_ts_eq p p1).
Qed.

Lemma last_ts_run sid os : ∀ p : @processor Sample,
  last_ts p sid ≤ last_ts (run os p).2 sid.
Proof.
  induction os as [|o os IH]; intros p; simpl; [done|].
  pose proof (last_ts_step sid o p) as H1.
  destruct (step o p) as [b1 p1]. simpl in H1.
  specialize (IH p1). destruct (run os p1) as [b2 p2]. simpl in *. lia.
Qed.

(** *** Delivery in order *)

Lemma step_batches sid o (p : @processor Sample) :
  batches_of sid (step o p).1 ++ pending (step o p).2 sid = pending p sid
  ∨ ∃ sid' x, o = Offer sid' x.
Proof.
  destruct o as [sid' x|sid'|]; simpl.
  - right. by eexists _, _.
  - left. pose proof (get_buffer_records sid' p) as Hrec.
    pose proof (get_buffer_pending sid' sid p) as Hpend.
    destruct (get_buffer sid' p) as [records p1]. simpl in *. subst records.
    rewrite batches_of_singleton, Hpend.
    destruct (decide (sid' = sid)) as [->|]; [by rewrite app_nil_r|done].
  - left. destruct (get_all_buffers_exact p) as (Hres & Hpend & _).
    destruct (get_all_buffers p) as [res p1]. simpl in *.
    rewrite batches_of_map_to_list, Hres, Hpend, app_nil_r.
    by destruct (pending p sid).
Qed.

Lemma in_order_step sid o written (p : @processor Sample) :
  in_order sid written p →
  in_order sid (written ++ batches_of sid (step o p).1) (step o p).2.
Proof.
  intros (Hs & Hall & H0). unfold in_order.
  destruct (step_batches sid o p) as [Heq|(sid' & x & ->)].
  { rewrite <- app_assoc, Heq. split_and!; [done| |].
    - eapply Forall_impl; [exact Hall|]. intros y Hy. simpl in Hy.
      pose proof (last_ts_step sid o p). lia.
    - pose proof (last_ts_step sid o p). lia. }
  simpl. rewrite batches_of_nil, app_nil_r.
  destruct (add_to_buffer_shape sid sid' x p) as [[_ ->]|(Hgt & Hl & k & Hk)]; [done|].
  simpl in Hl, Hk. rewrite Hl, Hk.
  destruct (decide (sid' = sid)) as [->|]; [|done].
  assert (Hsx : StronglySorted Z.lt (timestamp <$> (written ++ pending p sid) ++ [x])).
  { rewrite fmap_app. apply StronglySorted_app_2; [|done|repeat constructor].
    intros a b Ha Hb. apply list_elem_of_singleton in Hb as ->.
    apply list_elem_of_fmap in Ha as (y & -> & Hy).
    rewrite Forall_forall in Hall. specialize (Hall y Hy). simpl in Hall. lia. }
  rewrite <- app_assoc in Hsx.
  rewrite <- (take_drop k (pending p sid ++ [x])), !fmap_app in Hsx.
  apply StronglySorted_app_drop_middle in Hsx.
  split_and!; [by rewrite fmap_app| |lia].
  apply Forall_app. split.
  - apply Forall_app in Hall as [Hw _].
    eapply Forall_impl; [exact Hw|]. simpl. lia.
  - apply Forall_drop, Forall_app. split.
    + apply Forall_app in Hall as [_ Hp].
      eapply Forall_impl; [exact Hp|]. simpl. lia.
    + repeat constructor; simpl; lia.
Qed.

Lemma in_order_run sid os : ∀ written (p : @processor Sample),
  in_order sid written p →
  in_order sid (written ++ batches_of sid (run os p).1) (run os p).2.
Proof.
  induction os as [|o os IH]; intros written p Hin; simpl.
  { by rewrite batches_of_nil, app_nil_r. }
  pose proof (in_order_step sid o written p Hin) as H1.
  destruct (step o p) as [b1 p1]. simpl in H1.
  specialize (IH _ p1 H1).
  destruct (run os p1) as [b2 p2]. simpl in *.
  by rewrite batches_of_app, app_assoc.
Qed.

(** Whatever is written or pending was pending before or has been offered. *)
Lemma run_offered sid os : ∀ (p : @processor Sample) y,
  y ∈ batches_of sid (run os p).1 ++ pending (run os p).2 sid →
  y ∈ pending p sid ∨ Offer sid y ∈ os.
Proof.
  induction os as [|o os IH]; intros p y; simpl.
  { by left. }
  pose proof (step_batches sid o p) as Hb.
  pose proof (add_to_buffer_shape sid) as Hadd.
  destruct (step o p) as [b1 p1] eqn:Hstep. simpl in Hb.
  specialize (IH p1 y).
  destruct (run os p1) as [b2 p2]. simpl in *.
  rewrite batches_of_app, <- app_assoc. intros Hy.
  apply elem_of_app in Hy as [Hy|Hy].
  - destruct Hb as [Hb|(sid' & x & ->)].
    + left. rewrite <- Hb. apply elem_of_app. by left.
    + simpl in Hstep. injection Hstep as <- _. by apply elem_of_nil in Hy.
  - apply IH in Hy as [Hy|Hy]; [|right; by right].
    destruct Hb as [Hb|(sid' & x & ->)].
    + left. rewrite <- Hb. apply elem_of_app. by right.
    + simpl in Hstep. injection Hstep as _ <-.
      destruct (Hadd sid' x p) as [[_ Heq]|(_ & _ & k & Hk)]; [rewrite Heq in Hy; by left|].
      simpl in Hk. rewrite Hk in Hy.
      destruct (decide (sid' = sid)) as [->|]; [|by left].
      apply list_elem_of_lookup in Hy as [i Hi]. rewrite lookup_drop in Hi.
      apply list_elem_of_lookup_2, elem_of_app in Hi as [?|Hi]; [by left|].
      apply list_elem_of_singleton in Hi as ->. right. by left.
Qed.

Lemma in_order_init sid : in_order sid [] (@init Sample).
Proof.
  unfold in_order, pending, last_ts. simpl. rewrite !lookup_empty. simpl.
  split_and!; [constructor|constructor|done].
Qed.

Lemma StronglySorted_lt_NoDup (f : Sample → Z) (l : list Sample) :
  StronglySorted Z.lt (f <$> l) → NoDup l.
Proof.
  induction l as [|a l IH]; [constructor|].
  rewrite fmap_cons. intros [Hs Hall]%StronglySorted_inv.
  constructor; [|by apply IH].
  intros Hin. rewrite Forall_forall in Hall.
  specialize (Hall (f a) (list_elem_of_fmap_2 _ _ _ Hin)). lia.
Qed.

(** On integer timestamps: whatever offers and drains are made from a fresh
    processor, the records drained for a session, followed by the ones
    still pending, carry strictly increasing timestamps. *)
Lemma drained_in_rank_order (os : list (@op Sample)) sid :
  let r := run os init in
  let delivered := batches_of sid (r.1) in
  StronglySorted Z.lt (timestamp <$> (delivered ++ pending (r.2) sid))
  ∧ NoDup (delivered ++ pending (r.2) sid)
  ∧ ∀ y, y ∈ delivered ++ pending (r.2) sid →
      Offer sid y ∈ os ∧ 0 < timestamp y ≤ last_ts (r.2) sid.
Proof.
  intros r delivered.
  destruct (in_order_run sid os [] init (in_order_init sid)) as (Hs & Hall & _).
  simpl in Hs, Hall. fold r delivered in Hs, Hall.
  split_and!; [done|by eapply StronglySorted_lt_NoDup|].
  intros y Hy. split.
  - destruct (run_offered sid os init y Hy) as [Hin|?]; [|done].
    unfold pending in Hin. simpl in Hin. rewrite lookup_empty in Hin.
    by apply elem_of_nil in Hin.
  - rewrite Forall_forall in Hall. by apply Hall.
Qed.

Lemma wf_no_capacity (p : @processor Sample) sid :
  buffer_size ≤ 0 → wf p → pending p sid = [].
Proof.
  intros Hbs Hwf. unfold pending. destruct (buffers p !! sid) as [q|] eqn:E; [|done].
  apply Hwf in E as (Hlen & _). simpl. destruct q; [done|]. simpl in Hlen. lia.
Qed.

Lemma step_no_capacity o (p : @processor Sample) :
  buffer_size ≤ 0 → wf p → Forall (λ b, b.2 = []) (step o p).1.
Proof.
  intros Hbs Hwf. destruct o as [sid x|sid|]; simpl.
  - constructor.
  - pose proof (get_buffer_records sid p) as Hrec.
    destruct (get_buffer sid p) as [records p1]. simpl in *. subst records.
    repeat constructor. simpl. by apply wf_no_capacity.
  - destruct (get_all_buffers_exact p) as (Hres & _).
    destruct (get_all_buffers p) as [res p1]. simpl in *.
    apply Forall_forall. intros [k v] Hin. apply elem_of_map_to_list in Hin.
    rewrite Hres, (wf_no_capacity p k) in Hin; done.
Qed.

Lemma run_no_capacity os : ∀ p : @processor Sample,
  buffer_size ≤ 0 → wf p → Forall (λ b, b.2 = []) (run os p).1.
Proof.
  induction os as [|o os IH]; intros p Hbs Hwf; simpl; [constructor|].
  pose proof (step_no_capacity o p Hbs Hwf) as H1.
  pose proof (wf_step timestamp buffer_size o p Hwf) as Hwf1.
  destruct (step o p) as [b1 p1]. simpl in *.
  specialize (IH p1 Hbs Hwf1). destruct (run os p1) as [b2 p2]. simpl in *.
  by apply Forall_app.
Qed.

(** X8.  With a negative [buffer_size] the processor never buffers anything:
    nothing is ever handed to the writer and no queue is ever created.  An
    offer whose timestamp is above the last accepted one raises
    [ValueError] from [deque(maxlen=...)], after the timestamp has been
    recorded, so the same sample offered again is rejected as a duplicate
    without an error. *)
Theorem negative_capacity_raises (os : list (@op Sample)) sid x :
  buffer_size < 0 →
  let r := run os init in
  Forall (λ b, b.2 = []) (r.1)
  ∧ buffers (r.2) = ∅
  ∧ (last_ts (r.2) sid < timestamp x →
     let p' := Processor (buffers (r.2)) (<[sid := timestamp x]> (last_timestamps (r.2))) in
     add_to_buffer sid x (r.2) = (Raised ValueError, p')
     ∧ add_to_buffer sid x p' = (Returned false, p')).
Proof.
  intros Hbs r.
  assert (Hwf : wf (r.2)) by apply wf_run, wf_init.
  assert (Hempty : buffers (r.2) = ∅).
  { apply map_eq. intros k. rewrite lookup_empty.
    destruct (buffers (r.2) !! k) as [q|] eqn:E; [|done].
    apply Hwf in E as (Hlen & _). lia. }
  split_and!; [apply run_no_capacity; [lia|apply wf_init]|done|].
  intros Hts p'. split.
  - unfold DataProcessor.add_to_buffer.
    destruct (Z.leb_spec (timestamp x) (last_ts (r.2) sid)); [lia|]. simpl.
    rewrite Hempty, lookup_empty. unfold deque_new.
    destruct (Z.ltb_spec buffer_size 0); [|lia]. unfold p'. by rewrite Hempty.
  - apply add_to_buffer_reject. unfold p'. rewrite last_ts_insert, decide_True by done. lia.
Qed.

(** X9.  With [buffer_size = 0] every sample is lost without an error: an offer
    whose timestamp is above the last accepted one records the timestamp
    and returns [True] (a full buffer), but the queue of length 0 keeps
    nothing, so every drain hands over an empty list. *)
Theorem zero_capacity_discards (os : list (@op Sample)) sid x :
  buffer_size = 0 →
  let r := run os init in
  Forall (λ b, b.2 = []) (r.1)
  ∧ (∀ sid', pending (r.2) sid' = [])
  ∧ (last_ts (r.2) sid < timestamp x →
     ∃ p', add_to_buffer sid x (r.2) = (Returned true, p')
           ∧ pending p' sid = []
           ∧ last_ts p' sid = timestamp x).
Proof.
  intros Hbs r.
  assert (Hwf : wf (r.2)) by apply wf_run, wf_init.
  split_and!; [apply run_no_capacity; [lia|apply wf_init]| |].
  { intros sid'. apply wf_no_capacity; [lia|done]. }
  intros Hts. eexists. split; [|split].
  - rewrite add_to_buffer_accept; [|lia|done|].
    + f_equal. f_equal. apply Z.leb_le. lia.
    + rewrite (wf_no_capacity (r.2) sid); [simpl|lia|done]. lia.
  - rewrite pending_insert, decide_True by done.
    apply nil_length_inv. rewrite keep_last_length. lia.
  - by rewrite last_ts_insert, decide_True.
Qed.

(** X10.  [get_all_buffers] returns exactly the non-empty buffers, each with its
    pending records in order, with no key for an empty one; afterwards
    every buffer is empty but still there, the last accepted timestamps
    are as before, and a second call returns the empty dict. *)
Theorem get_all_buffers_collects (p : @processor Sample) :
  let r := get_all_buffers p in
  (∀ sid, r.1 !! sid = match pending p sid with [] => None | q => Some q end)
  ∧ (∀ sid, pending (r.2) sid = [])
  ∧ last_timestamps (r.2) = last_timestamps p
  ∧ dom (buffers (r.2)) = dom (buffers p)
  ∧ (get_all_buffers (r.2)).1 = ∅.
Proof.
  intros r. destruct (get_all_buffers_exact p) as (H1 & H2 & H3 & H4).
  fold r in H1, H2, H3, H4. split_and!; try done.
  apply map_eq. intros sid. rewrite lookup_empty.
  destruct (get_all_buffers_exact (r.2)) as (H1' & _).
  by rewrite H1', H2.
Qed.

(** *** Flushing when full *)

Local Abbreviation buffer_sample := (buffer_sample timestamp buffer_size).
Local Abbreviation handle := (handle timestamp buffer_size).
Local Abbreviation handle_all := (handle_all timestamp buffer_size).
Local Abbreviation accepted := (accepted timestamp).

Lemma accepted_cons w (x : Sample) xs :
  accepted w (x :: xs) = accepted w [x] ++ accepted (Z.max w (timestamp x)) xs.
Proof.
  simpl. destruct (Z.leb_spec (timestamp x) w).
  - by rewrite Z.max_l by lia.
  - by rewrite Z.max_r by lia.
Qed.

Lemma buffer_sample_spec s (x : Sample) p :
  1 ≤ buffer_size →
  (∀ sid, Z.of_nat (length (pending p sid)) < buffer_size) →
  let r := buffer_sample s x p in
  (∀ sid, Z.of_nat (length (pending (r.2) sid)) < buffer_size)
  ∧ (∀ sid, batches_of sid (r.1) ++ pending (r.2) sid
            = pending p sid ++ (if decide (s = sid) then accepted (last_ts p sid) [x] else []))
  ∧ (∀ sid, last_ts (r.2) sid
            = if decide (s = sid) then Z.max (last_ts p sid) (timestamp x) else last_ts p sid).
Proof.
  intros Hbs Hcap. unfold Ingest.buffer_sample.
  destruct (Z.le_gt_cases (timestamp x) (last_ts p s)) as [Hle|Hgt].
  { rewrite add_to_buffer_reject by done. simpl. split_and!; [done| |].
    - intros sid. destruct (decide (s = sid)) as [<-|]; [|by rewrite app_nil_r].
      destruct (Z.leb_spec (timestamp x) (last_ts p s)); [by rewrite app_nil_r|lia].
    - intros sid. destruct (decide (s = sid)) as [<-|]; [lia|done]. }
  pose proof (Hcap s) as Hs.
  rewrite add_to_buffer_accept; [|lia|lia|lia].
  rewrite (keep_last_short _ (pending p s ++ [x])) by (rewrite length_app; simpl; lia).
  set (p1 := Processor _ _).
  assert (Hp1 : ∀ sid, pending p1 sid = pending p sid ++ (if decide (s = sid) then accepted (last_ts p sid) [x] else [])).
  { intros sid. unfold p1. rewrite pending_insert.
    destruct (decide (s = sid)) as [<-|]; [|by rewrite app_nil_r].
    simpl. by destruct (Z.leb_spec (timestamp x) (last_ts p s)); [lia|]. }
  assert (Hl1 : ∀ sid, last_ts p1 sid = if decide (s = sid) then Z.max (last_ts p sid) (timestamp x) else last_ts p sid).
  { intros sid. unfold p1. rewrite last_ts_insert.
    destruct (decide (s = sid)) as [<-|]; [lia|done]. }
  destruct (buffer_size <=? _) eqn:Hfull.
  - pose proof (flush_buffer_keeps (Some s) p1) as Hf. cbv zeta in Hf.
    destruct (flush_buffer_spec (Some s) p1) as [_ Hclear].
    specialize (Hclear s). cbv zeta in Hclear.
    rewrite (bool_decide_eq_true_2 (Some s = Some s)), orb_true_r in Hclear by done.
    destruct Hclear as [_ Hclear].
    split_and!.
    + intros sid. destruct (decide (s = sid)) as [<-|Hne]; [rewrite Hclear; simpl; lia|].
      destruct (Hf sid) as (_ & [->| ->] & _); [simpl; lia|].
      unfold p1. rewrite pending_insert, decide_False by done. apply Hcap.
    + intros sid. destruct (Hf sid) as (-> & _). apply Hp1.
    + intros sid. destruct (Hf sid) as (_ & _ & ->). apply Hl1.
  - apply Z.leb_gt in Hfull. rewrite length_app in Hfull. simpl in Hfull.
    simpl. split_and!; [|intros sid; apply Hp1|intros sid; apply Hl1].
    intros sid. unfold p1. rewrite pending_insert.
    destruct (decide (s = sid)) as [<-|]; [|apply Hcap].
    rewrite length_app. simpl. lia.
Qed.

Lemma offered_message sid s (x : Sample) es :
  offered sid (Message s x :: es)
  = if decide (s = sid) then x :: offered sid es else offered sid es.
Proof. unfold offered. simpl. by destruct (decide (s = sid)). Qed.

Lemma handle_all_spec es : ∀ p : @processor Sample,
  1 ≤ buffer_size →
  (∀ sid, Z.of_nat (length (pending p sid)) < buffer_size) →
  let r := handle_all es p in
  (∀ sid, Z.of_nat (length (pending (r.2) sid)) < buffer_size)
  ∧ ∀ sid, batches_of sid (r.1) ++ pending (r.2) sid
           = pending p sid ++ accepted (last_ts p sid) (offered sid es).
Proof.
  induction es as [|e es IH]; intros p Hbs Hcap; simpl.
  { split; [done|]. intros sid. by rewrite app_nil_r. }
  assert (Hstep : let r := handle e p in
    (∀ sid, Z.of_nat (length (pending (r.2) sid)) < buffer_size)
    ∧ ∀ sid, batches_of sid (r.1) ++ pending (r.2) sid ++
               accepted (last_ts (r.2) sid) (offered sid es)
             = pending p sid ++ accepted (last_ts p sid) (offered sid (e :: es))).
  { destruct e as [s x|];
      [change (handle (Message s x) p) with (buffer_sample s x p)
      |change (handle Periodic p) with (flush_buffer None p)]; cbv zeta.
    - destruct (buffer_sample_spec s x p Hbs Hcap) as (H1 & H2 & H3).
      split; [done|]. intros sid. rewrite app_assoc, H2, H3, <- app_assoc. f_equal.
      rewrite offered_message.
      destruct (decide (s = sid)); [by rewrite <- accepted_cons|done].
    - split.
      + intros sid. destruct (flush_buffer_keeps None p sid) as (_ & [->| ->] & _);
          [simpl; lia|apply Hcap].
      + intros sid. destruct (flush_buffer_keeps None p sid) as (H1 & _ & H3).
        by rewrite app_assoc, H1, H3. }
  destruct (handle e p) as [b1 p1]. simpl in Hstep. destruct Hstep as [Hcap1 Heq1].
  specialize (IH p1 Hbs Hcap1). destruct (handle_all es p1) as [b2 p2].
  simpl in *. destruct IH as [Hcap2 Heq2]. split; [done|].
  intros sid. by rewrite batches_of_app, <- app_assoc, Heq2, Heq1.
Qed.

(** X11.  With a capacity of at least 1, when every sample goes through the
    buffering step of [_consume_data] (flush as soon as [add_to_buffer]
    reports a full buffer), nothing is evicted: the records drained for a
    session, followed by those still pending, are exactly the samples of
    that session that passed the timestamp test of [add_to_buffer], in
    arrival order; and no queue is left full.  Whether a drained batch is
    then stored is another matter: the insert can raise. *)
Theorem flush_when_full_keeps_every_sample (es : list (@event Sample)) sid :
  1 ≤ buffer_size →
  let r := handle_all es init in
  batches_of sid (r.1) ++ pending (r.2) sid = accepted 0 (offered sid es)
  ∧ Z.of_nat (length (pending (r.2) sid)) < buffer_size.
Proof.
  intros Hbs r.
  destruct (handle_all_spec es init Hbs) as [Hcap Heq].
  { intros s. unfold pending. simpl. rewrite lookup_empty. simpl. lia. }
  fold r in Hcap, Heq. split; [|done].
  rewrite Heq. unfold pending, last_ts. simpl. by rewrite !lookup_empty.
Qed.

End Laws.

(** *** Witnesses *)

(** Witness of X11: capacity 2 and four messages of one session, the second a
    duplicate. *)
Lemma flush_when_full_keeps_every_sample_witness :
  let r := handle_all (λ t : Z, t) 2 [Message "s1" 1; Message "s1" 1; Message "s1" 2; Message "s1" 3] init in
  batches_of "s1" (r.1) ++ pending (r.2) "s1"
  = accepted (λ t : Z, t) 0 (offered "s1" [Message "s1" 1; Message "s1" 1; Message "s1" 2; Message "s1" 3])
  ∧ Z.of_nat (length (pending (r.2) "s1")) < 2.
Proof.
  apply (flush_when_full_keeps_every_sample (λ t : Z, t) 2). lia.
Defined.

(** Witness of X8: capacity -1, after an offer and a drain. *)
Lemma negative_capacity_raises_witness :
  let r := run (λ t : Z, t) (-1) [Offer "s1" 1; Drain "s1"] init in
  Forall (λ b, b.2 = []) (r.1)
  ∧ buffers (r.2) = ∅
  ∧ (last_ts (r.2) "s1" < 5 →
     let p' := Processor (buffers (r.2)) (<["s1" := 5]> (last_timestamps (r.2))) in
     add_to_buffer (λ t : Z, t) (-1) "s1" 5 (r.2) = (Raised ValueError, p')
     ∧ add_to_buffer (λ t : Z, t) (-1) "s1" 5 p' = (Returned false, p')).
Proof.
  apply (negative_capacity_raises (λ t : Z, t) (-1) [Offer "s1" 1; Drain "s1"] "s1" 5). lia.
Defined.

(** Witness of X9: capacity 0, after an offer and a drain. *)
Lemma zero_capacity_discards_witness :
  let r := run (λ t : Z, t) 0 [Offer "s1" 1; Drain "s1"] init in
  Forall (λ b, b.2 = []) (r.1)
  ∧ (∀ sid', pending (r.2) sid' = [])
  ∧ (last_ts (r.2) "s1" < 5 →
     ∃ p', add_to_buffer (λ t : Z, t) 0 "s1" 5 (r.2) = (Returned true, p')
           ∧ pending p' "s1" = []
           ∧ last_ts p' "s1" = 5).
Proof.
  apply (zero_capacity_discards (λ t : Z, t) 0 [Offer "s1" 1; Drain "s1"] "s1" 5). reflexivity.
Defined.

End IngestLaws.

(** ** More laws of the aggregation, and the session statistics *)

Module StatisticsLaws.
Import Database Statistics AggregateLaws.

(** *** Minimum, maximum and average *)

Lemma foldl_min_spec (l : list Z) : ∀ x,
  foldl Z.min x l ∈ x :: l ∧ Forall (λ y, foldl Z.min x l ≤ y) (x :: l).
Proof.
  induction l as [|a l IH]; intros x; simpl.
  { split; [by left|]. repeat constructor. lia. }
  destruct (IH (Z.min x a)) as [Hin Hall]. split.
  - apply elem_of_cons in Hin as [->|Hin]; [|by right; right].
    destruct (Z.min_spec x a) as [[_ ->]|[_ ->]]; [by left|right; by left].
  - apply Forall_cons in Hall as [Hm Hall].
    constructor; [lia|]. constructor; [lia|done].
Qed.

Lemma foldl_max_spec (l : list Z) : ∀ x,
  foldl Z.max x l ∈ x :: l ∧ Forall (λ y, y ≤ foldl Z.max x l) (x :: l).
Proof.
  induction l as [|a l IH]; intros x; simpl.
  { split; [by left|]. repeat constructor. lia. }
  destruct (IH (Z.max x a)) as [Hin Hall]. split.
  - apply elem_of_cons in Hin as [->|Hin]; [|by right; right].
    destruct (Z.max_spec x a) as [[_ ->]|[_ ->]]; [right; by left|by left].
  - apply Forall_cons in Hall as [Hm Hall].
    constructor; [lia|]. constructor; [lia|done].
Qed.

Lemma foldl_add_acc (l : list Z) : ∀ a, foldl Z.add a l = a + foldl Z.add 0 l.
Proof.
  induction l as [|x l IH]; intros a; cbn [foldl]; [lia|].
  rewrite (IH (a + x)), (IH (0 + x)). lia.
Qed.

Lemma sum_bounds lo hi (l : list Z) :
  Forall (λ y, lo ≤ y ≤ hi) l →
  lo * Z.of_nat (length l) ≤ foldl Z.add 0 l ≤ hi * Z.of_nat (length l).
Proof.
  induction 1 as [|x l Hx Hl IH]; cbn [foldl length]; [lia|].
  rewrite (foldl_add_acc l (0 + x)). lia.
Qed.

(** MIN, AVG and MAX of a column over the same rows: all three are NULL
    together, and otherwise the average lies between the extremes. *)
Lemma sql_min_avg_max (col : list (option Z)) :
  match sql_min col, sql_avg col, sql_max col with
  | None, None, None => non_null col = []
  | Some lo, Some avg, Some hi =>
      (inject_Z lo <= avg)%Q ∧ (avg <= inject_Z hi)%Q
      ∧ lo ∈ non_null col ∧ hi ∈ non_null col
      ∧ Forall (λ y, lo ≤ y ≤ hi) (non_null col)
  | _, _, _ => False
  end.
Proof.
  unfold sql_min, sql_avg, sql_max.
  destruct (non_null col) as [|x l] eqn:E; [done|].
  destruct (foldl_min_spec l x) as [Hmin Hlo].
  destruct (foldl_max_spec l x) as [Hmax Hhi].
  set (lo := foldl Z.min x l) in *. set (hi := foldl Z.max x l) in *.
  assert (Hall : Forall (λ y, lo ≤ y ≤ hi) (x :: l)).
  { apply Forall_forall. intros y Hy. rewrite Forall_forall in Hlo, Hhi.
    split; [by apply Hlo|by apply Hhi]. }
  pose proof (sum_bounds lo hi (x :: l) Hall) as Hsum.
  assert (Hn : (0 < inject_Z (Z.of_nat (length (x :: l))))%Q).
  { rewrite <- (Zlt_Qlt 0). simpl. lia. }
  split_and!; try done.
  - apply Qle_shift_div_l; [done|]. rewrite <- inject_Z_mult, <- Zle_Qle. lia.
  - apply Qle_shift_div_r; [done|]. rewrite <- inject_Z_mult, <- Zle_Qle. lia.
Qed.

(** *** What a call writes *)

Lemma compute_aggregates_written fuel db sid w count db1 :
  compute_aggregates fuel db sid w = Some (count, db1) →
  ∃ starts,
    call_buckets fuel db sid w = Some starts
    ∧ NoDup starts
    ∧ let rows := omap (row_of db sid w) starts in
      count = Z.of_nat (length rows)
      ∧ db1 = set_aggregated_metrics
                (filter (λ r, agg_key r ∉ agg_key <$> rows) (aggregated_metrics db) ++ rows) db.
Proof.
  rewrite compute_aggregates_buckets.
  destruct (call_buckets fuel db sid w) as [starts|] eqn:Es; [|done].
  simpl. rewrite foldl_process_bucket. simpl. intros [= <- <-].
  exists starts. pose proof (call_buckets_NoDup _ _ _ _ _ Es) as Hnd.
  split_and!; [done..|]. by rewrite upserts_normal_form by by apply rows_NoDup.
Qed.

Lemma row_of_Some db sid w c r :
  row_of db sid w c = Some r →
  let sel := bucket_samples db sid c (c + w) in
  r = aggregate_row sid c w sel ∧ sel ≠ [].
Proof.
  unfold row_of. destruct (Z.ltb_spec 0 (Z.of_nat (length (bucket_samples db sid c (c + w)))))
    as [Hlt|]; [|done].
  intros [= <-]. split; [done|]. intros Heq. rewrite Heq in Hlt. simpl in Hlt. lia.
Qed.

Lemma bucket_samples_hr db sid c e :
  non_null (m_hr_bpm <$> bucket_samples db sid c e)
  ≠ [] ∨ bucket_samples db sid c e = [].
Proof.
  unfold bucket_samples.
  destruct (filter _ (raw_metrics db)) as [|m l] eqn:E; [by right|]. left.
  assert (Hm : m ∈ filter (λ m, m_session_id m = sid ∧ c ≤ m_timestamp m
                ∧ m_timestamp m < e ∧ m_hr_bpm m ≠ None) (raw_metrics db)).
  { rewrite E. by left. }
  apply list_elem_of_filter in Hm as [(_ & _ & _ & Hhr) _].
  rewrite fmap_cons. unfold non_null. simpl.
  by destruct (m_hr_bpm m).
Qed.

(** X13.  A call that returns leaves the sessions and the samples alone, and of
    the aggregates it leaves alone, in place, every row of another session
    or of another interval width. *)
Theorem compute_aggregates_frame fuel db sid w count db1 :
  compute_aggregates fuel db sid w = Some (count, db1) →
  sessions db1 = sessions db
  ∧ raw_metrics db1 = raw_metrics db
  ∧ filter (λ r, (a_session_id r, a_interval_seconds r) ≠ (sid, w)) (aggregated_metrics db1)
    = filter (λ r, (a_session_id r, a_interval_seconds r) ≠ (sid, w)) (aggregated_metrics db)
  ∧ 0 ≤ count ≤ Z.of_nat (length (aggregated_metrics db1)).
Proof.
  intros H. apply compute_aggregates_written in H as (starts & _ & _ & Hc & ->).
  simpl in *. split_and!; [done|done| |lia|rewrite length_app; lia].
  set (rows := omap (row_of db sid w) starts) in *.
  assert (Hrows : Forall (λ r, ¬ (a_session_id r, a_interval_seconds r) ≠ (sid, w)) rows).
  { apply Forall_forall. intros r Hr. apply list_elem_of_omap in Hr as (c & _ & Hr).
    apply row_of_key in Hr. unfold agg_key in Hr. injection Hr as -> _ ->. by intros ?. }
  rewrite filter_app, (filter_none _ rows Hrows), app_nil_r, list_filter_filter.
  apply list_filter_iff. intros r. split; [by intros [? _]|].
  intros Hne. split; [done|]. intros Hin.
  apply list_elem_of_fmap in Hin as (r' & Hk & Hr').
  rewrite Forall_forall in Hrows. apply (Hrows r' Hr'). intros Heq. apply Hne.
  unfold agg_key in Hk. injection Hk as -> _ ->. done.
Qed.


(** *** The first timestamp *)

Lemma time_range_bounds db sid :
  let rows := filter (λ m, m_session_id m = sid) (raw_metrics db) in
  match time_range db sid with
  | (None, None) => rows = []
  | (Some s, Some e) =>
      Forall (λ m, s ≤ m_timestamp m ≤ e) rows
      ∧ s ∈ m_timestamp <$> rows ∧ e ∈ m_timestamp <$> rows
  | _ => False
  end.
Proof.
  intros rows. unfold time_range, sql_min, sql_max. fold rows. rewrite non_null_Some.
  destruct rows as [|m l]; [done|]. rewrite fmap_cons.
  destruct (foldl_min_spec (m_timestamp <$> l) (m_timestamp m)) as [Hmin Hlo].
  destruct (foldl_max_spec (m_timestamp <$> l) (m_timestamp m)) as [Hmax Hhi].
  split_and!; [|done..].
  rewrite <- fmap_cons in Hlo, Hhi. rewrite Forall_fmap in Hlo, Hhi.
  apply Forall_forall. intros y Hy. rewrite Forall_forall in Hlo, Hhi.
  split; [by apply Hlo|by apply Hhi].
Qed.

(** X15.  When the earliest sample of a session carries the timestamp 0, the test
    [not row['start']] succeeds: the call returns 0 and writes nothing,
    however many samples the session has. *)
Theorem first_timestamp_zero_skips_aggregation fuel db sid w m :
  m ∈ raw_metrics db → m_session_id m = sid → m_timestamp m = 0 →
  (∀ m', m' ∈ raw_metrics db → m_session_id m' = sid → 0 ≤ m_timestamp m') →
  compute_aggregates fuel db sid w = Some (0, db).
Proof.
  intros Hm Hsid Hts Hall. unfold compute_aggregates.
  pose proof (time_range_bounds db sid) as Hr. cbv zeta in Hr.
  assert (Hin : m ∈ filter (λ m, m_session_id m = sid) (raw_metrics db))
    by by apply list_elem_of_filter.
  destruct (time_range db sid) as [[s|] [e|]]; try done.
  - destruct Hr as (Hb & Hs & _). rewrite Forall_forall in Hb.
    assert (s = 0) as ->; [|done].
    apply list_elem_of_fmap in Hs as (m0 & -> & Hm0).
    apply list_elem_of_filter in Hm0 as [Hm0s Hm0].
    specialize (Hall m0 Hm0 Hm0s). specialize (Hb m Hin). lia.
Qed.

(** X16.  With an interval width of 0 or less and a session whose first timestamp
    is not 0 and whose timestamps are not all equal, the loop never ends:
    no amount of fuel makes the call return. *)
Theorem non_positive_interval_never_returns db sid w start_time end_time :
  time_range db sid = (Some start_time, Some end_time) →
  start_time ≠ 0 → start_time < end_time → w ≤ 0 →
  ∀ fuel, compute_aggregates fuel db sid w = None.
Proof.
  intros Ht Hz Hlt Hw fuel. unfold compute_aggregates. rewrite Ht.
  destruct (Z.eqb_spec start_time 0); [done|].
  rewrite aggregate_loop_starts, bucket_starts_diverges by done. done.
Qed.

(** *** Coverage *)

Lemma bucket_starts_cover fuel w e : ∀ c starts t,
  0 < w → bucket_starts fuel w e c = Some starts → c ≤ t < e →
  ∃ x, x ∈ starts ∧ x ≤ t < x + w.
Proof.
  induction fuel as [|fuel IH]; intros c starts t Hw; simpl; [done|].
  destruct (Z.ltb_spec c e) as [Hc|Hc]; [|lia].
  destruct (bucket_starts fuel w e (c + w)) as [l|] eqn:El; [|done].
  intros [= <-] Ht. destruct (Z.lt_ge_cases t (c + w)) as [Hin|Hout].
  - exists c. split; [by left|lia].
  - destruct (IH (c + w) l t Hw El) as (x & Hx & Hxt); [lia|].
    exists x. split; [by right|done].
Qed.

Lemma bucket_starts_grid fuel w e : ∀ c starts,
  bucket_starts fuel w e c = Some starts →
  Forall (λ x, ∃ k, 0 ≤ k ∧ x = c + k * w) starts.
Proof.
  induction fuel as [|fuel IH]; intros c starts; simpl; [done|].
  destruct (c <? e); [|intros [= <-]; constructor].
  destruct (bucket_starts fuel w e (c + w)) as [l|] eqn:El; [|done].
  intros [= <-]. constructor; [exists 0; lia|].
  eapply Forall_impl; [apply (IH _ _ El)|]. simpl.
  intros x (k & Hk & ->). exists (k + 1). lia.
Qed.


(** *** [get_session_stats] *)


(** *** Witnesses *)

(** Witness of X13: width 30 on [example_db]. *)
Lemma compute_aggregates_frame_witness :
  ∃ db1,
    compute_aggregates 5 example_db "s1" 30 = Some (2, db1)
    ∧ sessions db1 = sessions example_db
    ∧ raw_metrics db1 = raw_metrics example_db
    ∧ filter (λ r, (a_session_id r, a_interval_seconds r) ≠ ("s1", 30)) (aggregated_metrics db1)
      = filter (λ r, (a_session_id r, a_interval_seconds r) ≠ ("s1", 30))
          (aggregated_metrics example_db)
    ∧ 0 ≤ 2 ≤ Z.of_nat (length (aggregated_metrics db1)).
Proof.
  eexists. split; [reflexivity|].
  apply (compute_aggregates_frame 5 example_db "s1" 30 2). reflexivity.
Defined.


(** Witness of X15: three samples, the first at timestamp 0. *)
Lemma first_timestamp_zero_skips_aggregation_witness :
  let db := DB [] [RawMetric "s1" 0 (Some 70) None None None;
                   RawMetric "s1" 30 (Some 72) None None None;
                   RawMetric "s1" 60 (Some 71) None None None] [] in
  compute_aggregates 5 db "s1" 30 = Some (0, db).
Proof.
  intros db.
  apply (first_timestamp_zero_skips_aggregation 5 db "s1" 30
           (RawMetric "s1" 0 (Some 70) None None None)).
  - by left.
  - reflexivity.
  - reflexivity.
  - intros m' Hm' _. unfold db in Hm'. simpl in Hm'.
    repeat (apply elem_of_cons in Hm' as [->|Hm']; [simpl; lia|]).
    by apply elem_of_nil in Hm'.
Defined.

(** Witness of X16: width 0 on [example_db], with fuel 1000. *)
Lemma non_positive_interval_never_returns_witness :
  compute_aggregates 1000 example_db "s1" 0 = None.
Proof.
  apply (non_positive_interval_never_returns example_db "s1" 0 100 160);
    [reflexivity|lia|lia|lia].
Defined.


End StatisticsLaws.

(** ** Laws of the session manager under the calls of the logger *)

Module LifecycleLaws.
Import Database SessionManager Lifecycle SessionLaws.

Section DictMore.
Context {K V : Type} `{EqDecision K}.

Lemma odict_lookup_None (k : K) (d : list (K * V)) :
  odict_lookup k d = None ↔ k ∉ d.*1.
Proof.
  induction d as [|[k0 v0] d IH]; simpl.
  - split; [intros _; apply not_elem_of_nil|done].
  - destruct (decide (k0 = k)) as [->|Hne].
    + split; [done|]. intros Hn. destruct Hn. by left.
    + rewrite IH, not_elem_of_cons. split; [by intros ?|by intros [_ ?]].
Qed.

Lemma odict_lookup_Some_elem (k : K) (d : list (K * V)) :
  is_Some (odict_lookup k d) ↔ k ∈ d.*1.
Proof.
  rewrite <- not_eq_None_Some, odict_lookup_None.
  destruct (decide (k ∈ d.*1)) as [Hin|Hnin]; [split; [done|by intros _ ?]|].
  split; [by intros ?|done].
Qed.

Lemma odict_set_keys (k : K) (v : V) (d : list (K * V)) :
  (odict_set k v d).*1 = if decide (k ∈ d.*1) then d.*1 else d.*1 ++ [k].
Proof.
  induction d as [|[k0 v0] d IH].
  - simpl. destruct (decide (k ∈ [])) as [Hin|]; [by apply elem_of_nil in Hin|done].
  - cbn [odict_set]. destruct (decide (k0 = k)) as [->|Hne].
    + rewrite decide_True; [done|]. rewrite fmap_cons. by left.
    + rewrite !fmap_cons, IH. simpl. destruct (decide (k ∈ d.*1)) as [Hin|Hnin].
      * rewrite decide_True; [done|by right].
      * rewrite decide_False; [done|].
        intros [?|?]%elem_of_cons; [congruence|done].
Qed.

Lemma odict_set_NoDup (k : K) (v : V) (d : list (K * V)) :
  NoDup (d.*1) → NoDup ((odict_set k v d).*1).
Proof.
  intros Hnd. rewrite odict_set_keys. destruct (decide _) as [?|Hnin]; [done|].
  apply NoDup_app. split_and!; [done| |apply NoDup_singleton].
  intros x Hx ->%list_elem_of_singleton. done.
Qed.

Lemma odict_del_keys (k : K) (d d' : list (K * V)) :
  odict_del k d = Some d' → d'.*1 `sublist_of` d.*1.
Proof.
  revert d'. induction d as [|[k0 v0] d IH]; intros d'; simpl; [done|].
  destruct (decide (k0 = k)) as [->|Hne].
  - intros [= <-]. by apply sublist_cons.
  - destruct (odict_del k d) as [d1|]; [|done]. simpl. intros [= <-]. simpl.
    apply sublist_skip. by apply IH.
Qed.

Lemma odict_del_NoDup (k : K) (d d' : list (K * V)) :
  NoDup (d.*1) → odict_del k d = Some d' → NoDup (d'.*1).
Proof. intros Hnd Hd. eapply sublist_NoDup; [exact Hnd|]. by eapply odict_del_keys. Qed.

Lemma odict_del_None (k : K) (d : list (K * V)) :
  odict_del k d = None ↔ odict_lookup k d = None.
Proof.
  induction d as [|[k0 v0] d IH]; simpl; [done|].
  destruct (decide (k0 = k)); [done|].
  rewrite <- IH. by destruct (odict_del k d).
Qed.

End DictMore.

Section Laws.
Variable clock : nat → Z.
Variable uuid_hex8 : nat → string.
Variable gap_seconds : Z.

Local Abbreviation close_session := (close_session clock).
Local Abbreviation closed_db := (closed_db clock).
Local Abbreviation get_active_session := (get_active_session clock).
Local Abbreviation create_session := (create_session clock uuid_hex8).
Local Abbreviation in_memory_session := (in_memory_session clock gap_seconds).
Local Abbreviation stored_or_new_session :=
  (stored_or_new_session clock uuid_hex8 gap_seconds).
Local Abbreviation get_or_create_session :=
  (get_or_create_session clock uuid_hex8 gap_seconds).
Local Abbreviation sweep := (sweep clock gap_seconds).
Local Abbreviation check_inactive_sessions :=
  (check_inactive_sessions clock gap_seconds).
Local Abbreviation close_all_sessions := (close_all_sessions clock).
Local Abbreviation update_activity := (update_activity clock).
Local Abbreviation update_session_end_time := (update_session_end_time clock).
Local Abbreviation do_call := (do_call clock uuid_hex8 gap_seconds).
Local Abbreviation do_calls := (do_calls clock uuid_hex8 gap_seconds).
Local Abbreviation stale := (stale gap_seconds).
Local Abbreviation closed_since := (closed_since clock).

Lemma well_formed_dicts s s' :
  active_sessions s' = active_sessions s → last_activity s' = last_activity s →
  well_formed s → well_formed s'.
Proof. unfold well_formed. by intros -> ->. Qed.

Lemma well_formed_set_last d t s :
  well_formed s → well_formed (set_last_activity (odict_set d t (last_activity s)) s).
Proof.
  intros (Ha & Hl & Hin). split_and!; simpl; [done|by apply odict_set_NoDup|].
  intros d' Hd'. destruct (decide (d = d')) as [->|Hne].
  - rewrite odict_lookup_set_eq. by eexists.
  - rewrite odict_lookup_set_ne by done. by apply Hin.
Qed.

Lemma well_formed_register d t sid s :
  well_formed s →
  well_formed (set_last_activity (odict_set d t (last_activity s))
                 (set_active_sessions (odict_set d sid (active_sessions s)) s)).
Proof.
  intros (Ha & Hl & Hin). split_and!; simpl; [by apply odict_set_NoDup..|].
  intros d' Hd'. simpl in Hd'. destruct (decide (d = d')) as [->|Hne].
  - rewrite odict_lookup_set_eq. by eexists.
  - rewrite odict_lookup_set_ne in Hd' by done.
    rewrite odict_lookup_set_ne by done. by apply Hin.
Qed.

(** [_close_session] in a well-formed state: it returns, and removes the
    device from both dicts when it had a session. *)
Lemma close_session_wf d s :
  well_formed s →
  ∃ s', close_session d s = (Returned tt, s')
    ∧ well_formed s'
    ∧ odict_lookup d (active_sessions s') = None
    ∧ (∀ d', d' ≠ d →
         odict_lookup d' (active_sessions s') = odict_lookup d' (active_sessions s)
         ∧ odict_lookup d' (last_activity s') = odict_lookup d' (last_activity s))
    ∧ odict_lookup d (last_activity s')
      = match odict_lookup d (active_sessions s) with
        | Some _ => None
        | None => odict_lookup d (last_activity s)
        end
    ∧ uuids s' = uuids s
    ∧ db s' = match odict_lookup d (active_sessions s) with
              | Some sid => closed_db sid s
              | None => db s
              end
    ∧ ticks s' = match odict_lookup d (active_sessions s) with
                 | Some _ => S (S (ticks s))
                 | None => ticks s
                 end
    ∧ (odict_lookup d (active_sessions s) = None → s' = s)
    ∧ (∀ active', odict_del d (active_sessions s) = Some active' → active_sessions s' = active').
Proof.
  intros (Ha & Hl & Hin). pose proof (close_session_cases clock d s) as Hc.
  destruct (odict_lookup d (active_sessions s)) as [sid|] eqn:E.
  - destruct Hc as (active' & Hd & ->).
    destruct (odict_del_is_Some d (last_activity s)) as [last' Hdl].
    { apply Hin. by eexists. }
    rewrite Hdl. eexists. split; [done|]. simpl. split_and!; try done.
    + split_and!; simpl; [by eapply odict_del_NoDup|by eapply odict_del_NoDup|].
      intros d' Hd'. destruct (decide (d = d')) as [->|Hne].
      * rewrite (odict_lookup_del_eq d' _ _ Ha Hd) in Hd'. by destruct Hd'.
      * rewrite (odict_lookup_del_ne d d' _ _ Hd) in Hd' by done.
        rewrite (odict_lookup_del_ne d d' _ _ Hdl) by done. by apply Hin.
    + by apply (odict_lookup_del_eq d _ _ Ha).
    + intros d' Hne. split.
      * by apply (odict_lookup_del_ne d d' _ _ Hd).
      * by apply (odict_lookup_del_ne d d' _ _ Hdl).
    + by apply (odict_lookup_del_eq d _ _ Hl).
    + congruence.
  - exists s. rewrite Hc. split_and!; try done.
    intros active' Hd. apply odict_del_None in E. congruence.
Qed.

Lemma create_session_cases device_id name s :
  let sid := "session_" +:+ uuid_hex8 (uuids s) +:+ "_" +:+ pretty (clock (ticks s)) in
  let s0 := set_ticks (S (S (ticks s))) (set_uuids (S (uuids s)) s) in
  create_session device_id name s =
  if decide (sid ∈ s_session_id <$> sessions (db s))
  then (Raised IntegrityError, s0)
  else (Returned sid,
        set_db (set_sessions
          (sessions (db s) ++ [SessionRow sid (clock (S (ticks s))) None device_id name None])
          (db s)) s0).
Proof.
  unfold SessionManager.create_session, bind, uuid4_hex8, time_time, get, modify, ret, raise.
  simpl. by destruct (decide _).
Qed.

Lemma latest_spec (rows : list session_row) :
  match latest rows with
  | None => rows = []
  | Some r => r ∈ rows ∧ Forall (λ r', s_start_time r' ≤ s_start_time r) rows
  end.
Proof.
  unfold latest.
  assert (Hgen : ∀ l best,
    match foldl (λ best r, match best with
                           | None => Some r
                           | Some b => if s_start_time b <? s_start_time r then Some r else Some b
                           end) best l with
    | None => best = None ∧ l = []
    | Some r =>
        (best = Some r ∨ r ∈ l)
        ∧ Forall (λ r', s_start_time r' ≤ s_start_time r) l
        ∧ ∀ b, best = Some b → s_start_time b ≤ s_start_time r
    end).
  { induction l as [|a l IH]; intros best; simpl.
    - destruct best as [b|]; [|done]. split_and!; [by left|constructor|].
      intros b' [= ->]. lia.
    - specialize (IH (match best with
                      | None => Some a
                      | Some b => if s_start_time b <? s_start_time a then Some a else Some b
                      end)).
      destruct (foldl _ _ l) as [r|].
      + destruct IH as (Hin & Hall & Hb). split_and!.
        * destruct best as [b|].
          -- destruct (s_start_time b <? s_start_time a);
               destruct Hin as [[= <-]|?]; [right; by left|right; by right|by left|right; by right].
          -- destruct Hin as [[= <-]|?]; [right; by left|right; by right].
        * constructor; [|done]. destruct best as [b|].
          -- destruct (Z.ltb_spec (s_start_time b) (s_start_time a)).
             ++ by apply Hb.
             ++ specialize (Hb b eq_refl). lia.
          -- by apply Hb.
        * intros b ->. destruct (Z.ltb_spec (s_start_time b) (s_start_time a)).
          -- specialize (Hb a eq_refl). lia.
          -- by apply Hb.
      + destruct IH as [Hbest _]. destruct best as [b|]; [|done].
        by destruct (s_start_time b <? s_start_time a). }
  specialize (Hgen rows None). destruct (foldl _ None rows) as [r|].
  - destruct Hgen as ([?|?] & ? & _); done.
  - by destruct Hgen.
Qed.

Lemma get_active_session_cases device_id gap s :
  ∃ found,
    get_active_session device_id gap s = (Returned found, set_ticks (S (ticks s)) s)
    ∧ match found with
      | None => Forall (λ r, ¬ eligible device_id (clock (ticks s) - gap) (db s) r)
                  (sessions (db s))
      | Some sid =>
          ∃ r, r ∈ sessions (db s) ∧ s_session_id r = sid
               ∧ eligible device_id (clock (ticks s) - gap) (db s) r
               ∧ Forall (λ r', eligible device_id (clock (ticks s) - gap) (db s) r' →
                               s_start_time r' ≤ s_start_time r) (sessions (db s))
      end.
Proof.
  unfold SessionManager.get_active_session, bind, time_time, get, ret. simpl.
  set (cand := filter _ (sessions (db s))).
  eexists. split; [reflexivity|].
  pose proof (latest_spec cand) as Hl.
  destruct (latest cand) as [r|]; simpl.
  - destruct Hl as [Hin Hall]. exists r.
    apply list_elem_of_filter in Hin as [Hel Hin]. split_and!; [done..|].
    apply Forall_forall. intros r' Hr' Hel'. rewrite Forall_forall in Hall.
    apply Hall. by apply list_elem_of_filter.
  - apply Forall_forall. intros r Hr Hel.
    assert (Hin : r ∈ cand) by by apply list_elem_of_filter.
    rewrite Hl in Hin. by apply elem_of_nil in Hin.
Qed.

Lemma stored_or_new_session_wf device_id name ct s o s' :
  well_formed s →
  stored_or_new_session device_id name ct s = (o, s') →
  well_formed s' ∧ ((∃ sid, o = Returned sid) ∨ o = Raised IntegrityError).
Proof.
  intros Hwf. unfold SessionManager.stored_or_new_session. unfold bind at 1.
  destruct (get_active_session_spec clock device_id gap_seconds s) as [found ->].
  assert (Hwf0 : well_formed (set_ticks (S (ticks s)) s)) by by eapply well_formed_dicts.
  assert (Hreg : ∀ sid s0, well_formed s0 →
    register_session device_id ct sid s0 = (o, s') →
    well_formed s' ∧ ((∃ sid', o = Returned sid') ∨ o = Raised IntegrityError)).
  { intros sid s0 H0. rewrite register_session_spec. intros [= <- <-]. split.
    - by apply well_formed_register.
    - left. by eexists. }
  assert (Hnew : ∀ s0, well_formed s0 →
    bind (create_session device_id name)
      (λ session_id, register_session device_id ct session_id) s0 = (o, s') →
    well_formed s' ∧ ((∃ sid', o = Returned sid') ∨ o = Raised IntegrityError)).
  { intros s0 H0. unfold bind. rewrite create_session_cases.
    destruct (decide _).
    - intros [= <- <-]. split; [by eapply well_formed_dicts|by right].
    - apply Hreg. by eapply well_formed_dicts. }
  destruct found as [sid|]; [|by apply Hnew].
  destruct (decide (sid = "")); [by apply Hnew|by apply Hreg].
Qed.

Lemma in_memory_session_wf device_id ct s :
  well_formed s →
  ∃ o s', in_memory_session device_id ct s = (Returned o, s') ∧ well_formed s'.
Proof.
  intros Hwf. unfold SessionManager.in_memory_session, bind, get, modify, ret. simpl.
  destruct (odict_lookup device_id (active_sessions s)) as [sid|] eqn:E; [|by eexists _, _].
  destruct (gap_seconds <? _).
  - destruct (close_session_wf device_id s Hwf) as (s' & -> & Hwf' & _). by eexists _, _.
  - simpl. eexists _, _. split; [done|]. by apply well_formed_set_last.
Qed.

Lemma get_or_create_session_wf device_id name s o s' :
  well_formed s →
  get_or_create_session device_id name s = (o, s') →
  well_formed s' ∧ ((∃ sid, o = Returned sid) ∨ o = Raised IntegrityError).
Proof.
  intros Hwf. unfold SessionManager.get_or_create_session. unfold bind at 1.
  unfold time_time at 1. unfold bind at 1.
  assert (Hwf0 : well_formed (set_ticks (S (ticks s)) s)) by by eapply well_formed_dicts.
  destruct (in_memory_session_wf device_id (clock (ticks s)) _ Hwf0) as (o1 & s1 & -> & Hwf1).
  destruct o1 as [sid|].
  - intros [= <- <-]. split; [done|]. left. by eexists.
  - by apply stored_or_new_session_wf.
Qed.

Lemma update_activity_spec device_id s :
  update_activity device_id s =
  (Returned tt,
   set_last_activity (odict_set device_id (clock (ticks s)) (last_activity s))
     (set_ticks (S (ticks s)) s)).
Proof. done. Qed.

(** *** The sweep *)

(** The loop of the sweep over distinct keys, with [closes] telling which of
    them are stale. *)
Lemma sweep_spec ct items : ∀ s,
  well_formed s → NoDup (items.*1) →
  let closes d := match odict_lookup d items with
                  | Some last_time => gap_seconds <? ct - last_time
                  | None => false
                  end in
  ∃ s', sweep ct items s = (Returned tt, s')
    ∧ well_formed s'
    ∧ (∀ d, odict_lookup d (active_sessions s')
            = if closes d then None else odict_lookup d (active_sessions s))
    ∧ (∀ d, odict_lookup d (last_activity s')
            = if closes d && bool_decide (is_Some (odict_lookup d (active_sessions s)))
              then None else odict_lookup d (last_activity s))
    ∧ (s_session_id <$> sessions (db s')) = (s_session_id <$> sessions (db s))
    ∧ raw_metrics (db s') = raw_metrics (db s)
    ∧ aggregated_metrics (db s') = aggregated_metrics (db s)
    ∧ (∀ sid, (∀ d, odict_lookup d (active_sessions s) = Some sid → closes d = false) →
              end_time_of sid (db s') = end_time_of sid (db s)).
Proof.
  induction items as [|[d0 la0] items IH]; intros s Hwf Hnd closes.
  { exists s. simpl. split_and!; done. }
  simpl in Hnd. apply NoDup_cons in Hnd as [Hfresh Hnd].
  assert (Hc0 : ∀ d, closes d = if decide (d0 = d) then gap_seconds <? ct - la0
                       else match odict_lookup d items with
                            | Some last_time => gap_seconds <? ct - last_time
                            | None => false
                            end).
  { intros d. unfold closes. simpl. by destruct (decide (d0 = d)). }
  assert (Hfr : odict_lookup d0 items = None) by by apply odict_lookup_None.
  cbn [SessionManager.sweep]. unfold bind at 1.
  destruct (gap_seconds <? ct - la0) eqn:Hst.
  - destruct (close_session_wf d0 s Hwf)
      as (s1 & -> & Hwf1 & Ha0 & Hother & Hl0 & _ & Hdb & _ & _ & _).
    destruct (IH s1 Hwf1 Hnd) as (s' & -> & Hwf' & Ha & Hl & Hids & Hraw & Hagg & Hend).
    exists s'. split; [done|]. split; [done|].
    assert (Hids1 : (s_session_id <$> sessions (db s1)) = (s_session_id <$> sessions (db s))
                   ∧ raw_metrics (db s1) = raw_metrics (db s)
                   ∧ aggregated_metrics (db s1) = aggregated_metrics (db s)).
    { rewrite Hdb. destruct (odict_lookup d0 (active_sessions s)); [|done].
      unfold SessionManager.closed_db. simpl. split; [apply session_ids_update|done]. }
    split_and!.
    + intros d. rewrite Ha, Hc0. destruct (decide (d0 = d)) as [<-|Hne].
      * by rewrite Hfr.
      * by rewrite (proj1 (Hother d (not_eq_sym Hne))).
    + intros d. rewrite Hl, Hc0. destruct (decide (d0 = d)) as [<-|Hne].
      * rewrite Hfr. simpl. rewrite Hl0.
        destruct (odict_lookup d0 (active_sessions s)) eqn:E.
        -- rewrite bool_decide_eq_true_2; [done|by eexists].
        -- rewrite bool_decide_eq_false_2; [done|]. by intros [? ?].
      * destruct (Hother d (not_eq_sym Hne)) as [-> ->]. done.
    + rewrite Hids. apply Hids1.
    + rewrite Hraw. apply Hids1.
    + rewrite Hagg. apply Hids1.
    + intros sid Hsid. rewrite Hend.
      * rewrite Hdb. destruct (odict_lookup d0 (active_sessions s)) as [sid0|] eqn:E; [|done].
        unfold SessionManager.closed_db. apply end_time_of_update_ne.
        intros ->. specialize (Hsid d0 E). rewrite Hc0, decide_True in Hsid by done.
        congruence.
      * intros d Hd. destruct (decide (d0 = d)) as [<-|Hne]; [congruence|].
        rewrite (proj1 (Hother d (not_eq_sym Hne))) in Hd.
        specialize (Hsid d Hd). rewrite Hc0, decide_False in Hsid by done. done.
  - simpl. destruct (IH s Hwf Hnd) as (s' & -> & Hwf' & Ha & Hl & Hids & Hraw & Hagg & Hend).
    exists s'. split; [done|]. split; [done|]. split_and!; try done.
    + intros d. rewrite Ha, Hc0. destruct (decide (d0 = d)) as [<-|Hne]; [by rewrite Hfr|done].
    + intros d. rewrite Hl, Hc0. destruct (decide (d0 = d)) as [<-|Hne]; [by rewrite Hfr|done].
    + intros sid Hsid. apply Hend. intros d Hd. specialize (Hsid d Hd).
      rewrite Hc0 in Hsid. destruct (decide (d0 = d)) as [<-|Hne]; [by rewrite Hfr|done].
Qed.

Lemma check_inactive_sessions_returns s :
  well_formed s →
  ∃ s', check_inactive_sessions s = (Returned tt, s') ∧ well_formed s'.
Proof.
  intros Hwf.
  unfold SessionManager.check_inactive_sessions, bind, time_time, get. simpl.
  destruct (sweep_spec (clock (ticks s)) (last_activity s) (set_ticks (S (ticks s)) s))
    as (s' & Hs' & Hwf' & _).
  - by eapply well_formed_dicts.
  - apply Hwf.
  - by exists s'.
Qed.

(** *** Closing every session *)

Lemma closed_db_end_time sid sid' s x :
  end_time_of sid (db s) = Some x →
  end_time_of sid (closed_db sid' s)
  = Some (if decide (sid' = sid) then Some (clock (ticks s)) else x).
Proof.
  intros Hx. unfold SessionManager.closed_db. destruct (decide (sid' = sid)) as [->|Hne].
  - apply end_time_of_update_eq. by eapply end_time_of_elem.
  - by rewrite end_time_of_update_ne.
Qed.

Lemma close_session_closed_since lo sid d s s' :
  well_formed s → close_session d s = (Returned tt, s') →
  closed_since lo sid s → closed_since lo sid s'.
Proof.
  intros Hwf Hc (k & Hk & Hend).
  destruct (close_session_wf d s Hwf) as (s1 & Hs1 & _ & _ & _ & _ & _ & Hdb & Ht & _).
  rewrite Hc in Hs1. injection Hs1 as <-.
  destruct (odict_lookup d (active_sessions s)) as [sid0|].
  - unfold closed_since. rewrite Hdb, Ht, (closed_db_end_time _ _ _ _ Hend).
    destruct (decide (sid0 = sid)).
    + exists (ticks s). split; [lia|done].
    + exists k. split; [lia|done].
  - exists k. rewrite Hdb, Ht. done.
Qed.

(** The loop of [close_all_sessions] over any list of keys. *)
Lemma close_loop_spec ds : ∀ s,
  well_formed s →
  ∃ s', (fix go (keys : list string) : M unit :=
           match keys with
           | [] => ret tt
           | device_id :: keys' => close_session device_id >> go keys'
           end) ds s = (Returned tt, s')
    ∧ well_formed s'
    ∧ (ticks s ≤ ticks s')%nat
    ∧ (∀ d, odict_lookup d (active_sessions s')
            = if decide (d ∈ ds) then None else odict_lookup d (active_sessions s))
    ∧ (∀ d, odict_lookup d (last_activity s')
            = if decide (d ∈ ds)
              then match odict_lookup d (active_sessions s) with
                   | Some _ => None
                   | None => odict_lookup d (last_activity s)
                   end
              else odict_lookup d (last_activity s))
    ∧ (∀ lo sid, closed_since lo sid s → closed_since lo sid s')
    ∧ (∀ d sid, d ∈ ds → odict_lookup d (active_sessions s) = Some sid →
                sid ∈ s_session_id <$> sessions (db s) →
                closed_since (ticks s) sid s')
    ∧ (s_session_id <$> sessions (db s')) = (s_session_id <$> sessions (db s))
    ∧ raw_metrics (db s') = raw_metrics (db s).
Proof.
  induction ds as [|d0 ds IH]; intros s Hwf.
  { exists s. split_and!; try done.
    all: try (intros d; destruct (decide (d ∈ [])) as [Hin|];
              [by apply elem_of_nil in Hin|done]).
    all: by intros d sid ?%elem_of_nil. }
  unfold bind at 1.
  destruct (close_session_wf d0 s Hwf)
    as (s1 & Hc & Hwf1 & Ha0 & Hother & Hl0 & _ & Hdb & Ht & _ & _).
  rewrite Hc.
  destruct (IH s1 Hwf1) as (s' & -> & Hwf' & Hticks & Ha & Hl & Hkeep & Hclosed & Hids & Hraw).
  assert (Ht1 : (ticks s ≤ ticks s1)%nat).
  { rewrite Ht. destruct (odict_lookup d0 (active_sessions s)); lia. }
  assert (Hids1 : (s_session_id <$> sessions (db s1)) = (s_session_id <$> sessions (db s))
                 ∧ raw_metrics (db s1) = raw_metrics (db s)).
  { rewrite Hdb. destruct (odict_lookup d0 (active_sessions s)); [|done].
    unfold SessionManager.closed_db. simpl. split; [apply session_ids_update|done]. }
  exists s'. split; [done|]. split; [done|]. split_and!.
  - lia.
  - intros d. rewrite Ha. destruct (decide (d = d0)) as [->|Hne].
    + rewrite (decide_True (P := d0 ∈ d0 :: ds)) by (by left).
      rewrite Ha0. by destruct (decide _).
    + rewrite (proj1 (Hother d Hne)).
      destruct (decide (d ∈ ds)) as [Hin|Hnin].
      * by rewrite (decide_True (P := d ∈ d0 :: ds)) by (by right).
      * rewrite (decide_False (P := d ∈ d0 :: ds)); [done|].
        by intros [?|?]%elem_of_cons.
  - intros d. rewrite Hl. destruct (decide (d = d0)) as [->|Hne].
    + rewrite (decide_True (P := d0 ∈ d0 :: ds)) by (by left).
      rewrite Ha0, Hl0. by destruct (decide _).
    + destruct (Hother d Hne) as [-> ->].
      destruct (decide (d ∈ ds)) as [Hin|Hnin].
      * by rewrite (decide_True (P := d ∈ d0 :: ds)) by (by right).
      * rewrite (decide_False (P := d ∈ d0 :: ds)); [done|].
        by intros [?|?]%elem_of_cons.
  - intros lo sid Hcl. apply Hkeep.
    exact (close_session_closed_since lo sid d0 s s1 Hwf Hc Hcl).
  - intros d sid Hin Hd Hsid. destruct (decide (d = d0)) as [->|Hne].
    + apply Hkeep. unfold closed_since. rewrite Hdb, Ht, Hd.
      exists (ticks s). split; [lia|].
      unfold SessionManager.closed_db. by apply end_time_of_update_eq.
    + apply elem_of_cons in Hin as [?|Hin]; [done|].
      destruct (Hclosed d sid Hin) as (k & Hk & Hend).
      * by rewrite (proj1 (Hother d Hne)).
      * by rewrite (proj1 Hids1).
      * exists k. split; [lia|done].
  - rewrite Hids. apply Hids1.
  - rewrite Hraw. apply Hids1.
Qed.

Lemma odict_lookup_nil_all {V} (d : list (string * V)) :
  (∀ k, odict_lookup k d = None) → d = [].
Proof.
  destruct d as [|[k v] d]; [done|]. intros H. specialize (H k). simpl in H.
  by rewrite decide_True in H.
Qed.

Lemma close_all_sessions_returns s :
  well_formed s →
  ∃ s', close_all_sessions s = (Returned tt, s') ∧ well_formed s'.
Proof.
  intros Hwf. unfold SessionManager.close_all_sessions, bind at 1, get.
  destruct (close_loop_spec ((active_sessions s).*1) s Hwf) as (s' & Hs' & Hwf' & _).
  by exists s'.
Qed.

(** X19.  The periodic sweep returns, and closes exactly the sessions of the
    devices whose activity time is more than [gap_seconds] older than the
    clock reading made at its start: these devices leave both dicts, every
    other entry of the dicts stays as it was (an activity time without a
    session is never removed), and the stored end time of a session that no
    stale device holds is not touched. *)
Theorem sweep_closes_exactly_the_stale_devices s :
  well_formed s →
  let now := clock (ticks s) in
  ∃ s', check_inactive_sessions s = (Returned tt, s')
    ∧ well_formed s'
    ∧ (∀ d, odict_lookup d (active_sessions s')
            = if stale now s d then None else odict_lookup d (active_sessions s))
    ∧ (∀ d, odict_lookup d (last_activity s')
            = if stale now s d && bool_decide (is_Some (odict_lookup d (active_sessions s)))
              then None else odict_lookup d (last_activity s))
    ∧ (s_session_id <$> sessions (db s')) = (s_session_id <$> sessions (db s))
    ∧ raw_metrics (db s') = raw_metrics (db s)
    ∧ (∀ sid, (∀ d, odict_lookup d (active_sessions s) = Some sid → stale now s d = false) →
              end_time_of sid (db s') = end_time_of sid (db s)).
Proof.
  intros Hwf now.
  unfold SessionManager.check_inactive_sessions, bind, time_time, get. simpl.
  destruct (sweep_spec now (last_activity s) (set_ticks (S (ticks s)) s))
    as (s' & Hs' & Hwf' & Ha & Hl & Hids & Hraw & _ & Hend).
  - by eapply well_formed_dicts.
  - apply Hwf.
  - exists s'. by split_and!.
Qed.

(** X20.  [close_all_sessions] returns; afterwards no device has a session, every
    session that was active and has a row holds as end time a clock reading
    made during the call, the activity times of the devices that had a
    session are gone, and the other activity times are still there. *)
Theorem close_all_sessions_closes_everything s :
  well_formed s →
  ∃ s', close_all_sessions s = (Returned tt, s')
    ∧ active_sessions s' = []
    ∧ well_formed s'
    ∧ (∀ d sid, odict_lookup d (active_sessions s) = Some sid →
                sid ∈ s_session_id <$> sessions (db s) →
                ∃ k, (ticks s ≤ k < ticks s')%nat
                     ∧ end_time_of sid (db s') = Some (Some (clock k)))
    ∧ (∀ d, odict_lookup d (last_activity s')
            = match odict_lookup d (active_sessions s) with
              | Some _ => None
              | None => odict_lookup d (last_activity s)
              end)
    ∧ (s_session_id <$> sessions (db s')) = (s_session_id <$> sessions (db s))
    ∧ raw_metrics (db s') = raw_metrics (db s).
Proof.
  intros Hwf. unfold SessionManager.close_all_sessions, bind at 1, get.
  destruct (close_loop_spec ((active_sessions s).*1) s Hwf)
    as (s' & Hs' & Hwf' & _ & Ha & Hl & _ & Hclosed & Hids & Hraw).
  exists s'. split; [exact Hs'|]. split_and!; try done.
  - apply odict_lookup_nil_all. intros k. rewrite Ha.
    destruct (decide _) as [?|Hn]; [done|]. by apply odict_lookup_None.
  - intros d sid Hd Hsid. apply (Hclosed d sid); [|done..].
    apply odict_lookup_Some_elem. by eexists.
  - intros d. rewrite Hl. destruct (decide _) as [?|Hn]; [done|].
    apply odict_lookup_None in Hn. by rewrite Hn.
Qed.

(** *** Every reachable state *)

Lemma do_call_wf c s :
  well_formed s →
  well_formed (do_call c s).2
  ∧ ((do_call c s).1 = Returned tt
     ∨ ((do_call c s).1 = Raised IntegrityError ∧ ∃ d n, c = Resolve d n)).
Proof.
  intros Hwf. destruct c as [d n|d| |]; unfold Lifecycle.do_call.
  - unfold bind.
    destruct (get_or_create_session d n s) as [o s'] eqn:E.
    destruct (get_or_create_session_wf d n s o s' Hwf E) as [Hwf' [[sid ->]| ->]].
    + split; [done|by left].
    + split; [done|]. right. split; [done|]. by eexists _, _.
  - rewrite update_activity_spec. simpl. split; [|by left].
    apply (well_formed_set_last d _ (set_ticks (S (ticks s)) s)).
    by eapply well_formed_dicts.
  - destruct (check_inactive_sessions_returns s Hwf) as (s' & -> & Hwf').
    split; [done|by left].
  - destruct (close_all_sessions_returns s Hwf) as (s' & -> & Hwf').
    split; [done|by left].
Qed.

Lemma do_calls_wf cs : ∀ s, well_formed s → well_formed (do_calls cs s).
Proof.
  induction cs as [|c cs IH]; intros s Hwf; simpl; [done|].
  apply IH. by apply do_call_wf.
Qed.

(** X21.  From a manager that starts with empty dicts, whatever calls the logger
    makes, in whatever order, and whether or not some of them raised: both
    dicts hold each device once, every device with a session has an activity
    time, and the next call returns, unless it is a resolve whose new session
    id is already taken ([IntegrityError]); in particular the two [del]s of
    [_close_session] never raise [KeyError]. *)
Theorem manager_calls_never_raise_KeyError d0 t u cs c :
  let s := do_calls cs (State d0 [] [] t u) in
  well_formed s
  ∧ ((do_call c s).1 = Returned tt
     ∨ ((do_call c s).1 = Raised IntegrityError ∧ ∃ d n, c = Resolve d n)).
Proof.
  intros s. assert (Hwf : well_formed s).
  { apply do_calls_wf. split_and!; simpl; [constructor..|]. by intros d [? ?]. }
  split; [done|]. by apply do_call_wf.
Qed.

(** *** The reactivation query *)

(** X22.  [get_active_session] reads the clock once and changes nothing else.  It
    returns the id of a session of the device that is open (no end time) and
    has a stored sample newer than the cutoff, one with the latest start
    time among these; it returns [None] exactly when there is no such
    session, so a session without stored samples is never returned. *)
Theorem get_active_session_picks_latest_open_session device_id gap s :
  let cutoff_time := clock (ticks s) - gap in
  ∃ found,
    get_active_session device_id gap s = (Returned found, set_ticks (S (ticks s)) s)
    ∧ (found = None ↔
         Forall (λ r, ¬ eligible device_id cutoff_time (db s) r) (sessions (db s)))
    ∧ (∀ sid, found = Some sid →
         ∃ r, r ∈ sessions (db s) ∧ s_session_id r = sid
              ∧ s_device_id r = device_id ∧ s_end_time r = None
              ∧ (∃ m, m ∈ raw_metrics (db s) ∧ m_session_id m = sid
                      ∧ cutoff_time < m_timestamp m)
              ∧ Forall (λ r', eligible device_id cutoff_time (db s) r' →
                              s_start_time r' ≤ s_start_time r) (sessions (db s))).
Proof.
  intros cutoff_time.
  destruct (get_active_session_cases device_id gap s) as (found & Heq & Hf).
  exists found. split; [done|]. destruct found as [sid|].
  - destruct Hf as (r & Hr & Hid & Hel & Hmax). split.
    + split; [done|]. intros Hall. rewrite Forall_forall in Hall. by destruct (Hall r Hr).
    + intros sid' [= <-]. exists r. destruct Hel as (Hd & He & Hex).
      split_and!; try done.
      apply Exists_exists in Hex as (m & Hm & Hms & Hmt). exists m.
      split_and!; [done|congruence|done].
  - split; [done|done].
Qed.

(** *** A resolve after the gap *)

Lemma closed_db_rows sid s r :
  r ∈ sessions (closed_db sid s) → s_session_id r = sid → s_end_time r ≠ None.
Proof.
  unfold SessionManager.closed_db. simpl. intros Hr Hid.
  apply list_elem_of_fmap in Hr as (r0 & -> & _).
  rewrite update_end_time_row_id in Hid.
  unfold update_end_time_row. by rewrite decide_True.
Qed.

Lemma register_open_row device_id ct sid s r :
  r ∈ sessions (db s) → s_session_id r = sid → s_end_time r = None →
  ∃ r', r' ∈ sessions (db (register_session device_id ct sid s).2)
        ∧ s_session_id r' = sid ∧ s_end_time r' = None.
Proof. intros. rewrite register_session_spec. simpl. by exists r. Qed.

(** X23.  When a device with a session is resolved more than [gap_seconds] after
    its last activity and the resolve returns, the session returned is not
    the old one: it is a session whose row holds no end time, either an open
    one of the database with a recent sample or a new one, and it is now the
    device's session. *)
Theorem resolve_after_gap_opens_another_session device_id name s sid la sid' s' :
  odict_lookup device_id (active_sessions s) = Some sid →
  odict_lookup device_id (last_activity s) = Some la →
  sid ∈ s_session_id <$> sessions (db s) →
  gap_seconds < clock (ticks s) - la →
  get_or_create_session device_id name s = (Returned sid', s') →
  sid' ≠ sid
  ∧ (∃ r, r ∈ sessions (db s') ∧ s_session_id r = sid' ∧ s_end_time r = None)
  ∧ odict_lookup device_id (active_sessions s') = Some sid'
  ∧ odict_lookup device_id (last_activity s') = Some (clock (ticks s)).
Proof.
  intros Ha Hl Hin Hgap Hres.
  pose proof (get_or_create_session_post clock uuid_hex8 gap_seconds _ _ _ _ _ Hres) as [Ha' Hl'].
  split_and!; [| |done..].
  all: revert Hres; unfold SessionManager.get_or_create_session; unfold bind at 1;
    unfold time_time at 1; set (s0 := set_ticks (S (ticks s)) s); unfold bind at 1.
  all: assert (Hmem : ∃ active' last', in_memory_session device_id (clock (ticks s)) s0
         = (Returned None, State (closed_db sid s0) active' last' (S (S (ticks s0))) (uuids s0))).
  1, 3: unfold SessionManager.in_memory_session, bind, get; simpl; rewrite Ha; simpl;
    rewrite Hl; simpl; destruct (Z.ltb_spec gap_seconds (clock (ticks s) - la)); [|lia];
    pose proof (close_session_cases clock device_id s0) as Hc; simpl in Hc; rewrite Ha in Hc;
    destruct Hc as (active' & Hd & ->);
    destruct (odict_del_is_Some device_id (last_activity s)) as [last' Hdl];
      [by eexists|]; rewrite Hdl; by eexists _, _.
  all: destruct Hmem as (active' & last' & ->); set (s1 := State _ _ _ _ _);
    unfold SessionManager.stored_or_new_session; unfold bind at 1;
    destruct (get_active_session_cases device_id gap_seconds s1) as (found & -> & Hf);
    set (s2 := set_ticks _ s1).
  all: assert (Hids : sid ∈ s_session_id <$> sessions (db s2))
    by (simpl; by rewrite session_ids_update).
  - assert (Hnew : bind (create_session device_id name)
                     (λ session_id, register_session device_id (clock (ticks s)) session_id) s2
                   = (Returned sid', s') → sid' ≠ sid).
    { unfold bind. rewrite create_session_cases. destruct (decide _) as [|Hfresh]; [done|].
      rewrite register_session_spec. intros [= Hs _] Heq. apply Hfresh.
      change (ticks s2) with (S (S (S (S (ticks s))))). change (uuids s2) with (uuids s).
      rewrite Hs, Heq. exact Hids. }
    destruct found as [sid2|]; [|exact Hnew].
    destruct (decide (sid2 = "")); [exact Hnew|].
    rewrite register_session_spec. intros [= <- _] ->.
    destruct Hf as (r & Hr & Hid & (_ & He & _) & _).
    by apply (closed_db_rows _ _ _ Hr Hid).
  - assert (Hnew : bind (create_session device_id name)
                     (λ session_id, register_session device_id (clock (ticks s)) session_id) s2
                   = (Returned sid', s') →
                   ∃ r, r ∈ sessions (db s') ∧ s_session_id r = sid' ∧ s_end_time r = None).
    { unfold bind. rewrite create_session_cases. destruct (decide _) as [|Hfresh]; [done|].
      rewrite register_session_spec. intros [= <- <-]. simpl.
      eexists. split; [apply elem_of_app; right; by left|done]. }
    destruct found as [sid2|]; [|exact Hnew].
    destruct (decide (sid2 = "")); [exact Hnew|].
    rewrite register_session_spec. intros [= <- <-]. simpl.
    destruct Hf as (r & Hr & Hid & (_ & He & _) & _). by exists r.
Qed.

(** *** Storing an end time *)

(** X24.  [update_session_end_time] always returns.  It stores the end time given,
    or the clock reading when none is given, in the row of the session, and
    changes no other end time; for a session id without row it changes
    nothing in the tables (the call is not refused). *)
Theorem update_session_end_time_spec sid end_time s :
  let r := update_session_end_time sid end_time s in
  let stored := default (clock (ticks s)) end_time in
  r.1 = Returned tt
  ∧ (sid ∈ s_session_id <$> sessions (db s) →
     end_time_of sid (db (r.2)) = Some (Some stored))
  ∧ (sid ∉ s_session_id <$> sessions (db s) → db (r.2) = db s)
  ∧ (∀ sid', sid' ≠ sid → end_time_of sid' (db (r.2)) = end_time_of sid' (db s))
  ∧ (s_session_id <$> sessions (db (r.2))) = (s_session_id <$> sessions (db s))
  ∧ raw_metrics (db (r.2)) = raw_metrics (db s)
  ∧ active_sessions (r.2) = active_sessions s
  ∧ last_activity (r.2) = last_activity s.
Proof.
  intros r stored. unfold r, stored, SessionManager.update_session_end_time.
  destruct end_time as [e|]; unfold bind, time_time, get, modify, ret; simpl.
  all: split_and!; try done;
    [by apply end_time_of_update_eq
    | intros Hn; destruct (db s) as [ss rm am]; unfold set_sessions; simpl in *; f_equal;
      induction ss as [|r0 ss IH]; [done|]; rewrite fmap_cons; f_equal;
        [unfold update_end_time_row; rewrite decide_False; [done|];
         intros Heq; apply Hn; rewrite <- Heq; by left
        |apply IH; intros Hin; apply Hn; by right]
    | intros sid' Hne; by apply end_time_of_update_ne
    | apply session_ids_update ].
Qed.

End Laws.

(** *** Witnesses *)

Lemma example_state_well_formed : well_formed example_state.
Proof.
  split_and!; simpl.
  - apply NoDup_singleton.
  - apply NoDup_singleton.
  - intros d. destruct (decide ("D1" = d)); [by eexists|by intros [? ?]].
Qed.

(** Witness of X19: [example_state] with a clock that starts at 301 and a gap
    of 300. *)
Lemma sweep_closes_exactly_the_stale_devices_witness :
  let clock := λ n : nat, 301 + Z.of_nat n in
  let s := example_state in
  let now := clock (ticks s) in
  ∃ s', check_inactive_sessions clock 300 s = (Returned tt, s')
    ∧ well_formed s'
    ∧ (∀ d, odict_lookup d (active_sessions s')
            = if stale 300 now s d then None else odict_lookup d (active_sessions s))
    ∧ (∀ d, odict_lookup d (last_activity s')
            = if stale 300 now s d && bool_decide (is_Some (odict_lookup d (active_sessions s)))
              then None else odict_lookup d (last_activity s))
    ∧ (s_session_id <$> sessions (db s')) = (s_session_id <$> sessions (db s))
    ∧ raw_metrics (db s') = raw_metrics (db s)
    ∧ (∀ sid, (∀ d, odict_lookup d (active_sessions s) = Some sid → stale 300 now s d = false) →
              end_time_of sid (db s') = end_time_of sid (db s)).
Proof.
  intros clock s now.
  apply (sweep_closes_exactly_the_stale_devices clock 300 example_state).
  apply example_state_well_formed.
Defined.

(** Witness of X20: [example_state] with a clock that starts at 301. *)
Lemma close_all_sessions_closes_everything_witness :
  let clock := λ n : nat, 301 + Z.of_nat n in
  let s := example_state in
  ∃ s', close_all_sessions clock s = (Returned tt, s')
    ∧ active_sessions s' = []
    ∧ well_formed s'
    ∧ (∀ d sid, odict_lookup d (active_sessions s) = Some sid →
                sid ∈ s_session_id <$> sessions (db s) →
                ∃ k, (ticks s ≤ k < ticks s')%nat
                     ∧ end_time_of sid (db s') = Some (Some (clock k)))
    ∧ (∀ d, odict_lookup d (last_activity s')
            = match odict_lookup d (active_sessions s) with
              | Some _ => None
              | None => odict_lookup d (last_activity s)
              end)
    ∧ (s_session_id <$> sessions (db s')) = (s_session_id <$> sessions (db s))
    ∧ raw_metrics (db s') = raw_metrics (db s).
Proof.
  intros clock s.
  apply (close_all_sessions_closes_everything clock example_state).
  apply example_state_well_formed.
Defined.

(** Witness of X23: device [D1] of [example_state], last active at 0, resolved
    from the clock reading 301 with a gap of 300. *)
Lemma resolve_after_gap_opens_another_session_witness :
  let clock := λ n : nat, 301 + Z.of_nat n in
  let uuid := λ _ : nat, "cd" in
  let s' := (get_or_create_session clock uuid 300 "D1" None example_state).2 in
  "session_cd_305" ≠ "session_ab_0"
  ∧ (∃ r, r ∈ sessions (db s') ∧ s_session_id r = "session_cd_305" ∧ s_end_time r = None)
  ∧ odict_lookup "D1" (active_sessions s') = Some "session_cd_305"
  ∧ odict_lookup "D1" (last_activity s') = Some (clock (ticks example_state)).
Proof.
  intros clock uuid s'.
  apply (resolve_after_gap_opens_another_session clock uuid 300 "D1" None example_state
           "session_ab_0" 0 "session_cd_305" s').
  - reflexivity.
  - reflexivity.
  - simpl. apply list_elem_of_singleton. reflexivity.
  - subst clock. simpl. lia.
  - reflexivity.
Defined.

End LifecycleLaws.

(** ** Laws of the flush *)

Module FlushLaws.
Import Database SessionManager Flush SessionLaws.

Lemma py_split_nonempty sep s : py_split sep s ≠ [].
Proof.
  destruct s as [|c s]; simpl; [done|].
  destruct (decide (c = sep)); [done|]. by destruct (py_split sep s).
Qed.

Lemma py_split_app sep (a b : string) :
  sep ∉ String.list_ascii_of_string a →
  py_split sep (a +:+ String sep b) = a :: py_split sep b.
Proof.
  induction a as [|c a IH]; simpl.
  - intros _. by rewrite decide_True.
  - intros Hn. apply not_elem_of_cons in Hn as [Hc Ha].
    rewrite decide_False by done. by rewrite IH.
Qed.

Lemma py_split_none sep (a : string) :
  sep ∉ String.list_ascii_of_string a → py_split sep a = [a].
Proof.
  induction a as [|c a IH]; simpl; [done|].
  intros Hn. apply not_elem_of_cons in Hn as [Hc Ha].
  rewrite decide_False by done. by rewrite IH.
Qed.

Lemma device_key_session_id (u t : string) :
  "_"%char ∉ String.list_ascii_of_string u →
  device_key ("session_" +:+ u +:+ "_" +:+ t) = Some u.
Proof.
  intros Hu. unfold device_key.
  change ("session_" +:+ u +:+ "_" +:+ t) with ("session" +:+ String "_"%char (u +:+ String "_"%char t)).
  rewrite py_split_app.
  - by rewrite py_split_app.
  - simpl. rewrite !not_elem_of_cons. split_and!; try done. apply not_elem_of_nil.
Qed.

Section Laws.
Variable clock : nat → Z.
Variable uuid_hex8 : nat → string.

(** X12.  For a session id made by [create_session], whose hexadecimal fragment
    holds no underscore, the key that [_flush_buffer] passes to
    [update_activity] is that fragment, not the device id: the call returns,
    sets the activity time stored under the fragment, creating the entry
    when there is none, and leaves the activity time of every other key and
    the active sessions as they were. *)
Theorem flush_records_activity_under_uuid_fragment device_id name s sid s1 s2 :
  "_"%char ∉ String.list_ascii_of_string (uuid_hex8 (uuids s)) →
  create_session clock uuid_hex8 device_id name s = (Returned sid, s1) →
  let key := uuid_hex8 (uuids s) in
  device_key sid = Some key
  ∧ ∃ s3, flush_activity clock sid s2 = Some (Returned tt, s3)
      ∧ odict_lookup key (last_activity s3) = Some (clock (ticks s2))
      ∧ (∀ d, d ≠ key → odict_lookup d (last_activity s3) = odict_lookup d (last_activity s2))
      ∧ active_sessions s3 = active_sessions s2.
Proof.
  intros Hu Hc key.
  assert (Hsid : sid = "session_" +:+ key +:+ "_" +:+ pretty (clock (ticks s))).
  { revert Hc. unfold SessionManager.create_session, bind, uuid4_hex8, time_time, get.
    simpl. destruct (decide _); [done|]. by intros [= <- _]. }
  assert (Hk : device_key sid = Some key) by (rewrite Hsid; by apply device_key_session_id).
  split; [done|]. unfold flush_activity. rewrite Hk.
  eexists. split; [reflexivity|]. simpl. split_and!; [|intros d Hd|done].
  - apply odict_lookup_set_eq.
  - by apply odict_lookup_set_ne.
Qed.

End Laws.

(** Witness of X12: the session id [session_cd_301] made for device [D1]. *)
Lemma flush_records_activity_under_uuid_fragment_witness :
  let clock := λ n : nat, 301 + Z.of_nat n in
  let uuid := λ _ : nat, "cd" in
  device_key "session_cd_301" = Some "cd"
  ∧ ∃ s3, flush_activity clock "session_cd_301" example_state = Some (Returned tt, s3)
      ∧ odict_lookup "cd" (last_activity s3) = Some (clock (ticks example_state))
      ∧ (∀ d, d ≠ "cd" → odict_lookup d (last_activity s3)
                          = odict_lookup d (last_activity example_state))
      ∧ active_sessions s3 = active_sessions example_state.
Proof.
  intros clock uuid.
  apply (flush_records_activity_under_uuid_fragment clock uuid "D1" None example_state
           "session_cd_301"
           (create_session clock uuid "D1" None example_state).2 example_state).
  - simpl. rewrite !not_elem_of_cons. split_and!; try done. apply not_elem_of_nil.
  - reflexivity.
Defined.

End FlushLaws.

(** ** More laws of the reconnection loop *)

Module BackoffLaws.
Import DataLogger Backoff.

Lemma round_failure r :
  running_before r = true → result r = ConnectFailed → running_after r = true → r = failure.
Proof. destruct r as [b res a]. simpl. by intros -> -> ->. Qed.

Lemma connect_loop_gives_up rounds : ∀ count,
  0 ≤ count ≤ 10 →
  (connect_loop count rounds).2 = Exited MaxRetries →
  (1 ≤ count ∧ ∃ rest, rounds = replicate (Z.to_nat (11 - count)) failure ++ rest)
  ∨ (∃ pre r0 rest, rounds = pre ++ r0 :: replicate 10 failure ++ rest ∧ lost r0).
Proof.
  induction rounds as [|r rounds IH]; intros count Hc; [done|].
  cbn [connect_loop].
  destruct (running_before r) eqn:Hb; [|done]. cbn [negb].
  destruct (result r) eqn:Hres; try done.
  all: destruct (running_after r) eqn:Ha; [|done]; cbn [negb].
  - (* the attempt failed *)
    pose proof (round_failure r Hb Hres Ha) as ->.
    destruct (Z.ltb_spec max_retries (count + 1)) as [Hmax|Hmax]; unfold max_retries in Hmax.
    + intros _. left. split; [lia|]. exists rounds.
      by replace (Z.to_nat (11 - count)) with 1%nat by lia.
    + cbn [snd]. intros Hexit.
      destruct (IH (count + 1)) as [[_ [rest ->]]|Hright]; [lia|done| |].
      * destruct (decide (count = 0)) as [->|Hne].
        -- right. exists [], failure, rest. split; [done|]. by split_and!.
        -- left. split; [lia|]. exists rest.
           replace (Z.to_nat (11 - count)) with (S (Z.to_nat (11 - (count + 1)))) by lia.
           done.
      * right. destruct Hright as (pre & r0 & rest & -> & Hl).
        by exists (failure :: pre), r0, rest.
  - (* connected, then dropped *)
    destruct (Z.ltb_spec max_retries (0 + 1)); [unfold max_retries in *; lia|].
    cbn [snd]. intros Hexit. right.
    destruct (IH (0 + 1)) as [[_ [rest ->]]|Hright]; [lia|done| |].
    + exists [], r, rest. split; [done|]. split_and!; [done..|]. by rewrite Hres.
    + destruct Hright as (pre & r0 & rest & -> & Hl). by exists (r :: pre), r0, rest.
  - (* connected, then the stream ended *)
    destruct (Z.ltb_spec max_retries (0 + 1)); [unfold max_retries in *; lia|].
    cbn [snd]. intros Hexit. right.
    destruct (IH (0 + 1)) as [[_ [rest ->]]|Hright]; [lia|done| |].
    + exists [], r, rest. split; [done|]. split_and!; [done..|]. by rewrite Hres.
    + destruct Hright as (pre & r0 & rest & -> & Hl). by exists (r :: pre), r0, rest.
Qed.

(** X25.  The loop gives up ("Max retries exceeded") only after eleven rounds in a
    row without a lasting connection while the service was running: ten
    failed attempts, preceded by a round that failed or whose connection
    was lost. *)
Theorem gives_up_only_after_eleven_losses rounds :
  (connect_and_consume rounds).2 = Exited MaxRetries →
  ∃ pre r0 rest,
    rounds = pre ++ r0 :: replicate 10 failure ++ rest
    ∧ running_before r0 = true ∧ running_after r0 = true ∧ result r0 ≠ InvalidURI.
Proof.
  intros H. destruct (connect_loop_gives_up rounds 0) as [[? _]|Hr]; [lia|done|lia|].
  destruct Hr as (pre & r0 & rest & -> & Hl). by exists pre, r0, rest.
Qed.

Lemma connect_loop_actions rounds : ∀ count,
  0 ≤ count →
  let acts := (connect_loop count rounds).1 in
  alternates acts
  ∧ Forall (λ a, match a with Sleep w => 2 ≤ w ≤ 30 | Connect => True end) acts
  ∧ (attempts acts ≤ length rounds)%nat.
Proof.
  induction rounds as [|r rounds IH]; intros count Hc; [by split_and!|].
  cbn [connect_loop].
  destruct (running_before r); cbn [negb]; [|simpl; split_and!; [done|apply Forall_nil|unfold attempts; simpl; lia]].
  assert (Hstep : ∀ c, 0 ≤ c →
    let acts := (if negb (running_after r) then ([Connect], Exited NotRunning)
                 else if max_retries <? c + 1 then ([Connect], Exited MaxRetries)
                 else (Connect :: Sleep (Z.min (2 ^ (c + 1)) 30) :: (connect_loop (c + 1) rounds).1,
                       (connect_loop (c + 1) rounds).2)).1 in
    alternates acts
    ∧ Forall (λ a, match a with Sleep w => 2 ≤ w ≤ 30 | Connect => True end) acts
    ∧ (attempts acts ≤ length (r :: rounds))%nat).
  { intros c Hc0.
    destruct (running_after r); cbn [negb]; [|simpl; split_and!; [done|by repeat constructor|unfold attempts; simpl; lia]].
    destruct (max_retries <? c + 1); [simpl; split_and!; [done|by repeat constructor|unfold attempts; simpl; lia]|].
    destruct (IH (c + 1)) as (Halt & Hall & Hatt); [lia|].
    cbn [fst]. split_and!.
    - done.
    - constructor; [done|]. constructor; [|done].
      assert (2 ^ 1 ≤ 2 ^ (c + 1)) by (apply Z.pow_le_mono_r; lia). lia.
    - unfold attempts in *. simpl. lia. }
  destruct (result r).
  - apply (Hstep count Hc).
  - simpl. split_and!; [done|by repeat constructor|unfold attempts; simpl; lia].
  - apply (Hstep 0). lia.
  - apply (Hstep 0). lia.
  - done.
Qed.

(** X26.  Whatever happens to the connections, the loop attempts and waits in
    turn, starting with an attempt; it never waits less than 2 or more than
    30 seconds; and it makes at most one attempt per round. *)
Theorem reconnection_waits_are_bounded rounds :
  let acts := (connect_and_consume rounds).1 in
  alternates acts
  ∧ Forall (λ a, match a with Sleep w => 2 ≤ w ≤ 30 | Connect => True end) acts
  ∧ (attempts acts ≤ length rounds)%nat.
Proof. apply connect_loop_actions. lia. Qed.

(** Witness of X25: eleven failures in a row. *)
Lemma gives_up_only_after_eleven_losses_witness :
  ∃ pre r0 rest,
    replicate 11 failure = pre ++ r0 :: replicate 10 failure ++ rest
    ∧ running_before r0 = true ∧ running_after r0 = true ∧ result r0 ≠ InvalidURI.
Proof.
  apply (gives_up_only_after_eleven_losses (replicate 11 failure)). reflexivity.
Defined.

End BackoffLaws.

(** ** Laws of the order of the floats *)

Module FloatOrderLaws.
Import FloatOrder.

Lemma digits2_pos_bound (m : positive) : Z.pos m < 2 ^ Z.pos (digits2_pos m).
Proof.
  induction m as [m IH|m IH|]; simpl digits2_pos.
  - rewrite Pos2Z.inj_succ, Z.pow_succ_r by lia. lia.
  - rewrite Pos2Z.inj_succ, Z.pow_succ_r by lia. lia.
  - reflexivity.
Qed.

Lemma valid_finite s m e :
  valid_binary (S754_finite s m e) = true →
  0 < e + 1075 ∧ e ≤ 971 ∧ Z.pos m < 2 ^ 53.
Proof.
  unfold valid_binary, bounded, canonical_mantissa, fexp, emin.
  intros [Hc He]%andb_prop. apply Z.eqb_eq in Hc. apply Z.leb_le in He.
  change prec with 53 in *. change emax with 1024 in *.
  pose proof (digits2_pos_bound m) as Hm.
  assert (Hd : Z.pos (digits2_pos m) ≤ 53) by lia.
  split_and!; [lia|lia|].
  eapply Z.lt_le_trans; [exact Hm|]. apply Z.pow_le_mono_r; lia.
Qed.

Lemma SFcompare_rank x y :
  valid_binary x = true → valid_binary y = true →
  x ≠ S754_nan → y ≠ S754_nan →
  SFcompare x y = Some (rank_sf x ?= rank_sf y).
Proof.
  intros Hx Hy Hnx Hny.
  destruct x as [sx|sx| |sx mx ex], y as [sy|sy| |sy my ey]; try done.
  all: try (apply valid_finite in Hx as (Hx1 & Hx2 & Hx3)).
  all: try (apply valid_finite in Hy as (Hy1 & Hy2 & Hy3)).
  all: unfold SFcompare, rank_sf; cbv zeta.
  all: change (2 ^ 70) with 1180591620717411303424 in *.
  all: change (2 ^ 53) with 9007199254740992 in *.
  all: try (destruct sx); try (destruct sy); f_equal; symmetry.
  all: try reflexivity.
  all: try (apply Z.compare_lt_iff; nia).
  all: try (apply Z.compare_gt_iff; nia).
  - (* both negative *)
    destruct (Z.compare_spec ex ey) as [->|Hlt|Hgt].
    + change (Pos.compare_cont Eq mx my) with (Pos.compare mx my).
      destruct (Pos.compare_spec mx my) as [->|H|H]; simpl.
      * apply Z.compare_refl.
      * apply Z.compare_gt_iff. lia.
      * apply Z.compare_lt_iff. lia.
    + apply Z.compare_gt_iff. nia.
    + apply Z.compare_lt_iff. nia.
  - (* both positive *)
    destruct (Z.compare_spec ex ey) as [->|Hlt|Hgt].
    + change (Pos.compare_cont Eq mx my) with (Pos.compare mx my).
      destruct (Pos.compare_spec mx my) as [->|H|H]; simpl.
      * apply Z.compare_refl.
      * apply Z.compare_lt_iff. lia.
      * apply Z.compare_gt_iff. lia.
    + apply Z.compare_lt_iff. nia.
    + apply Z.compare_gt_iff. nia.
Qed.

Lemma is_nan_spec (f : float) : is_nan f = true ↔ Prim2SF f = S754_nan.
Proof.
  unfold is_nan. rewrite FloatAxioms.eqb_spec. unfold SFeqb.
  destruct (Prim2SF f) as [s|s| |s m e] eqn:E.
  - simpl. split; done.
  - simpl. destruct s; split; done.
  - simpl. split; done.
  - rewrite SFcompare_rank; try done.
    + rewrite Z.compare_refl. split; done.
    + rewrite <- E. apply Prim2SF_valid.
    + rewrite <- E. apply Prim2SF_valid.
Qed.

Lemma not_nan (f : float) : is_nan f = false → Prim2SF f ≠ S754_nan.
Proof. intros H E. apply is_nan_spec in E. congruence. Qed.

(** On floats other than NaN, [<=] and [<] are those of the ranks. *)
Lemma leb_rank (a b : float) :
  is_nan a = false → is_nan b = false →
  (a <=? b)%float = (rank a <=? rank b).
Proof.
  intros Ha%not_nan Hb%not_nan. rewrite leb_spec. unfold SFleb, rank.
  rewrite SFcompare_rank by (done || apply Prim2SF_valid).
  unfold Z.leb. by destruct (rank_sf (Prim2SF a) ?= rank_sf (Prim2SF b)).
Qed.

Lemma ltb_rank (a b : float) :
  is_nan a = false → is_nan b = false →
  (a <? b)%float = (rank a <? rank b).
Proof.
  intros Ha%not_nan Hb%not_nan. rewrite ltb_spec. unfold SFltb, rank.
  rewrite SFcompare_rank by (done || apply Prim2SF_valid).
  unfold Z.ltb. by destruct (rank_sf (Prim2SF a) ?= rank_sf (Prim2SF b)).
Qed.

Lemma rank_zero : rank 0%float = 0.
Proof. reflexivity. Qed.

Lemma is_nan_zero : is_nan 0%float = false.
Proof. reflexivity. Qed.

End FloatOrderLaws.

(** ** Laws of the buffers on binary64 timestamps *)

Module FloatBufferLaws.
Import FloatOrder FloatOrderLaws FloatBuffer.

Section Laws.
Context {Sample : Type}.
Variable timestamp : Sample → float.
Variable buffer_size : Z.

Local Abbreviation ztimestamp := (λ x : Sample, rank (timestamp x)).
Local Abbreviation add_to_buffer := (add_to_buffer timestamp buffer_size).
Local Abbreviation step := (step timestamp buffer_size).
Local Abbreviation run := (run timestamp buffer_size).
Local Abbreviation no_nan := (no_nan timestamp).
Local Abbreviation within_capacity := (within_capacity buffer_size).
Local Abbreviation zadd_to_buffer := (DataProcessor.add_to_buffer ztimestamp buffer_size).
Local Abbreviation zstep := (DataProcessor.step ztimestamp buffer_size).
Local Abbreviation zrun := (DataProcessor.run ztimestamp buffer_size).

Lemma sound_init : sound (@init Sample).
Proof. intros sid t. unfold init. simpl. by rewrite lookup_empty. Qed.

Lemma ranked_init : ranked (@init Sample) = DataProcessor.init.
Proof. unfold ranked, init, DataProcessor.init. simpl. by rewrite fmap_empty. Qed.

Lemma last_ts_sound (p : @processor Sample) sid : sound p → is_nan (last_ts p sid) = false.
Proof.
  intros Hs. unfold last_ts. destruct (last_timestamps p !! sid) as [t|] eqn:E; simpl.
  - by apply (Hs sid).
  - reflexivity.
Qed.

Lemma last_ts_ranked (p : @processor Sample) sid :
  DataProcessor.last_ts (ranked p) sid = rank (last_ts p sid).
Proof.
  unfold DataProcessor.last_ts, last_ts, ranked. simpl. rewrite lookup_fmap.
  by destruct (last_timestamps p !! sid).
Qed.

(** On a sample whose timestamp is not NaN, [add_to_buffer] does on floats
    what it does on their ranks. *)
Lemma add_to_buffer_ranked sid (x : Sample) (p : @processor Sample) :
  sound p → is_nan (timestamp x) = false →
  zadd_to_buffer sid x (ranked p)
  = ((add_to_buffer sid x p).1, ranked (add_to_buffer sid x p).2)
  ∧ sound (add_to_buffer sid x p).2.
Proof.
  intros Hs Hx. unfold DataProcessor.add_to_buffer, FloatBuffer.add_to_buffer. cbv zeta.
  rewrite last_ts_ranked, <- leb_rank by (done || by apply last_ts_sound).
  destruct (timestamp x <=? last_ts p sid)%float; [done|].
  assert (Hs' : ∀ b : gmap string (list Sample),
            sound (Processor b (<[sid := timestamp x]> (last_timestamps p)))).
  { intros b sid' t. simpl. rewrite lookup_insert.
    destruct (decide (sid = sid')); [by intros [= <-]|]. apply Hs. }
  simpl. destruct (buffers p !! sid) as [q|]; simpl.
  - split; [|apply Hs']. unfold ranked. simpl. by rewrite fmap_insert.
  - unfold DataProcessor.deque_new. destruct (buffer_size <? 0); simpl.
    + split; [|apply Hs']. unfold ranked. simpl. by rewrite fmap_insert.
    + split; [|apply Hs']. unfold ranked. simpl. by rewrite fmap_insert.
Qed.

Lemma get_buffer_ranked sid (p : @processor Sample) :
  DataProcessor.get_buffer sid (ranked p) = ((get_buffer sid p).1, ranked (get_buffer sid p).2)
  ∧ (sound p → sound (get_buffer sid p).2).
Proof.
  unfold DataProcessor.get_buffer, get_buffer, ranked. simpl.
  by destruct (buffers p !! sid).
Qed.

Lemma get_all_fold_ranked ks : ∀ (res : gmap string (list Sample)) (p : @processor Sample),
  foldl DataProcessor.get_all_step (res, ranked p) ks
  = ((foldl get_all_step (res, p) ks).1, ranked (foldl get_all_step (res, p) ks).2)
  ∧ (sound p → sound (foldl get_all_step (res, p) ks).2).
Proof.
  induction ks as [|k ks IH]; intros res p; simpl; [done|].
  unfold DataProcessor.get_all_step at 2, get_all_step at 2 4 6. simpl.
  destruct (get_buffer_ranked k p) as [-> Hs].
  destruct (get_buffer k p) as [rs p1]. simpl in *.
  destruct (IH (match rs with [] => res | _ :: _ => <[k:=rs]> res end) p1) as [-> Hs1].
  split; [done|]. intros H. by apply Hs1, Hs.
Qed.

Lemma get_all_buffers_ranked (p : @processor Sample) :
  DataProcessor.get_all_buffers (ranked p)
  = ((get_all_buffers p).1, ranked (get_all_buffers p).2)
  ∧ (sound p → sound (get_all_buffers p).2).
Proof. apply get_all_fold_ranked. Qed.

Lemma step_ranked o (p : @processor Sample) :
  sound p → no_nan o →
  zstep o (ranked p) = ((step o p).1, ranked (step o p).2) ∧ sound (step o p).2.
Proof.
  intros Hs Ho. destruct o as [sid x|sid|]; simpl.
  - destruct (add_to_buffer_ranked sid x p Hs Ho) as [-> Hs']. done.
  - destruct (get_buffer_ranked sid p) as [-> Hs'].
    destruct (get_buffer sid p). split; [done|]. by apply Hs'.
  - destruct (get_all_buffers_ranked p) as [-> Hs'].
    destruct (get_all_buffers p). split; [done|]. by apply Hs'.
Qed.

(** A run that offers no NaN timestamp is, batch for batch, the run on the
    ranks. *)
Lemma run_ranked os : ∀ p : @processor Sample,
  sound p → Forall no_nan os →
  zrun os (ranked p) = ((run os p).1, ranked (run os p).2) ∧ sound (run os p).2.
Proof.
  induction os as [|o os IH]; intros p Hs Hos; simpl; [done|].
  apply Forall_cons in Hos as [Ho Hos].
  destruct (step_ranked o p Hs Ho) as [-> Hs1].
  destruct (step o p) as [b1 p1]. simpl in *.
  destruct (IH p1 Hs1 Hos) as [-> Hs2].
  destruct (run os p1) as [b2 p2]. done.
Qed.

(** *** What does not depend on the order *)

Lemma deque_append_length (q : list Sample) x :
  0 ≤ buffer_size → Z.of_nat (length q) ≤ buffer_size →
  Z.of_nat (length (DataProcessor.deque_append buffer_size q x)) ≤ buffer_size.
Proof.
  intros H0 Hq. unfold DataProcessor.deque_append.
  destruct (Z.ltb_spec buffer_size (Z.of_nat (length (q ++ [x])))) as [Hlt|Hge]; [|done].
  rewrite length_app in Hlt. simpl in Hlt.
  destruct q as [|a q]; simpl in *; [lia|]. rewrite length_app. simpl. lia.
Qed.

Lemma within_capacity_add sid x (p : @processor Sample) :
  within_capacity p → within_capacity (add_to_buffer sid x p).2.
Proof.
  intros Hc. unfold FloatBuffer.add_to_buffer. cbv zeta.
  destruct (timestamp x <=? last_ts p sid)%float; [done|]. simpl.
  destruct (buffers p !! sid) as [q|] eqn:E; simpl.
  - destruct (Hc sid q E) as [H0 Hq]. intros sid' q'. simpl. rewrite lookup_insert.
    destruct (decide (sid = sid')); [|apply Hc].
    intros [= <-]. split; [done|]. by apply deque_append_length.
  - unfold DataProcessor.deque_new.
    destruct (Z.ltb_spec buffer_size 0) as [Hlt|H0]; simpl; [done|].
    intros sid' q'. simpl. rewrite lookup_insert.
    destruct (decide (sid = sid')); [|apply Hc].
    intros [= <-]. split; [done|]. apply deque_append_length; [done|simpl; lia].
Qed.

Lemma within_capacity_get sid (p : @processor Sample) :
  within_capacity p → within_capacity (get_buffer sid p).2.
Proof.
  intros Hc. unfold get_buffer. destruct (buffers p !! sid) as [q|] eqn:E; [|done].
  intros sid' q'. simpl. rewrite lookup_insert.
  destruct (decide (sid = sid')); [|apply Hc].
  intros [= <-]. destruct (Hc sid q E) as [H0 _]. simpl. lia.
Qed.

Lemma within_capacity_fold ks : ∀ (res : gmap string (list Sample)) (p : @processor Sample),
  within_capacity p → within_capacity (foldl get_all_step (res, p) ks).2.
Proof.
  induction ks as [|k ks IH]; intros res p Hc; simpl; [done|].
  unfold get_all_step at 2. simpl.
  pose proof (within_capacity_get k p Hc) as Hc1.
  destruct (get_buffer k p) as [rs p1]. by apply IH.
Qed.

Lemma within_capacity_step o (p : @processor Sample) :
  within_capacity p → within_capacity (step o p).2.
Proof.
  intros Hc. destruct o as [sid x|sid|]; simpl.
  - by apply within_capacity_add.
  - pose proof (within_capacity_get sid p Hc). by destruct (get_buffer sid p).
  - pose proof (within_capacity_fold ((map_to_list (buffers p)).*1) ∅ p Hc) as H.
    unfold get_all_buffers. by destruct (foldl _ _ _).
Qed.

Lemma within_capacity_run os : ∀ p : @processor Sample,
  within_capacity p → within_capacity (run os p).2.
Proof.
  induction os as [|o os IH]; intros p Hc; simpl; [done|].
  pose proof (within_capacity_step o p Hc) as H1.
  destruct (step o p) as [b1 p1]. simpl in H1.
  specialize (IH p1 H1). by destruct (run os p1).
Qed.

Lemma within_capacity_init : within_capacity (@init Sample).
Proof. intros sid q. unfold init. simpl. by rewrite lookup_empty. Qed.

(** *** What holds when no NaN is offered *)

Lemma sorted_ranks (l : list Sample) :
  Forall (λ y, is_nan (timestamp y) = false) l →
  StronglySorted Z.lt (ztimestamp <$> l) →
  StronglySorted (λ a b, (a <? b)%float = true) (timestamp <$> l).
Proof.
  induction l as [|a l IH]; simpl; intros Hn Hs; [constructor|].
  apply Forall_cons in Hn as [Ha Hn].
  apply StronglySorted_inv in Hs as [Hs Hlt].
  constructor; [by apply IH|].
  apply Forall_fmap, Forall_forall. intros y Hy. simpl.
  rewrite Forall_forall in Hn. rewrite ltb_rank by (done || by apply Hn).
  apply Z.ltb_lt. rewrite Forall_forall in Hlt.
  apply Hlt. by apply (list_elem_of_fmap_2 ztimestamp).
Qed.

Lemma leb_false_rank (a b : float) :
  is_nan a = false → is_nan b = false → (a <=? b)%float = false → rank b < rank a.
Proof. intros Ha Hb. rewrite leb_rank by done. intros H. by apply Z.leb_gt. Qed.


(** X6.  From a fresh processor, under any offers and drains that never
    offer a NaN timestamp, the records drained for a session followed by
    those still pending carry strictly increasing timestamps and hold no
    record twice, and each of them was offered for that session, with a
    timestamp above 0 and not above the last accepted one. *)
Theorem drained_in_timestamp_order (os : list (@DataProcessor.op Sample)) sid :
  Forall no_nan os →
  let r := run os init in
  let delivered := Ingest.batches_of sid (r.1) in
  StronglySorted (λ a b, (a <? b)%float = true)
    (timestamp <$> (delivered ++ pending (r.2) sid))
  ∧ NoDup (delivered ++ pending (r.2) sid)
  ∧ ∀ y, y ∈ delivered ++ pending (r.2) sid →
      DataProcessor.Offer sid y ∈ os
      ∧ (0 <? timestamp y)%float = true
      ∧ (timestamp y <=? last_ts (r.2) sid)%float = true.
Proof.
  intros Hos r delivered.
  destruct (run_ranked os init sound_init Hos) as [Hr Hs]. fold r in Hr, Hs.
  rewrite ranked_init in Hr.
  destruct (IngestLaws.drained_in_rank_order ztimestamp buffer_size os sid)
    as (Hsort & Hnd & Hall).
  rewrite Hr in Hsort, Hnd, Hall. simpl in Hsort, Hnd, Hall.
  change (DataProcessor.pending (ranked (r.2)) sid) with (pending (r.2) sid) in *.
  fold delivered in Hsort, Hnd, Hall.
  assert (Hnan : ∀ y, y ∈ delivered ++ pending (r.2) sid → is_nan (timestamp y) = false).
  { intros y Hy. destruct (Hall y Hy) as [Hin _].
    rewrite Forall_forall in Hos. exact (Hos _ Hin). }
  split_and!; [|done|].
  - apply sorted_ranks; [|done]. by apply Forall_forall.
  - intros y Hy. destruct (Hall y Hy) as (Hin & H0 & Hle). split_and!; [done| |].
    + rewrite ltb_rank by (done || by apply Hnan). by apply Z.ltb_lt.
    + rewrite leb_rank by (by apply Hnan || by apply last_ts_sound).
      apply Z.leb_le. by rewrite <- last_ts_ranked.
Qed.

(** X7.  On a processor that was never offered a NaN timestamp: once a
    sample has been offered for a session, accepted or not, it is rejected
    whenever it is offered again for that session, whatever was offered or
    drained in between; the call returns [False] and changes nothing.
    Draining does not reset the last accepted timestamp. *)
Theorem replayed_sample_is_rejected (os0 : list (@DataProcessor.op Sample)) sid x os :
  Forall no_nan os0 → is_nan (timestamp x) = false → Forall no_nan os →
  let p := (run os0 init).2 in
  let p1 := (add_to_buffer sid x p).2 in
  let p2 := (run os p1).2 in
  add_to_buffer sid x p2 = (Returned false, p2).
Proof.
  intros Hos0 Hx Hos p p1 p2.
  destruct (run_ranked os0 init sound_init Hos0) as [_ Hs0]. fold p in Hs0.
  destruct (add_to_buffer_ranked sid x p Hs0 Hx) as [Hsim Hs1]. fold p1 in Hsim, Hs1.
  destruct (run_ranked os p1 Hs1 Hos) as [Hr Hs2]. fold p2 in Hr, Hs2.
  assert (Hle : rank (timestamp x) ≤ rank (last_ts p2 sid)).
  { rewrite <- last_ts_ranked.
    pose proof (IngestLaws.last_ts_run ztimestamp buffer_size sid os (ranked p1)) as Hmono.
    rewrite Hr in Hmono. simpl in Hmono.
    destruct (IngestLaws.add_to_buffer_shape ztimestamp buffer_size sid sid x (ranked p))
      as [[Hrej Heq]|(_ & Hl & _)].
    - rewrite Hsim in Heq. apply (f_equal snd) in Heq. simpl in Heq.
      fold p1 in Heq. rewrite Heq in Hmono. lia.
    - rewrite Hsim in Hl. simpl in Hl. rewrite decide_True in Hl by done. lia. }
  unfold FloatBuffer.add_to_buffer. cbv zeta.
  rewrite leb_rank by (done || by apply last_ts_sound).
  by destruct (Z.leb_spec (rank (timestamp x)) (rank (last_ts p2 sid))); [|lia].
Qed.

End Laws.


(** Witness of X6: three offers, one of them a duplicate, and a drain. *)
Lemma drained_in_timestamp_order_witness :
  let ts := λ t : float, t in
  let os := [DataProcessor.Offer "s1" 1%float; DataProcessor.Offer "s1" 1%float;
             DataProcessor.Drain "s1"; DataProcessor.Offer "s1" 2%float] in
  let r := run ts 2 os init in
  let delivered := Ingest.batches_of "s1" (r.1) in
  StronglySorted (λ a b, (a <? b)%float = true)
    (ts <$> (delivered ++ pending (r.2) "s1"))
  ∧ NoDup (delivered ++ pending (r.2) "s1")
  ∧ ∀ y, y ∈ delivered ++ pending (r.2) "s1" →
      DataProcessor.Offer "s1" y ∈ os
      ∧ (0 <? ts y)%float = true
      ∧ (ts y <=? last_ts (r.2) "s1")%float = true.
Proof.
  intros ts os.
  apply (drained_in_timestamp_order ts 2 os "s1"). repeat constructor.
Defined.

(** Witness of X7: the sample at 1 is offered, the sample at 2 is offered
    and the queue drained; the sample at 1 is then rejected. *)
Lemma replayed_sample_is_rejected_witness :
  let ts := λ t : float, t in
  let p := (run ts 2 [] init).2 in
  let p1 := (add_to_buffer ts 2 "s1" 1%float p).2 in
  let p2 := (run ts 2 [DataProcessor.Offer "s1" 2%float; DataProcessor.Drain "s1"] p1).2 in
  add_to_buffer ts 2 "s1" 1%float p2 = (Returned false, p2).
Proof.
  intros ts.
  apply (replayed_sample_is_rejected ts 2 [] "s1" 1%float
           [DataProcessor.Offer "s1" 2%float; DataProcessor.Drain "s1"]).
  - constructor.
  - reflexivity.
  - repeat constructor.
Defined.


End FloatBufferLaws.
